(** * Etheno logger: a shallow embedding of [etheno/logger.py]

    The development follows the two halves of the module:

    - the stream tailer ([StreamLogger] and its subclasses [ProcessLogger]
      and [PtyLogger]), which drains byte streams, assembles lines and
      hands them to a logger;
    - the logger tree ([EthenoLogger]), with its handlers, severity levels,
      directories and log files.

    Python objects are kept in explicit stores and referred to by index, so
    that sharing (a handler attached to several nodes, a child listed by its
    parent) is visible.  Exceptions are explicit outcomes; an exception
    leaves the store as it was at the point of the raise. *)

From Stdlib Require Import ZArith NArith Strings.Byte Ascii String List Lia.
From stdpp Require Import base option list strings pretty gmap.

Local Open Scope Z_scope.

#[global] Instance byte_eq_decision : EqDecision byte := Byte.byte_eq_dec.

(** ** Severity levels (lines 10-15) *)

Definition CRITICAL : Z := 50.
Definition ERROR : Z := 40.
Definition WARNING : Z := 30.
Definition INFO : Z := 20.
Definition DEBUG : Z := 10.
Definition NOTSET : Z := 0.

(** ** UTF-8, as used by [bytes.decode()] and [str.encode('utf-8')]

    A Python [str] is a sequence of code points, here [list N].  Decoding is
    strict: overlong forms, surrogates and values above 0x10FFFF are
    rejected (Python raises [UnicodeDecodeError]); encoding rejects
    surrogates ([UnicodeEncodeError]). *)

Module UTF8.

Definition in_range (lo hi : N) (b : byte) : bool :=
  ((lo <=? Byte.to_N b) && (Byte.to_N b <=? hi))%N.

Definition low6 (b : byte) : N := N.land (Byte.to_N b) 63.

Fixpoint decode (bs : list byte) : option (list N) :=
  match bs with
  | [] => Some []
  | b0 :: r0 =>
    let n0 := Byte.to_N b0 in
    if (n0 <? 128)%N then cons n0 <$> decode r0
    else if in_range 194 223 b0 then
      match r0 with
      | b1 :: r1 =>
        if in_range 128 191 b1
        then cons (64 * (n0 - 192) + low6 b1)%N <$> decode r1
        else None
      | _ => None
      end
    else if in_range 224 239 b0 then
      match r0 with
      | b1 :: b2 :: r2 =>
        let lo := if (n0 =? 224)%N then 160%N else 128%N in
        let hi := if (n0 =? 237)%N then 159%N else 191%N in
        if in_range lo hi b1 && in_range 128 191 b2
        then cons (4096 * (n0 - 224) + 64 * low6 b1 + low6 b2)%N <$> decode r2
        else None
      | _ => None
      end
    else if in_range 240 244 b0 then
      match r0 with
      | b1 :: b2 :: b3 :: r3 =>
        let lo := if (n0 =? 240)%N then 144%N else 128%N in
        let hi := if (n0 =? 244)%N then 143%N else 191%N in
        if in_range lo hi b1 && in_range 128 191 b2 && in_range 128 191 b3
        then cons (262144 * (n0 - 240) + 4096 * low6 b1
                   + 64 * low6 b2 + low6 b3)%N <$> decode r3
        else None
      | _ => None
      end
    else None
  end.

Definition bytes_of (ns : list N) : option (list byte) := mapM Byte.of_N ns.

Definition encode_char (c : N) : option (list byte) :=
  if (c <? 128)%N then bytes_of [c]
  else if (c <? 2048)%N then bytes_of [192 + c / 64; 128 + c mod 64]%N
  else if (c <? 65536)%N then
    if ((55296 <=? c) && (c <=? 57343))%N then None
    else bytes_of [224 + c / 4096; 128 + (c / 64) mod 64; 128 + c mod 64]%N
  else if (c <=? 1114111)%N then
    bytes_of [240 + c / 262144; 128 + (c / 4096) mod 64;
              128 + (c / 64) mod 64; 128 + c mod 64]%N
  else None.

Definition encode (s : list N) : option (list byte) :=
  mjoin <$> mapM encode_char s.

End UTF8.

(** ** The stream tailer (lines 252-302) *)

(** What one call of [stream.read(1)] can do. *)
Inductive read_result :=
  | RdNone                      (* returns [None]: nothing available *)
  | RdBytes (b : list byte)     (* returns a [bytes] object; empty at end of file *)
  | RdStr (s : list N)          (* returns a [str]; empty at end of file *)
  | RdRaise.                    (* raises *)

(** A stream is the script of its future reads.  Once the script is used up
    the stream is at end of file and every read returns an empty object. *)
Abbreviation stream := (list read_result).

(** A record handed to the logger: level and message. *)
Abbreviation record := (Z * list N)%type.

(** [self.log = lambda logger, message : logger.info(message)] *)
Definition log (logger : list record) (message : list N) : list record :=
  logger ++ [(INFO, message)].

(** The three classes differ in [is_done] only. *)
Inductive tailer_class := StreamLoggerC | ProcessLoggerC | PtyLoggerC.

Record StreamLogger := mkStreamLogger {
  cls : tailer_class;
  logger : list record;          (* what [self.logger] has received *)
  streams : list stream;
  _newline_char : list byte;
  _buffers : list (list byte);
  _done : bool;
  alive_polls : nat              (* [self.process]: liveness queries that still
                                    report a running process *)
}.

(** [__init__], line 253-262, with [newline_char] already a [bytes]. *)
Definition StreamLogger_init (c : tailer_class) (ss : list stream)
    (newline_char : list byte) (polls : nat) : StreamLogger :=
  {| cls := c; logger := []; streams := ss; _newline_char := newline_char;
     _buffers := (fun _ => []) <$> seq 0 (length ss);
     _done := false; alive_polls := polls |}.

(** [is_done], lines 263, 292 and 299.  Asking the process consumes one
    liveness query. *)
Definition is_done (t : StreamLogger) : bool * StreamLogger :=
  match cls t with
  | StreamLoggerC => (_done t, t)
  | ProcessLoggerC | PtyLoggerC =>
    match alive_polls t with
    | O => (true, t)
    | S n => (false,
              {| cls := cls t; logger := logger t; streams := streams t;
                 _newline_char := _newline_char t; _buffers := _buffers t;
                 _done := _done t; alive_polls := n |})
    end
  end.

(** The body of the [while byte ...] loop, lines 273-279, on one chunk that
    is already a [bytes]: [None] when [decode] raises. *)
Definition feed (nl : list byte) (st : list byte * list record)
    (byte : list byte) : option (list Byte.byte * list record) :=
  let '(buf, out) := st in
  if decide (byte = nl)
  then msg ← UTF8.decode buf; Some ([], log out msg)
  else Some (buf ++ byte, out).

(** State of one stream while it is drained. *)
Record drained := mkDrained {
  d_raised : bool;
  d_stream : stream;
  d_buffer : list byte;
  d_logger : list record;
  d_got_byte : bool
}.

(** Lines 271-281 for one stream: read, and while the read gave something,
    process it and read again. *)
Fixpoint drain (nl : list byte) (s : stream) (buf : list byte)
    (out : list record) (got : bool) : drained :=
  let chunk byte rest :=
    match feed nl (buf, out) byte with
    | Some (buf', out') => drain nl rest buf' out' true
    | None => mkDrained true rest buf out got
    end in
  match s with
  | [] => mkDrained false [] buf out got
  | RdNone :: rest => mkDrained false rest buf out got
  | RdRaise :: rest => mkDrained true rest buf out got
  | RdBytes b :: rest =>
    match b with
    | [] => mkDrained false rest buf out got
    | _ => chunk b rest
    end
  | RdStr c :: rest =>
    match c with
    | [] => mkDrained false rest buf out got
    | _ =>
      match UTF8.encode c with
      | Some b => chunk b rest
      | None => mkDrained true rest buf out got
      end
    end
  end.

Definition with_stream (t : StreamLogger) (i : nat) (d : drained) : StreamLogger :=
  {| cls := cls t; logger := d_logger d;
     streams := <[i := d_stream d]> (streams t);
     _newline_char := _newline_char t;
     _buffers := <[i := d_buffer d]> (_buffers t);
     _done := _done t; alive_polls := alive_polls t |}.

Definition set_done (t : StreamLogger) : StreamLogger :=
  {| cls := cls t; logger := logger t; streams := streams t;
     _newline_char := _newline_char t; _buffers := _buffers t;
     _done := true; alive_polls := alive_polls t |}.

(** The [for i, stream in enumerate(self.streams)] loop of line 270, over the
    indices still to visit.  The result says whether an exception left the
    loop.  [self._buffers[i]] raises [IndexError] when there is no such
    buffer, which [__init__] excludes. *)
Fixpoint for_streams (idx : list nat) (t : StreamLogger) (got : bool)
    : StreamLogger * bool * bool :=
  match idx with
  | [] => (t, got, false)
  | i :: idx' =>
    match streams t !! i, _buffers t !! i with
    | Some s, Some buf =>
      let d := drain (_newline_char t) s buf (logger t) got in
      if d_raised d then (with_stream t i d, d_got_byte d, true)
      else for_streams idx' (with_stream t i d) (d_got_byte d)
    | _, _ => (t, got, true)
    end
  end.

(** One turn of the [while True] loop, lines 268-283: the [try] block and
    its [except Exception] clause.  Returns [got_byte] as well. *)
Definition pass (t : StreamLogger) : StreamLogger * bool :=
  let '(t', got, raised) := for_streams (seq 0 (length (streams t))) t false in
  (if raised then set_done t' else t', got).

(** Reads that the scripts of a tailer still hold. *)
Definition pending (t : StreamLogger) : nat := sum_list (length <$> streams t).

(** The [while True] loop, lines 267-285. *)
Fixpoint poll_loop (fuel : nat) (t : StreamLogger) : option StreamLogger :=
  match fuel with
  | O => None
  | S fuel' =>
    let '(t', got_byte) := pass t in
    if negb got_byte || _done t' then Some t' else poll_loop fuel' t'
  end.

(** [run], lines 265-286.  [fuel] bounds the turns of the outer loop (each
    ends in [time.sleep(0.5)]); the inner loop gets as many turns as there
    are reads left, which is always enough ([poll_loop_total]). *)
Fixpoint run (fuel : nat) (t : StreamLogger) : option StreamLogger :=
  match fuel with
  | O => None
  | S fuel' =>
    let '(done, t0) := is_done t in
    if done then Some t0
    else t1 ← poll_loop (S (pending t0)) t0; run fuel' t1
  end.

(** A stream that delivers the given bytes, one per read. *)
Definition bytes_stream (bs : list byte) : stream := (fun b => RdBytes [b]) <$> bs.

(** The lines of a byte sequence, as the specification describes them: the
    maximal delimiter-free runs that are followed by a delimiter, and the
    unfinished rest. *)
Fixpoint lines_of (d : byte) (bs : list byte) : list (list byte) * list byte :=
  match bs with
  | [] => ([], [])
  | b :: bs' =>
    let '(ls, r) := lines_of d bs' in
    if decide (b = d) then ([] :: ls, r)
    else match ls with
         | [] => ([], b :: r)
         | l :: ls' => ((b :: l) :: ls', r)
         end
  end.

Definition info_records (msgs : list (list N)) : list record :=
  (fun m => (INFO, m)) <$> msgs.

(** *** Tailers used as examples *)

Definition nl_byte : byte := x0a.

(** One stream delivering an undecodable byte, a newline, and then [ok]
    and a newline. *)
Definition tailer_bad_utf8 : StreamLogger :=
  StreamLogger_init StreamLoggerC
    [bytes_stream [xff; x0a; x6f; x6b; x0a]] [nl_byte] 0.

(** One stream delivering an undecodable byte and a newline. *)
Definition tailer_one_bad_line : StreamLogger :=
  StreamLogger_init StreamLoggerC [bytes_stream [xff; x0a]] [nl_byte] 0.

(** A process tailer: the first stream gives [x], newline, nothing for now,
    and later [y], newline; the second stream raises on its first read.  The
    process is seen alive twice. *)
Definition tailer_process : StreamLogger :=
  StreamLogger_init ProcessLoggerC
    [[RdStr [120%N]; RdStr [10%N]; RdNone; RdStr [121%N]; RdStr [10%N]];
     [RdRaise]]
    [nl_byte] 2.

(** The same streams under a plain [StreamLogger]. *)
Definition tailer_plain : StreamLogger :=
  StreamLogger_init StreamLoggerC
    [[RdStr [120%N]; RdStr [10%N]; RdNone; RdStr [121%N]; RdStr [10%N]];
     [RdRaise]]
    [nl_byte] 0.

(** ** Python values and exceptions *)

Inductive exn := ValueError | TypeError.

(** The outcome of a call: a result, an exception, or [Unfinished] when the
    recursion bound given to the model was too small. *)
Inductive outcome (A : Type) :=
  | Return (a : A)
  | Raise (e : exn)
  | Unfinished.
Arguments Return {A} a.
Arguments Raise {A} e.
Arguments Unfinished {A}.

(** The values that can be given as, or stored in, a log level. *)
Inductive pyval :=
  | PNone
  | PInt (z : Z)
  | PStr (s : string)
  | PDict.                 (* a [dict], such as [logging._STYLES] *)

#[global] Instance pyval_eq_decision : EqDecision pyval.
Proof. solve_decision. Defined.

(** [str(v)].  The text of a dict starts with a brace, which is all that
    matters here. *)
Definition py_str (v : pyval) : string :=
  match v with
  | PNone => "None"
  | PInt z => pretty z
  | PStr s => s
  | PDict => "{}"
  end.

(** [str.upper()], for ASCII text. *)
Definition upper_char (c : ascii) : ascii :=
  let n := nat_of_ascii c in
  if ((97 <=? n) && (n <=? 122))%nat then ascii_of_nat (n - 32) else c.

Fixpoint upper (s : string) : string :=
  match s with
  | EmptyString => EmptyString
  | String c s' => String (upper_char c) (upper s')
  end.

(** Modelled from the Python standard library: [getattr(logging, name)] for
    the attributes of module [logging] whose name is its own upper-case
    form; [None] stands for [AttributeError]. *)
Definition logging_getattr (name : string) : option pyval :=
  if decide (name = "CRITICAL") then Some (PInt 50)
  else if decide (name = "FATAL") then Some (PInt 50)
  else if decide (name = "ERROR") then Some (PInt 40)
  else if decide (name = "WARNING") then Some (PInt 30)
  else if decide (name = "WARN") then Some (PInt 30)
  else if decide (name = "INFO") then Some (PInt 20)
  else if decide (name = "DEBUG") then Some (PInt 10)
  else if decide (name = "NOTSET") then Some (PInt 0)
  else if decide (name = "BASIC_FORMAT")
       then Some (PStr "%(levelname)s:%(name)s:%(message)s")
  else if decide (name = "_STYLES") then Some PDict
  else None.

(** Modelled from the Python standard library: [logging._checkLevel], which
    [Logger.setLevel] and [Handler.setLevel] apply to their argument. *)
Definition checkLevel (v : pyval) : exn + Z :=
  match v with
  | PInt z => inr z
  | PStr s =>
    match logging_getattr s with
    | Some (PInt z) => inr z
    | _ => inl ValueError
    end
  | _ => inl TypeError
  end.

(** ** Paths ([os.path], POSIX flavour)

    Paths are resolved textually, as [os.path.normpath] does; there are no
    symbolic links, so [os.path.realpath] is [os.path.abspath]. *)

Definition slash : ascii := "/"%char.

Definition isabs (p : string) : bool :=
  match p with
  | String c _ => bool_decide (c = slash)
  | EmptyString => false
  end.

Fixpoint ends_with_slash (p : string) : bool :=
  match p with
  | EmptyString => false
  | String c EmptyString => bool_decide (c = slash)
  | String _ p' => ends_with_slash p'
  end.

(** [os.path.join(a, b)]; with more arguments it is applied from the left. *)
Definition join (a b : string) : string :=
  if isabs b then b
  else if bool_decide (a = "") || ends_with_slash a then a +:+ b
  else a +:+ "/" +:+ b.

(** [s.split('/')] *)
Fixpoint split_slash (s : string) : list string :=
  match s with
  | EmptyString => [""]
  | String c s' =>
    if decide (c = slash) then "" :: split_slash s'
    else match split_slash s' with
         | x :: xs => String c x :: xs
         | [] => [String c ""]
         end
  end.

(** One turn of the loop of [normpath] over the components of an absolute
    path: empty and ["."] components are skipped, [".."] drops the last
    component kept so far. *)
Definition norm_step (comps : list string) (comp : string) : list string :=
  if decide (comp = "") then comps
  else if decide (comp = ".") then comps
  else if decide (comp = "..") then removelast comps
  else comps ++ [comp].

(** The components of an absolute path. *)
Definition components (p : string) : list string :=
  foldl norm_step [] (split_slash p).

(** Exactly two leading slashes are kept by [normpath]. *)
Definition leading (p : string) : string :=
  match p with
  | String a (String b EmptyString) =>
    if bool_decide (a = slash) && bool_decide (b = slash) then "//" else "/"
  | String a (String b (String c _)) =>
    if bool_decide (a = slash) && bool_decide (b = slash)
       && negb (bool_decide (c = slash)) then "//" else "/"
  | _ => "/"
  end.

Fixpoint join_slash (comps : list string) : string :=
  match comps with
  | [] => ""
  | [c] => c
  | c :: cs => c +:+ "/" +:+ join_slash cs
  end.

(** [os.path.abspath(p)] in working directory [cwd] (itself absolute). *)
Definition abspath (cwd p : string) : string :=
  let q := if isabs p then p else join cwd p in
  leading q +:+ join_slash (components q).

Definition realpath := abspath.

(** Where a path leads: the key of the file system. *)
Definition path_key (cwd p : string) : list string :=
  components (if isabs p then p else join cwd p).

Fixpoint drop_common (a b : list string) : list string * list string :=
  match a, b with
  | x :: a', y :: b' => if decide (x = y) then drop_common a' b' else (a, b)
  | _, _ => (a, b)
  end.

(** [os.path.relpath(path, start)] for a non-empty [path]. *)
Definition relpath (cwd path start : string) : string :=
  let '(s, p) := drop_common (path_key cwd start) (path_key cwd path) in
  match (((fun _ => "..") <$> s) ++ p)%list with
  | [] => "."
  | c :: cs => foldl join c cs
  end.

(** ** The file system *)

Inductive fsentry := Dir | File (size : N).

#[global] Instance fsentry_eq_decision : EqDecision fsentry.
Proof. solve_decision. Defined.

Abbreviation filesystem := (gmap (list string) fsentry).

(** [os.scandir(top)]: names and kinds of the entries in [top]. *)
Definition scandir (fs : filesystem) (top : list string) : list (string * fsentry) :=
  omap (fun '(k, e) =>
          match last k with
          | Some name => if decide (k = top ++ [name]) then Some (name, e) else None
          | None => None
          end) (map_to_list fs).

(** [os.makedirs(path, exist_ok=True)]: the directory and the missing ones
    above it. *)
Definition makedirs (key : list string) (fs : filesystem) : filesystem :=
  foldl (fun fs n =>
           let k := take n key in
           match fs !! k with Some _ => fs | None => <[k := Dir]> fs end)
        fs (seq 0 (S (length key))).

(** [open(path, 'w+b')]: the file is created, or emptied. *)
Definition open_truncate (key : list string) (fs : filesystem) : filesystem :=
  <[key := File 0]> fs.

(** [open(path, 'a')], as [logging.FileHandler] does. *)
Definition open_append (key : list string) (fs : filesystem) : filesystem :=
  match fs !! key with Some _ => fs | None => <[key := File 0]> fs end.

(** [shutil.rmtree], as [TemporaryDirectory.cleanup] does. *)
Definition rmtree (key : list string) (fs : filesystem) : filesystem :=
  filter (fun '(k, _) => ¬ key `prefix_of` k) fs.

(** [os.walk(top, topdown=False)] with the loop body of lines 128-129
    applied to each triple it yields.  A directory is listed when the walk
    first enters it, before anything below it is visited, and the triple
    built from that listing is yielded after the directories below. *)
Fixpoint walk_rmdir (fuel : nat) (root top : list string) (fs : filesystem)
    : filesystem :=
  match fuel with
  | O => fs
  | S fuel' =>
    match fs !! top with
    | Some Dir =>
      let entries := scandir fs top in
      let dirnames := omap (fun '(n, e) => if decide (e = Dir) then Some n else None) entries in
      let filenames := omap (fun '(n, e) => if decide (e = Dir) then None else Some n) entries in
      let fs' := foldl (fun fs n => walk_rmdir fuel' root (top ++ [n]) fs) fs dirnames in
      if bool_decide (length dirnames = 0%nat) && bool_decide (length filenames = 0%nat)
         && negb (bool_decide (top = root))
      then delete top fs'    (* os.rmdir(dirpath) *)
      else fs'
    | _ => fs
    end
  end.

(** Enough for the walk to reach every entry. *)
Definition fs_height (fs : filesystem) : nat :=
  S (max_list ((fun ke => length ke.1) <$> map_to_list fs)).

(** ** Object stores *)

(** A [logging.Handler]: a [FileHandler] has the absolute name of its file
    ([baseFilename], which is also [stream.name]); [h_open] says whether
    [stream] is not [None]. *)
Record Handler := mkHandler {
  h_file : option string;
  h_level : Z;
  h_open : bool
}.

(** A [logging.Logger], as [logging.getLogger] hands it out by name. *)
Record Logger := mkLogger {
  lg_level : Z;
  lg_handlers : list nat
}.

(** An [EthenoLogger] object (lines 89-111).  [_logger] is the name of the
    underlying [logging.Logger], which is what [self.name] answers through
    [__getattr__]. *)
Record EthenoLogger := mkEthenoLogger {
  _directory : option string;
  parent : option nat;
  cleanup_empty : bool;
  children : list nat;
  _descendant_handlers : list nat;
  _log_level : pyval;
  _logger : string;
  _handlers : list nat;
  _tmpdir : option string       (* the [TemporaryDirectory], by its name *)
}.

Record World := mkWorld {
  nodes : list EthenoLogger;
  handlers : list Handler;
  loggers : gmap string Logger;
  fs : filesystem;
  cwd : string;
  tmp_count : nat
}.

Definition empty_world (cwd : string) : World :=
  mkWorld [] [] ∅ ∅ cwd 0.

Definition with_nodes (f : list EthenoLogger → list EthenoLogger) (w : World) : World :=
  mkWorld (f (nodes w)) (handlers w) (loggers w) (fs w) (cwd w) (tmp_count w).
Definition with_handlers (f : list Handler → list Handler) (w : World) : World :=
  mkWorld (nodes w) (f (handlers w)) (loggers w) (fs w) (cwd w) (tmp_count w).
Definition with_loggers (f : gmap string Logger → gmap string Logger) (w : World) : World :=
  mkWorld (nodes w) (handlers w) (f (loggers w)) (fs w) (cwd w) (tmp_count w).
Definition with_fs (f : filesystem → filesystem) (w : World) : World :=
  mkWorld (nodes w) (handlers w) (loggers w) (f (fs w)) (cwd w) (tmp_count w).

Definition set_directory (d : option string) (n : EthenoLogger) : EthenoLogger :=
  mkEthenoLogger d (parent n) (cleanup_empty n) (children n)
    (_descendant_handlers n) (_log_level n) (_logger n) (_handlers n) (_tmpdir n).
Definition set_children (c : list nat) (n : EthenoLogger) : EthenoLogger :=
  mkEthenoLogger (_directory n) (parent n) (cleanup_empty n) c
    (_descendant_handlers n) (_log_level n) (_logger n) (_handlers n) (_tmpdir n).
Definition set_descendant_handlers (hs : list nat) (n : EthenoLogger) : EthenoLogger :=
  mkEthenoLogger (_directory n) (parent n) (cleanup_empty n) (children n)
    hs (_log_level n) (_logger n) (_handlers n) (_tmpdir n).
Definition set_level (v : pyval) (n : EthenoLogger) : EthenoLogger :=
  mkEthenoLogger (_directory n) (parent n) (cleanup_empty n) (children n)
    (_descendant_handlers n) v (_logger n) (_handlers n) (_tmpdir n).
Definition set_logger (l : string) (n : EthenoLogger) : EthenoLogger :=
  mkEthenoLogger (_directory n) (parent n) (cleanup_empty n) (children n)
    (_descendant_handlers n) (_log_level n) l (_handlers n) (_tmpdir n).
Definition set_handlers (hs : list nat) (n : EthenoLogger) : EthenoLogger :=
  mkEthenoLogger (_directory n) (parent n) (cleanup_empty n) (children n)
    (_descendant_handlers n) (_log_level n) (_logger n) hs (_tmpdir n).
Definition set_tmpdir (t : option string) (n : EthenoLogger) : EthenoLogger :=
  mkEthenoLogger (_directory n) (parent n) (cleanup_empty n) (children n)
    (_descendant_handlers n) (_log_level n) (_logger n) (_handlers n) t.

(** ** Computations on the world, with exceptions *)

Definition M (A : Type) : Type := World → outcome A * World.

Definition ret {A} (a : A) : M A := fun w => (Return a, w).
Definition raise {A} (e : exn) : M A := fun w => (Raise e, w).
Definition unfinished {A} : M A := fun w => (Unfinished, w).

Definition bind {A B} (m : M A) (k : A → M B) : M B := fun w =>
  match m w with
  | (Return a, w') => k a w'
  | (Raise e, w') => (Raise e, w')
  | (Unfinished, w') => (Unfinished, w')
  end.

Declare Scope py_scope.
Delimit Scope py_scope with py.
Notation "x <- m ;; k" := (bind m (fun x => k))
  (at level 100, m at next level, right associativity) : py_scope.
Notation "m ;; k" := (bind m (fun _ => k))
  (at level 100, right associativity) : py_scope.
Local Open Scope py_scope.

(** [for x in l: body(x)] *)
Fixpoint for_each {A} (l : list A) (body : A → M unit) : M unit :=
  match l with
  | [] => ret tt
  | x :: l' => body x ;; for_each l' body
  end.

Definition get_world : M World := fun w => (Return w, w).
Definition modify (f : World → World) : M unit := fun w => (Return tt, f w).

Definition get_node (x : nat) : M EthenoLogger := fun w =>
  match nodes w !! x with
  | Some n => (Return n, w)
  | None => (Unfinished, w)
  end.

Definition upd_node (x : nat) (f : EthenoLogger → EthenoLogger) : M unit :=
  modify (with_nodes (alter f x)).

Definition get_handler (h : nat) : M Handler := fun w =>
  match handlers w !! h with
  | Some hd => (Return hd, w)
  | None => (Unfinished, w)
  end.

(** ** The [logging] library *)

(** [Handler.setLevel(level)] *)
Definition Handler_setLevel (h : nat) (level : pyval) : M unit :=
  match checkLevel level with
  | inr z => modify (with_handlers (alter (fun hd => mkHandler (h_file hd) z (h_open hd)) h))
  | inl e => raise e
  end.

(** [Handler.close()] of a [FileHandler]: the stream becomes [None]. *)
Definition Handler_close (h : nat) : M unit :=
  modify (with_handlers (alter (fun hd => mkHandler (h_file hd) (h_level hd) false) h)).

(** [logging.StreamHandler()] *)
Definition StreamHandler : M nat := fun w =>
  (Return (length (handlers w)),
   with_handlers (fun hs => hs ++ [mkHandler None NOTSET true]) w).

(** [logging.FileHandler(path)]: opens the file for appending at once. *)
Definition FileHandler (path : string) : M nat := fun w =>
  let base := abspath (cwd w) path in
  (Return (length (handlers w)),
   with_handlers (fun hs => hs ++ [mkHandler (Some base) NOTSET true])
     (with_fs (open_append (path_key (cwd w) base)) w)).

(** [logging.getLogger(name)]: one logger per name; the empty name is the
    root logger. *)
Definition getLogger (name : string) : M string := fun w =>
  let key := if decide (name = "") then "root" else name in
  match loggers w !! key with
  | Some _ => (Return key, w)
  | None => (Return key, with_loggers (insert key (mkLogger NOTSET [])) w)
  end.

(** [Logger.setLevel(level)] *)
Definition Logger_setLevel (lg : string) (level : pyval) : M unit :=
  match checkLevel level with
  | inr z => modify (with_loggers (alter (fun l => mkLogger z (lg_handlers l)) lg))
  | inl e => raise e
  end.

(** [Logger.addHandler(hdlr)]: a handler already there is not added again. *)
Definition Logger_addHandler (lg : string) (h : nat) : M unit :=
  modify (with_loggers (alter (fun l =>
    if decide (h ∈ lg_handlers l) then l
    else mkLogger (lg_level l) (lg_handlers l ++ [h])) lg)).

(** [tempfile.TemporaryDirectory()]: a new directory under [/tmp]. *)
Definition TemporaryDirectory : M string := fun w =>
  let name := "/tmp/tmp" +:+ pretty (tmp_count w) in
  (Return name,
   mkWorld (nodes w) (handlers w) (loggers w)
     (makedirs (path_key (cwd w) name) (fs w)) (cwd w) (S (tmp_count w))).

(** ** [EthenoLogger] methods *)

(** The [log_level] property, lines 226-233. *)
Fixpoint log_level_rec (fuel : nat) (self : nat) : M pyval :=
  match fuel with
  | O => unfinished
  | S fuel' =>
    n <- get_node self ;;
    match _log_level n with
    | PNone =>
      match parent n with
      | None => raise ValueError
      | Some p => log_level_rec fuel' p
      end
    | v => ret v
    end
  end.

Definition log_level (self : nat) : M pyval := fun w =>
  log_level_rec (length (nodes w)) self w.

Definition recognized (z : Z) : bool :=
  bool_decide (z ∈ [CRITICAL; ERROR; WARNING; INFO; DEBUG]).

(** The [log_level] setter, lines 235-247. *)
Definition set_log_level (self : nat) (level : pyval) : M unit :=
  level <- match level with
           | PInt z => if recognized z then ret (PInt z) else raise ValueError
           | _ =>
             match logging_getattr (upper (py_str level)) with
             | Some v => ret v
             | None => raise ValueError
             end
           end ;;
  upd_node self (set_level level) ;;
  n <- get_node self ;;
  Logger_setLevel (_logger n) level ;;
  for_each (_handlers n) (fun handler => Handler_setLevel handler level).

(** [addHandler], lines 160-171.  Every child is an [EthenoLogger]. *)
Fixpoint addHandler_rec (fuel : nat) (self handler : nat)
    (include_descendants set_log_level : bool) : M unit :=
  match fuel with
  | O => unfinished
  | S fuel' =>
    (if set_log_level
     then level <- log_level self ;; Handler_setLevel handler level
     else ret tt) ;;
    n <- get_node self ;;
    Logger_addHandler (_logger n) handler ;;
    upd_node self (fun n => set_handlers (_handlers n ++ [handler]) n) ;;
    if include_descendants then
      upd_node self (fun n =>
        set_descendant_handlers (_descendant_handlers n ++ [handler]) n) ;;
      n <- get_node self ;;
      for_each (children n) (fun child =>
        addHandler_rec fuel' child handler include_descendants set_log_level)
    else ret tt
  end.

Definition addHandler (self handler : nat)
    (include_descendants set_log_level : bool) : M unit := fun w =>
  addHandler_rec (length (nodes w)) self handler
    include_descendants set_log_level w.

(** [save_to_file], lines 206-212. *)
Definition save_to_file (self : nat) (path : string)
    (include_descendants : bool) (level : pyval) : M unit :=
  level <- match level with PNone => log_level self | v => ret v end ;;
  handler <- FileHandler path ;;
  Handler_setLevel handler level ;;
  addHandler self handler include_descendants false.

(** What [save_to_directory] is given: a path, or, from line 146, a
    [TemporaryDirectory] object. *)
Inductive patharg :=
  | PathStr (path : string)
  | PathTmp (name : string).

#[global] Instance patharg_eq_decision : EqDecision patharg.
Proof. solve_decision. Defined.

(** [save_to_directory], lines 214-224.  A [TemporaryDirectory] is equal to
    no string, and [os.path.realpath] does not take one: [TypeError]. *)
Fixpoint save_to_directory_rec (fuel : nat) (self : nat) (path : patharg)
    : M unit :=
  match fuel with
  | O => unfinished
  | S fuel' =>
    n <- get_node self ;;
    if decide (Some path = PathStr <$> _directory n) then ret tt
    else if decide (_directory n ≠ None) then raise ValueError
    else
      match path with
      | PathTmp _ => raise TypeError
      | PathStr path =>
        w <- get_world ;;
        upd_node self (set_directory (Some (realpath (cwd w) path))) ;;
        modify (with_fs (makedirs (path_key (cwd w) path))) ;;
        save_to_file self (join path (_logger n +:+ ".log")) false (PInt DEBUG) ;;
        n <- get_node self ;;
        for_each (children n) (fun child =>
          c <- get_node child ;;
          save_to_directory_rec fuel' child (PathStr (join path (_logger c))))
      end
  end.

Definition save_to_directory (self : nat) (path : patharg) : M unit := fun w =>
  save_to_directory_rec (length (nodes w)) self path w.

(** The [while parent is not None] loop of lines 147-151. *)
Fixpoint add_child_loop (fuel : nat) (self child : nat) (parent_ : option nat)
    : M unit :=
  match parent_ with
  | None => ret tt
  | Some p =>
    match fuel with
    | O => unfinished
    | S fuel' =>
      n <- get_node self ;;
      for_each (_descendant_handlers n) (fun handler =>
        addHandler child handler true true) ;;
      pn <- get_node p ;;
      add_child_loop fuel' self child (parent pn)
    end
  end.

(** [_add_child], lines 138-151. *)
Definition _add_child (self child : nat) : M unit :=
  n <- get_node self ;;
  if decide (child ∈ children n) then raise ValueError
  else
    upd_node self (fun n => set_children (children n ++ [child]) n) ;;
    c <- get_node child ;;
    match _directory n with
    | Some d => save_to_directory child (PathStr (join d (_logger c)))
    | None =>
      tmp <- TemporaryDirectory ;;
      upd_node child (set_tmpdir (Some tmp)) ;;
      save_to_directory child (PathTmp tmp)
    end ;;
    w <- get_world ;;
    add_child_loop (length (nodes w)) self child (Some self).

(** [__init__], lines 89-111; the result is the new object. *)
Definition EthenoLogger_init (name : string) (level : pyval)
    (parent_ : option nat) (cleanup : bool) : M nat :=
  w <- get_world ;;
  let self := length (nodes w) in
  modify (with_nodes (fun ns =>
    ns ++ [mkEthenoLogger None parent_ cleanup [] [] PNone "" [] None])) ;;
  level <- match level with
           | PNone =>
             match parent_ with
             | None => raise ValueError
             | Some p => log_level p
             end
           | v => ret v
           end ;;
  upd_node self (set_level level) ;;
  lg <- getLogger name ;;
  upd_node self (set_logger lg) ;;
  h <- StreamHandler ;;
  upd_node self (set_handlers [h]) ;;
  (if decide (level ≠ PNone) then set_log_level self level else ret tt) ;;
  match parent_ with
  | None => ret tt
  | Some p => _add_child p self
  end ;;
  n <- get_node self ;;
  match _handlers n with
  | h0 :: _ => Logger_addHandler (_logger n) h0
  | [] => ret tt
  end ;;
  upd_node self (set_tmpdir None) ;;
  ret self.

(** Lines 119-124 for one handler. *)
Definition remove_if_empty (h : nat) : M unit :=
  hd <- get_handler h ;;
  match h_file hd with
  | Some log_path =>
    if h_open hd then
      w <- get_world ;;
      let key := path_key (cwd w) log_path in
      if decide (fs w !! key = Some (File 0)) then
        Handler_close h ;;
        modify (with_fs (delete key))
      else ret tt
    else ret tt
  | None => ret tt
  end.

(** [close], lines 113-132. *)
Fixpoint close_rec (fuel : nat) (self : nat) : M unit :=
  match fuel with
  | O => unfinished
  | S fuel' =>
    n <- get_node self ;;
    for_each (children n) (close_rec fuel') ;;
    n <- get_node self ;;
    (if cleanup_empty n then
       for_each (_handlers n) remove_if_empty ;;
       match _directory n with
       | Some d =>
         if decide (d = "") then ret tt
         else
           w <- get_world ;;
           let top := path_key (cwd w) d in
           modify (with_fs (walk_rmdir (fs_height (fs w)) top top))
       | None => ret tt
       end
     else ret tt) ;;
    n <- get_node self ;;
    match _tmpdir n with
    | Some tmp =>
      w <- get_world ;;
      modify (with_fs (rmtree (path_key (cwd w) tmp))) ;;
      upd_node self (set_tmpdir None)
    | None => ret tt
    end
  end.

Definition close (self : nat) : M unit := fun w =>
  close_rec (length (nodes w)) self w.

(** The [while True] loop of [make_logged_file], lines 181-189, in the
    default mode ['w+b']; [base] is [os.path.join(self.directory, dir)]. *)
Fixpoint make_logged_file_loop (fuel : nat) (i : nat) (base : string)
    (prefix suffix : pyval) : M string :=
  match fuel with
  | O => unfinished
  | S fuel' =>
    let filename :=
      if decide (i = 1%nat) then py_str prefix +:+ py_str suffix
      else py_str prefix +:+ pretty i +:+ py_str suffix in
    let path := join base filename in
    w <- get_world ;;
    match fs w !! path_key (cwd w) path with
    | None =>
      modify (with_fs (open_truncate (path_key (cwd w) path))) ;;
      ret path
    | Some _ => make_logged_file_loop fuel' (S i) base prefix suffix
    end
  end.

(** [make_logged_file], lines 173-189; the result is the name of the file
    that was opened.  The loop is given one turn more than there are
    entries in the file system. *)
Definition make_logged_file (self : nat) (prefix suffix : pyval)
    (dir : option string) : M string :=
  n <- get_node self ;;
  w <- get_world ;;
  match _directory n with
  | None => raise TypeError
  | Some d =>
    let dir := match dir with
               | None => ""
               | Some dir => relpath (cwd w) (realpath (cwd w) dir)
                                     (realpath (cwd w) d)
               end in
    modify (with_fs (makedirs (path_key (cwd w) (join d dir)))) ;;
    w <- get_world ;;
    make_logged_file_loop (S (size (fs w))) 1 (join d dir) prefix suffix
  end.

(** ** Scenarios used as examples

    Each starts from an empty world with working directory [/home/u]. *)

Definition start : World := empty_world "/home/u".

(** A root without a directory, and a child created under it. *)
Definition child_of_bare_root : M nat :=
  root <- EthenoLogger_init "root" (PInt INFO) None false ;;
  EthenoLogger_init "child" PNone (Some root) false.

(** A root saving to [/logs] with a handler for its descendants (handler 2),
    a child [c] and a grandchild [g]. *)
Definition three_generations : M nat :=
  root <- EthenoLogger_init "root" (PInt INFO) None false ;;
  save_to_directory root (PathStr "/logs") ;;
  h <- StreamHandler ;;
  addHandler root h true true ;;
  c <- EthenoLogger_init "c" PNone (Some root) false ;;
  EthenoLogger_init "g" PNone (Some c) false.

(** The same relative directory assigned twice. *)
Definition same_relative_directory_twice : M unit :=
  root <- EthenoLogger_init "root" (PInt INFO) None false ;;
  save_to_directory root (PathStr "logs") ;;
  save_to_directory root (PathStr "logs").

(** The same absolute directory assigned twice, then another one. *)
Definition same_absolute_directory_twice : M unit :=
  root <- EthenoLogger_init "root" (PInt INFO) None false ;;
  save_to_directory root (PathStr "/logs") ;;
  save_to_directory root (PathStr "/logs").

(** The level given by the name of [logging.NOTSET]. *)
Definition level_by_name_notset : M unit :=
  root <- EthenoLogger_init "root" (PInt INFO) None false ;;
  set_log_level root (PStr "notset").

(** The same level given as a number. *)
Definition level_by_number_notset : M unit :=
  root <- EthenoLogger_init "root" (PInt INFO) None false ;;
  set_log_level root (PInt NOTSET).

(** A root at DEBUG saving to [/logs], a child without a level of its own,
    then the root set to WARNING; the result is the child's [log_level]. *)
Definition child_level_after_root_change : M pyval :=
  root <- EthenoLogger_init "root" (PInt DEBUG) None false ;;
  save_to_directory root (PathStr "/logs") ;;
  child <- EthenoLogger_init "child" PNone (Some root) false ;;
  set_log_level root (PInt WARNING) ;;
  log_level child.

(** Three logged files asked of a node named [name]. *)
Definition three_logged_files (name : string) : M (list string) :=
  node <- EthenoLogger_init name (PInt INFO) None false ;;
  save_to_directory node (PathStr "/logs") ;;
  a <- make_logged_file node (PStr "run") (PStr ".log") None ;;
  b <- make_logged_file node (PStr "run") (PStr ".log") None ;;
  c <- make_logged_file node (PStr "run") (PStr ".log") None ;;
  ret [a; b; c].

(** A root at DEBUG saving to [/logs]; the same with a child that was given
    no level. *)
Definition world_root_debug : World :=
  ((root <- EthenoLogger_init "root" (PInt DEBUG) None false ;;
    save_to_directory root (PathStr "/logs")) start).2.

Definition world_root_and_child : World :=
  (EthenoLogger_init "child" PNone (Some 0%nat) false world_root_debug).2.

(** A node named [node] saving to [/logs]. *)
Definition world_node_logs : World :=
  ((node <- EthenoLogger_init "node" (PInt INFO) None false ;;
    save_to_directory node (PathStr "/logs")) start).2.

(** A root saving to [/logs], its child and grandchild, all made with
    [cleanup_empty] and with nothing logged yet. *)
Definition world_three_empty : World :=
  ((root <- EthenoLogger_init "root" (PInt INFO) None true ;;
    save_to_directory root (PathStr "/logs") ;;
    c <- EthenoLogger_init "c" PNone (Some root) true ;;
    EthenoLogger_init "g" PNone (Some c) true) start).2.

(** The same handler given twice to a root. *)
Definition handler_added_twice : M unit :=
  root <- EthenoLogger_init "root" (PInt INFO) None false ;;
  h <- StreamHandler ;;
  addHandler root h true true ;;
  addHandler root h true true.

(** A root saving to [/logs], its child [c], and a new handler (handler 4)
    not yet given to anyone. *)
Definition world_root_child : World :=
  ((root <- EthenoLogger_init "root" (PInt INFO) None false ;;
    save_to_directory root (PathStr "/logs") ;;
    EthenoLogger_init "c" PNone (Some root) false ;;
    StreamHandler) start).2.

(** ** Vocabulary for the statements below *)

(** [follows R m]: running [m] takes a world to an [R]-related one,
    whatever the outcome. *)
Definition follows {A} (R : relation World) (m : M A) : Prop :=
  ∀ w, R w (m w).2.

(** The own thresholds of all nodes. *)
Definition levels (w : World) : list pyval := _log_level <$> nodes w.

Definition same_levels : relation World := fun w w' => levels w' = levels w.

(** The own threshold of node [c] stays [v] once it is [v]. *)
Definition level_stays (c : nat) (v : pyval) : relation World := fun w w' =>
  levels w !! c = Some v → levels w' !! c = Some v.

(** Text without a path separator. *)
Fixpoint has_slash (s : string) : bool :=
  match s with
  | EmptyString => false
  | String c s' => bool_decide (c = slash) || has_slash s'
  end.

(** A plain name: one path component that is neither empty nor a dot
    name. *)
Definition plain (f : string) : Prop :=
  has_slash f = false ∧ f ≠ "" ∧ f ≠ "." ∧ f ≠ "..".

Definition is_digit (c : ascii) : bool :=
  ((48 <=? nat_of_ascii c) && (nat_of_ascii c <=? 57))%nat.

Fixpoint all_digits (s : string) : bool :=
  match s with
  | EmptyString => true
  | String c s' => is_digit c && all_digits s'
  end.

Fixpoint has_digit (s : string) : bool :=
  match s with
  | EmptyString => false
  | String c s' => is_digit c || has_digit s'
  end.

(** The file name tried at turn [i] of [make_logged_file] (lines 182-185). *)
Definition logged_name (prefix suffix : string) (i : nat) : string :=
  if decide (i = 1%nat) then prefix +:+ suffix
  else prefix +:+ pretty i +:+ suffix.

(** Well-formed worlds: the children of a node were created after it, and
    children and handlers are objects of the stores. *)
Definition node_ok (w : World) (x : nat) (n : EthenoLogger) : Prop :=
  Forall (fun c => x < c < length (nodes w))%nat (children n)
  ∧ Forall (fun h => h < length (handlers w))%nat (_handlers n).

Definition wf (w : World) : Prop :=
  ∀ x n, nodes w !! x = Some n → node_ok w x n.

Definition wf_check (w : World) : bool :=
  forallb (fun '(x, n) =>
             forallb (fun c => (x <? c) && (c <? length (nodes w)))%nat (children n)
             && forallb (fun h => h <? length (handlers w))%nat (_handlers n))
          (imap pair (nodes w)).

(** [k] lies in the temporary directory of some node. *)
Definition in_tmpdir (w : World) (k : list string) : Prop :=
  ∃ x n t, nodes w !! x = Some n ∧ _tmpdir n = Some t
           ∧ path_key (cwd w) t `prefix_of` k.

(** What [close] may do to a world: nodes and handlers stay where they are,
    a node can only lose its temporary directory, a handler can only be
    closed, and then its file is gone; no entry of the file system appears
    or changes, and a file with contents outside the temporary directories
    stays. *)
Definition closes_to : relation World := fun w w' =>
  cwd w' = cwd w
  ∧ length (nodes w') = length (nodes w)
  ∧ length (handlers w') = length (handlers w)
  ∧ (∀ x n, nodes w !! x = Some n →
       ∃ n', nodes w' !! x = Some n'
             ∧ children n' = children n ∧ _handlers n' = _handlers n
             ∧ cleanup_empty n' = cleanup_empty n
             ∧ _directory n' = _directory n
             ∧ (_tmpdir n' = _tmpdir n ∨ _tmpdir n' = None))
  ∧ (∀ h hd, handlers w !! h = Some hd →
       ∃ hd', handlers w' !! h = Some hd'
              ∧ h_file hd' = h_file hd
              ∧ (h_open hd' = h_open hd
                 ∨ (h_open hd' = false
                    ∧ ∀ p, h_file hd = Some p →
                           fs w' !! path_key (cwd w) p = None)))
  ∧ (∀ k e, fs w' !! k = Some e → fs w !! k = Some e)
  ∧ (∀ k sz, fs w !! k = Some (File sz) → sz ≠ 0%N → ¬ in_tmpdir w k →
       fs w' !! k = Some (File sz)).

(** No open handler [h] is left with an empty file. *)
Definition settled (w : World) (h : nat) : Prop :=
  ∀ hd p, handlers w !! h = Some hd → h_file hd = Some p →
          h_open hd = true → fs w !! path_key (cwd w) p ≠ Some (File 0).

(** The directories from [top] down to [top ++ names] all exist. *)
Definition dir_chain (fs : filesystem) (top names : list string) : Prop :=
  ∀ i, (i ≤ length names)%nat → fs !! (top ++ take i names) = Some Dir.

(** A directory without entries. *)
Definition no_entries (fs : filesystem) (dir : list string) : Prop :=
  ∀ name, fs !! (dir ++ [name]) = None.

(** What [addHandler] and [save_to_directory] leave of a node: its place
    in the tree and its own threshold. *)
Definition skeleton (n : EthenoLogger) : option nat * list nat * pyval :=
  (parent n, children n, _log_level n).

Definition same_skeleton : relation World := fun w w' =>
  skeleton <$> nodes w' = skeleton <$> nodes w.

(** Trees as the constructor builds them: a node was created after its
    parent and before its children, and its own threshold is one of the
    five levels of line 242. *)
Definition node_sound (w : World) (x : nat) (n : EthenoLogger) : Prop :=
  Forall (fun c => x < c < length (nodes w))%nat (children n)
  ∧ (∀ q, parent n = Some q → (q < x)%nat)
  ∧ ∃ z, _log_level n = PInt z ∧ recognized z = true.

Definition sound (w : World) : Prop :=
  ∀ x n, nodes w !! x = Some n → node_sound w x n.

Definition sound_check (w : World) : bool :=
  forallb (fun '(x, n) =>
             forallb (fun c => (x <? c) && (c <? length (nodes w)))%nat (children n)
             && match parent n with
                | Some q => (q <? x)%nat
                | None => true
                end
             && match _log_level n with
                | PInt z => recognized z
                | _ => false
                end)
          (imap pair (nodes w)).

(** The [log_level] argument of a constructor call that has a parent:
    absent, or one of the five levels. *)
Definition level_arg_ok (lvl : pyval) : Prop :=
  match lvl with
  | PNone => True
  | PInt z => recognized z = true
  | _ => False
  end.

(** [y] is [x] or can be reached from [x] by child links. *)
Inductive descends (w : World) : nat → nat → Prop :=
  | descends_refl x : descends w x x
  | descends_child x n c y :
      nodes w !! x = Some n → c ∈ children n → descends w c y →
      descends w x y.

(** [y] is a node whose [logging.Logger] is in the registry of
    [logging.getLogger]. *)
Definition registered (w : World) (y : nat) : Prop :=
  ∃ n lg, nodes w !! y = Some n ∧ loggers w !! _logger n = Some lg.

(** Node [y] has handler [h]: in its own list, in the list it hands on to
    the nodes created below it, and in its [logging.Logger]. *)
Definition attached (w : World) (y h : nat) : Prop :=
  ∃ n lg, nodes w !! y = Some n
          ∧ h ∈ _handlers n ∧ h ∈ _descendant_handlers n
          ∧ loggers w !! _logger n = Some lg ∧ h ∈ lg_handlers lg.

(** No [logging.Logger] holds a handler twice. *)
Definition loggers_nodup (w : World) : Prop :=
  ∀ name lg, loggers w !! name = Some lg → NoDup (lg_handlers lg).

(** A node keeps its logger; its children and handler lists only grow. *)
Definition grows_node : relation EthenoLogger := fun n n' =>
  _logger n' = _logger n
  ∧ children n ⊆ children n'
  ∧ _handlers n ⊆ _handlers n'
  ∧ _descendant_handlers n ⊆ _descendant_handlers n'.

(** Nodes and loggers stay and only grow, and loggers free of repeated
    handlers stay so. *)
Definition grows : relation World := fun w w' =>
  (∀ y n, nodes w !! y = Some n →
     ∃ n', nodes w' !! y = Some n' ∧ grows_node n n')
  ∧ (∀ name lg, loggers w !! name = Some lg →
       ∃ lg', loggers w' !! name = Some lg'
              ∧ lg_handlers lg ⊆ lg_handlers lg')
  ∧ (loggers_nodup w → loggers_nodup w').

(** ** Text streams *)

(** A text stream that delivers the given characters, one per read, as
    the streams of a [ProcessLogger] or [PtyLogger] do. *)
Definition text_stream (cs : list N) : stream := (fun c => RdStr [c]) <$> cs.

(** The lines of a text: the runs between line feeds, and the unfinished
    rest. *)
Fixpoint text_lines (cs : list N) : list (list N) * list N :=
  match cs with
  | [] => ([], [])
  | c :: cs' =>
    let '(ls, r) := text_lines cs' in
    if decide (c = 10%N) then ([] :: ls, r)
    else match ls with
         | [] => ([], c :: r)
         | l :: ls' => ((c :: l) :: ls', r)
         end
  end.

(** A character that [str.encode('utf-8')] accepts: any code point but a
    surrogate. *)
Definition encodable (c : N) : Prop :=
  (c ≤ 1114111 ∧ ¬ (55296 ≤ c ≤ 57343))%N.

(** ** Text replacement and the formatters (lines 17-84) *)

(** [s.startswith(p)] *)
Fixpoint starts_with (p s : string) : bool :=
  match p, s with
  | EmptyString, _ => true
  | String a p', String b s' => bool_decide (a = b) && starts_with p' s'
  | String _ _, EmptyString => false
  end.

(** [s.replace(old, new)] for a non-empty [old]: the occurrences are found
    from the left and do not overlap.  [skip] counts the characters of the
    occurrence just found that are still to be passed over. *)
Fixpoint replace_go (old new : string) (skip : nat) (s : string) : string :=
  match s with
  | EmptyString => EmptyString
  | String c s' =>
    match skip with
    | S k => replace_go old new k s'
    | O =>
      if starts_with old s
      then new +:+ replace_go old new (String.length old - 1) s'
      else String c (replace_go old new 0 s')
    end
  end.

Definition replace (old new s : string) : string := replace_go old new 0 s.

Fixpoint drop_chars (n : nat) (s : string) : string :=
  match n, s with
  | S k, String _ s' => drop_chars k s'
  | _, _ => s
  end.

(** [s.replace(old, new, 1)] for a non-empty [old]. *)
Fixpoint replace_first (old new s : string) : string :=
  match s with
  | EmptyString => EmptyString
  | String c s' =>
    if starts_with old s then new +:+ drop_chars (String.length old) s
    else String c (replace_first old new s')
  end.

(** [CGAColors], lines 17-18; the value of a member is its place. *)
Inductive CGAColors :=
  BLACK | RED | GREEN | YELLOW | BLUE | MAGENTA | CYAN | WHITE.

#[global] Instance CGAColors_eq_decision : EqDecision CGAColors.
Proof. solve_decision. Defined.

Definition color_name (c : CGAColors) : string :=
  match c with
  | BLACK => "BLACK" | RED => "RED" | GREEN => "GREEN" | YELLOW => "YELLOW"
  | BLUE => "BLUE" | MAGENTA => "MAGENTA" | CYAN => "CYAN" | WHITE => "WHITE"
  end.

Definition color_value (c : CGAColors) : nat :=
  match c with
  | BLACK => 0 | RED => 1 | GREEN => 2 | YELLOW => 3
  | BLUE => 4 | MAGENTA => 5 | CYAN => 6 | WHITE => 7
  end.

(** Iterating over the enumeration gives its members in this order. *)
Definition all_colors : list CGAColors :=
  [BLACK; RED; GREEN; YELLOW; BLUE; MAGENTA; CYAN; WHITE].

Definition esc : ascii := "027"%char.
Definition newline : string := String "010"%char "".

(** Lines 20-22. *)
Definition ANSI_RESET : string := String esc "[0m".
Definition ANSI_COLOR (n : nat) : string := String esc ("[1;" +:+ pretty n +:+ "m").
Definition ANSI_BOLD : string := String esc "[1m".

(** [LEVEL_COLORS.get(levelno, LEVEL_COLORS[NOTSET])], lines 24-31 and 71. *)
Definition level_color (levelno : Z) : CGAColors :=
  if decide (levelno = CRITICAL) then MAGENTA
  else if decide (levelno = ERROR) then RED
  else if decide (levelno = WARNING) then YELLOW
  else if decide (levelno = INFO) then GREEN
  else if decide (levelno = DEBUG) then CYAN
  else BLUE.

(** [formatter_message], lines 33-38.  With [use_color] the function reads
    the names [RESET_SEQ] and [BOLD_SEQ], which the module does not define:
    [None] stands for the [NameError]. *)
Definition formatter_message (message : string) (use_color : bool)
    : option string :=
  if use_color then None
  else Some (replace "$BOLD" "" (replace "$RESET" "" message)).

(** [ColorFormatter.reformat], lines 52-57. *)
Definition reformat (fmt : string) : string :=
  let fmt := foldl (fun fmt color =>
                      replace ("$" +:+ color_name color)
                              (ANSI_COLOR (30 + color_value color)) fmt)
                   fmt all_colors in
  let fmt := replace "$RESET" ANSI_RESET fmt in
  replace "$BOLD" ANSI_BOLD fmt.

(** [ColorFormatter.remove_color], lines 58-65. *)
Definition remove_color (fmt : string) : string :=
  let fmt := foldl (fun fmt color => replace ("$" +:+ color_name color) "" fmt)
                   fmt all_colors in
  let fmt := replace "$RESET" "" fmt in
  let fmt := replace "$BOLD" "" fmt in
  replace "$LEVELCOLOR" "" fmt.

(** [ColorFormatter.format], lines 70-76, applied to a record of level
    [levelno]; [ret] is what the wrapped formatter returned for it. *)
Definition ColorFormatter_format (levelno : Z) (ret : string) : string :=
  let levelcolor := level_color levelno in
  let ret := replace "$LEVELCOLOR" (ANSI_COLOR (30 + color_value levelcolor)) ret in
  let ret := replace_first newline
               (reformat ("$RESET $BOLD$BLUE\$RESET" +:+ newline)) ret in
  replace newline (reformat (newline +:+ "$RESET$BOLD$BLUE> $RESET")) ret.

(** [NonInfoFormatter.format], lines 80-84: [vanilla] and [ret] are what
    the plain formatter and the wrapped formatter return for the record. *)
Definition NonInfoFormatter_format (levelno : Z) (vanilla ret : string) : string :=
  if decide (levelno = INFO) then vanilla else ret.

(** Line 87. *)
Definition DEFAULT_FORMAT : string :=
  "$RESET$LEVELCOLOR$BOLD%(levelname)-8s $BLUE[$RESET$WHITE%(asctime)14s$BLUE$BOLD]$NAME$RESET %(message)s".

(** [_name_format], lines 153-158. *)
Fixpoint _name_format_rec (fuel : nat) (self : nat) : M string :=
  match fuel with
  | O => unfinished
  | S fuel' =>
    n <- get_node self ;;
    r <- match parent n with
         | Some p =>
           pn <- get_node p ;;
           match parent pn with
           | Some _ => _name_format_rec fuel' p
           | None => ret ""
           end
         | None => ret ""
         end ;;
    ret (r +:+ "[$RESET$WHITE" +:+ _logger n +:+ "$BLUE$BOLD]")
  end.

Definition _name_format (self : nat) : M string := fun w =>
  _name_format_rec (length (nodes w)) self w.

(** The format string of the file sink that [save_to_file] makes, line
    211. *)
Definition file_format (self : nat) : M string :=
  name <- _name_format self ;;
  ret (remove_color (replace "$NAME" name DEFAULT_FORMAT)).

(** *** Format strings made of text and markers *)

Inductive marker :=
  | MColor (c : CGAColors)
  | MReset
  | MBold
  | MLevelColor
  | MName.

#[global] Instance marker_eq_decision : EqDecision marker.
Proof. solve_decision. Defined.

Definition marker_text (m : marker) : string :=
  match m with
  | MColor c => "$" +:+ color_name c
  | MReset => "$RESET"
  | MBold => "$BOLD"
  | MLevelColor => "$LEVELCOLOR"
  | MName => "$NAME"
  end.

Inductive token :=
  | Text (s : string)
  | Mark (m : marker).

Fixpoint render (toks : list token) : string :=
  match toks with
  | [] => ""
  | Text s :: toks' => s +:+ render toks'
  | Mark m :: toks' => marker_text m +:+ render toks'
  end.

Fixpoint has_dollar (s : string) : bool :=
  match s with
  | EmptyString => false
  | String c s' => bool_decide (c = "$"%char) || has_dollar s'
  end.

(** The text parts have no dollar sign. *)
Definition plain_texts (toks : list token) : Prop :=
  ∀ s, Text s ∈ toks → has_dollar s = false.

(** Every [m] for which [f] gives a text is replaced by it. *)
Definition substitute (f : marker → option string) (toks : list token)
    : list token :=
  (fun tok => match tok with
              | Mark m => match f m with Some s => Text s | None => Mark m end
              | Text s => Text s
              end) <$> toks.

(** What [reformat] puts in the place of a marker. *)
Definition ansi_of (m : marker) : option string :=
  match m with
  | MColor c => Some (ANSI_COLOR (30 + color_value c))
  | MReset => Some ANSI_RESET
  | MBold => Some ANSI_BOLD
  | _ => None
  end.

(** The markers [remove_color] deletes. *)
Definition colour_marker (m : marker) : option string :=
  match m with
  | MName => None
  | _ => Some ""
  end.

Fixpoint has_newline (s : string) : bool :=
  match s with
  | EmptyString => false
  | String c s' => bool_decide (c = "010"%char) || has_newline s'
  end.

(** [sep.join(lines)] *)
Fixpoint join_with (sep : string) (lines : list string) : string :=
  match lines with
  | [] => ""
  | [l] => l
  | l :: ls => l +:+ sep +:+ join_with sep ls
  end.

(** The text that stands for one logger in a name format, line 158, and
    what is left of it without the markers. *)
Definition name_bracket (name : string) : string :=
  "[$RESET$WHITE" +:+ name +:+ "$BLUE$BOLD]".

Definition plain_bracket (name : string) : string := "[" +:+ name +:+ "]".

Definition concat_strings (l : list string) : string :=
  foldr String.append "" l.

(** The nodes from the root down to [x]. *)
Fixpoint chain_rec (fuel : nat) (w : World) (x : nat) : list nat :=
  match fuel with
  | O => []
  | S fuel' =>
    match nodes w !! x with
    | Some n =>
      match parent n with
      | Some p => chain_rec fuel' w p ++ [x]
      | None => [x]
      end
    | None => []
    end
  end.

Definition chain (w : World) (x : nat) : list nat :=
  chain_rec (length (nodes w)) w x.

(** The same without the root, unless the root is all there is. *)
Definition below_root (l : list nat) : list nat :=
  match l with
  | [r] => [r]
  | _ :: below => below
  | [] => []
  end.

(** [self.name], that is [self._logger.name]. *)
Definition logger_name (w : World) (y : nat) : string :=
  from_option _logger "" (nodes w !! y).

(** [DEFAULT_FORMAT] as text and markers, before and after [$NAME]. *)
Definition default_toks_before : list token :=
  [Mark MReset; Mark MLevelColor; Mark MBold; Text "%(levelname)-8s ";
   Mark (MColor BLUE); Text "["; Mark MReset; Mark (MColor WHITE);
   Text "%(asctime)14s"; Mark (MColor BLUE); Mark MBold; Text "]"].

Definition default_toks_after : list token :=
  [Mark MReset; Text " %(message)s"].

Definition bracket_toks (name : string) : list token :=
  [Text "["; Mark MReset; Mark (MColor WHITE); Text name;
   Mark (MColor BLUE); Mark MBold; Text "]"].

(** What [ColorFormatter.format] puts at the end of the first line of a
    message of several lines, and at the start of each further line. *)
Definition CONT_MARK : string :=
  ANSI_RESET +:+ " " +:+ ANSI_BOLD +:+ ANSI_COLOR 34 +:+ "\" +:+ ANSI_RESET.

Definition CONT_PROMPT : string :=
  newline +:+ ANSI_RESET +:+ ANSI_BOLD +:+ ANSI_COLOR 34 +:+ "> " +:+ ANSI_RESET.

Definition mark_first (a : string) (lines : list string) : list string :=
  match lines with
  | l0 :: l1 :: ls => (l0 +:+ a) :: l1 :: ls
  | _ => lines
  end.

(** The text parts have no line break. *)
Definition one_line (toks : list token) : Prop :=
  ∀ s, Text s ∈ toks → has_newline s = false.

(** The colour of the level in the place of [$LEVELCOLOR]. *)
Definition level_marker (levelno : Z) (m : marker) : option string :=
  match m with
  | MLevelColor => Some (ANSI_COLOR (30 + color_value (level_color levelno)))
  | _ => None
  end.

(** ** More methods of [EthenoLogger] *)

(** [to_log_path], lines 199-204. *)
Definition to_log_path (self : nat) (absolute_path : string) : M string :=
  n <- get_node self ;;
  match _directory n with
  | None => ret absolute_path
  | Some d =>
    w <- get_world ;;
    ret (relpath (cwd w) (realpath (cwd w) absolute_path) (realpath (cwd w) d))
  end.

(** [make_constant_logged_file], lines 191-197.  [contents] is a [str] or a
    [bytes]; a [str] that cannot be encoded raises [UnicodeEncodeError],
    which is a [ValueError].  The file is written and closed, and its
    absolute name returned. *)
Definition make_constant_logged_file (self : nat)
    (contents : list N + list byte) (prefix suffix : pyval)
    (dir : option string) : M string :=
  contents <- match contents with
              | inl s =>
                match UTF8.encode s with
                | Some b => ret b
                | None => raise ValueError
                end
              | inr b => ret b
              end ;;
  path <- make_logged_file self prefix suffix dir ;;
  w <- get_world ;;
  modify (with_fs (insert (path_key (cwd w) path)
                          (File (N.of_nat (length contents))))) ;;
  ret (realpath (cwd w) path).

(** Lines that are text and markers, put together with line breaks. *)
Fixpoint lines_toks (lines : list (list token)) : list token :=
  match lines with
  | [] => []
  | [l] => l
  | l :: ls => l ++ Text newline :: lines_toks ls
  end.


(** * Properties of the stream tailer *)

Section tailer_facts.

Implicit Types (t : StreamLogger) (s : stream) (bs buf : list byte).

Lemma lines_of_count d bs :
  length (lines_of d bs).1 = count_occ Byte.byte_eq_dec bs d.
Proof.
  induction bs as [|b bs IH]; [done|].
  simpl. destruct (lines_of d bs) as [ls r]. simpl in IH.
  destruct (decide (b = d)) as [->|Hne]; simpl.
  - destruct (Byte.byte_eq_dec d d); [by rewrite IH | done].
  - destruct (Byte.byte_eq_dec b d); [done|].
    rewrite <- IH. by destruct ls.
Qed.

Lemma lines_of_no_delimiter d bs :
  Forall (fun l => d ∉ l) (lines_of d bs).1 ∧ d ∉ (lines_of d bs).2.
Proof.
  induction bs as [|b bs [IH1 IH2]]; simpl.
  - split; [constructor | apply not_elem_of_nil].
  - destruct (lines_of d bs) as [ls r]. simpl in *.
    destruct (decide (b = d)) as [->|Hne]; simpl.
    + split; [constructor; [apply not_elem_of_nil | done] | done].
    + destruct ls as [|l ls]; simpl.
      * split; [constructor|]. rewrite not_elem_of_cons. by split.
      * apply Forall_cons in IH1 as [Hl Hls]. split; [|done].
        constructor; [|done]. rewrite not_elem_of_cons. by split.
Qed.

Lemma lines_of_concat d bs :
  mjoin ((fun l => l ++ [d]) <$> (lines_of d bs).1) ++ (lines_of d bs).2 = bs.
Proof.
  induction bs as [|b bs IH]; [done|].
  simpl. destruct (lines_of d bs) as [ls r]. simpl in IH.
  destruct (decide (b = d)) as [->|Hne]; simpl.
  - f_equal. exact IH.
  - destruct ls as [|l ls]; simpl in *; f_equal; exact IH.
Qed.

(** Draining a stream of single bytes, from any buffer. *)
Lemma drain_lines d bs : ∀ buf out got,
  match (lines_of d bs).1 with
  | [] =>
    drain [d] (bytes_stream bs) buf out got
    = mkDrained false [] (buf ++ (lines_of d bs).2) out
                (got || bool_decide (bs ≠ []))
  | l :: ls => ∀ msgs,
    mapM UTF8.decode ((buf ++ l) :: ls) = Some msgs →
    drain [d] (bytes_stream bs) buf out got
    = mkDrained false [] (lines_of d bs).2 (out ++ info_records msgs) true
  end.
Proof.
  induction bs as [|b bs IH]; intros buf out got.
  - simpl. by rewrite app_nil_r, orb_false_r.
  - cbn [lines_of]. destruct (lines_of d bs) as [ls r] eqn:Hl.
    cbn [bytes_stream fmap list_fmap drain feed]. fold (bytes_stream bs).
    destruct (decide (b = d)) as [->|Hne].
    + rewrite decide_True by done. cbn [fst snd].
      intros msgs Hm. rewrite app_nil_r in Hm.
      cbn [mapM] in Hm. destruct (UTF8.decode buf) as [m|]; [|done].
      cbn in Hm. destruct (mapM UTF8.decode ls) as [ms|] eqn:Hms; [|done].
      cbn in Hm. injection Hm as <-. cbn.
      specialize (IH [] (log out m) true). cbn [fst snd] in IH.
      destruct ls as [|l ls].
      * rewrite IH. cbn in Hms. injection Hms as <-. done.
      * rewrite (IH ms Hms). unfold log, info_records.
        by rewrite <- app_assoc.
    + rewrite decide_False by congruence. cbn [fst snd].
      specialize (IH (buf ++ [b]) out true). cbn [fst snd] in IH.
      destruct ls as [|l ls].
      * rewrite IH, <- app_assoc. cbn. f_equal.
        rewrite ?bool_decide_true by done. by destruct got.
      * intros msgs Hm. apply IH. by rewrite <- app_assoc.
Qed.

(** A chunk that is not the delimiter only grows the buffer. *)
Lemma drain_decode_failure nl chunks rest : ∀ buf out got,
  nl ≠ [] →
  Forall (fun c => c ≠ [] ∧ c ≠ nl) chunks →
  UTF8.decode (buf ++ mjoin chunks) = None →
  drain nl ((RdBytes <$> chunks) ++ RdBytes nl :: rest) buf out got
  = mkDrained true rest (buf ++ mjoin chunks) out
              (got || bool_decide (chunks ≠ [])).
Proof.
  intros buf out got Hnl Hc. revert buf got.
  induction Hc as [|c chunks [Hc1 Hc2] _ IH]; intros buf got Hdec.
  - cbn. rewrite app_nil_r in *. destruct nl as [|n nl]; [done|].
    cbn. rewrite decide_True by done. rewrite Hdec. cbn.
    by rewrite orb_false_r.
  - cbn [fmap list_fmap app drain]. destruct c as [|c0 c]; [done|].
    cbn [feed]. rewrite decide_False by done.
    fold (@fmap list _ _ _ RdBytes chunks).
    rewrite (IH (buf ++ c0 :: c) true).
    + cbn [mjoin list_join]. rewrite <- app_assoc. f_equal.
      rewrite ?bool_decide_true by done. by destruct got.
    + cbn [mjoin list_join] in Hdec. by rewrite <- app_assoc.
Qed.

(** Reads are consumed, never added; a pass that got a byte consumed one. *)
Lemma drain_consumes nl s : ∀ buf out got,
  let d := drain nl s buf out got in
  (length (d_stream d) ≤ length s ∧
   (d_got_byte d = got ∨
    (d_got_byte d = true ∧ length (d_stream d) < length s)))%nat.
Proof.
  induction s as [|r s IH]; intros buf out got; cbn zeta.
  - cbn. split; [lia | by left].
  - assert (Hchunk : ∀ b,
      let d := match feed nl (buf, out) b with
               | Some (buf', out') => drain nl s buf' out' true
               | None => mkDrained true s buf out got
               end in
      (length (d_stream d) ≤ S (length s) ∧
       (d_got_byte d = got ∨
        (d_got_byte d = true ∧ length (d_stream d) < S (length s))))%nat).
    { intros b. cbn zeta. destruct (feed nl (buf, out) b) as [[buf' out']|].
      - destruct (IH buf' out' true) as [H1 [H2|[H2 H3]]].
        + split; [lia|]. right. split; [done | lia].
        + split; [lia|]. right. split; [done | lia].
      - cbn. split; [lia | by left]. }
    destruct r as [|b|c|]; cbn [drain length].
    + cbn. split; [lia | by left].
    + destruct b; [cbn; split; [lia | by left] | apply Hchunk].
    + destruct c; [cbn; split; [lia | by left] |].
      destruct (UTF8.encode _); [apply Hchunk | cbn; split; [lia | by left]].
    + cbn. split; [lia | by left].
Qed.

Lemma sum_length_insert (l : list stream) i s s' :
  l !! i = Some s →
  (sum_list (length <$> <[i := s']> l) + length s
   = sum_list (length <$> l) + length s')%nat.
Proof.
  revert i. induction l as [|x l IH]; intros [|i] H; try done.
  - cbn in H. injection H as ->. cbn. clear IH.
    generalize (sum_list (length <$> l)). intros; lia.
  - cbn in H. cbn. specialize (IH i H).
    rewrite <- !Nat.add_assoc. f_equal. exact IH.
Qed.

Lemma for_streams_consumes idx : ∀ t got t' got' raised,
  for_streams idx t got = (t', got', raised) →
  (pending t' ≤ pending t ∧
   (got' = got ∨ (got' = true ∧ pending t' < pending t)))%nat.
Proof.
  induction idx as [|i idx IH]; intros t got t' got' raised H; cbn in H.
  - injection H as <- <- <-. split; [lia | by left].
  - destruct (streams t !! i) as [s|] eqn:Hs;
      [|injection H as <- <- <-; split; [lia | by left]].
    destruct (_buffers t !! i) as [buf|];
      [|injection H as <- <- <-; split; [lia | by left]].
    pose proof (drain_consumes (_newline_char t) s buf (logger t) got) as Hd.
    cbn zeta in Hd.
    set (d := drain (_newline_char t) s buf (logger t) got) in *.
    pose proof (sum_length_insert (streams t) i s (d_stream d) Hs) as Hsum.
    assert (Hp : (pending (with_stream t i d) + length s
                  = pending t + length (d_stream d))%nat) by exact Hsum.
    destruct Hd as [Hd1 Hd2].
    destruct (d_raised d).
    + injection H as <- <- <-. split; [lia|].
      destruct Hd2 as [?|[? ?]]; [by left | right; split; [done | lia]].
    + apply IH in H as [H1 H2]. split; [lia|].
      destruct H2 as [->|[-> H2]].
      * destruct Hd2 as [?|[? ?]]; [by left | right; split; [done | lia]].
      * right. split; [done | lia].
Qed.

Lemma pass_consumes t t' :
  pass t = (t', true) → (pending t' < pending t)%nat.
Proof.
  unfold pass.
  destruct (for_streams _ t false) as [[t1 got] raised] eqn:H.
  intros Hp. apply for_streams_consumes in H as [H1 H2].
  assert (got = true) as -> by (by injection Hp).
  assert (pending t' = pending t1) as ->.
  { injection Hp as <-. by destruct raised. }
  destruct H2 as [?|[_ ?]]; [done | lia].
Qed.

(** The inner loop always comes to an end. *)
Lemma poll_loop_total n : ∀ t,
  (pending t < n)%nat → is_Some (poll_loop n t).
Proof.
  induction n as [|n IH]; intros t Hn; [lia|].
  cbn. destruct (pass t) as [t' got] eqn:Hp.
  destruct got; cbn.
  - destruct (_done t'); [by eexists|].
    apply IH. apply pass_consumes in Hp. lia.
  - by eexists.
Qed.

(** A tailer that reads its own flag stops right after the pass that set it. *)
Lemma run_stops_when_marked t t' got n :
  cls t = StreamLoggerC → _done t = false →
  pass t = (t', got) → _done t' = true → cls t' = StreamLoggerC →
  run (S (S n)) t = Some t'.
Proof.
  intros Hc Hd Hp Hd' Hc'.
  cbn [run]. unfold is_done at 1. rewrite Hc, Hd.
  cbn [poll_loop]. rewrite Hp, Hd', orb_true_r. cbn.
  unfold is_done. by rewrite Hc', Hd'.
Qed.

(** Whatever is read, the logger only ever gets INFO records. *)
Lemma drain_logs_info nl s : ∀ buf out got,
  ∃ msgs, d_logger (drain nl s buf out got) = out ++ info_records msgs.
Proof.
  induction s as [|r s IH]; intros buf out got.
  - exists []. cbn. by rewrite app_nil_r.
  - assert (Hchunk : ∀ b, ∃ msgs,
      d_logger (match feed nl (buf, out) b with
                | Some (buf', out') => drain nl s buf' out' true
                | None => mkDrained true s buf out got
                end) = out ++ info_records msgs).
    { intros b. unfold feed. destruct (decide (b = nl)).
      - destruct (UTF8.decode buf) as [m|]; cbn.
        + destruct (IH [] (log out m) true) as [msgs ->].
          exists (m :: msgs). unfold log, info_records. cbn.
          by rewrite <- app_assoc.
        + exists []. by rewrite app_nil_r.
      - apply IH. }
    destruct r as [|b|c|]; cbn [drain].
    + exists []. cbn. by rewrite app_nil_r.
    + destruct b; [exists []; cbn; by rewrite app_nil_r | apply Hchunk].
    + destruct c; [exists []; cbn; by rewrite app_nil_r |].
      destruct (UTF8.encode _); [apply Hchunk|].
      exists []. cbn. by rewrite app_nil_r.
    + exists []. cbn. by rewrite app_nil_r.
Qed.

Lemma for_streams_logs_info idx : ∀ t got,
  ∃ msgs, logger (for_streams idx t got).1.1 = logger t ++ info_records msgs.
Proof.
  induction idx as [|i idx IH]; intros t got; cbn [for_streams].
  - exists []. cbn. by rewrite app_nil_r.
  - destruct (streams t !! i) as [s|]; [|exists []; cbn; by rewrite app_nil_r].
    destruct (_buffers t !! i) as [buf|]; [|exists []; cbn; by rewrite app_nil_r].
    destruct (drain_logs_info (_newline_char t) s buf (logger t) got)
      as [msgs Hm].
    destruct (d_raised _).
    + exists msgs. exact Hm.
    + destruct (IH (with_stream t i (drain (_newline_char t) s buf (logger t) got))
                  (d_got_byte (drain (_newline_char t) s buf (logger t) got)))
        as [msgs' Hm'].
      exists (msgs ++ msgs'). rewrite Hm'. cbn [logger with_stream].
      rewrite Hm. unfold info_records. by rewrite fmap_app, app_assoc.
Qed.

Lemma pass_logs_info t :
  ∃ msgs, logger (pass t).1 = logger t ++ info_records msgs.
Proof.
  unfold pass.
  destruct (for_streams_logs_info (seq 0 (length (streams t))) t false)
    as [msgs Hm].
  destruct (for_streams _ t false) as [[t' got] raised]. cbn in *.
  exists msgs. by destruct raised.
Qed.

End tailer_facts.

(** * The tailer: claims *)




(** C3, as the code has it.  When the bytes gathered for a line do not
    decode, the pass in which the delimiter is read ends there: the tailer is
    marked done, nothing is given to the logger, the buffer keeps all its
    bytes, and no exception leaves the loop.  A tailer whose [is_done] reads
    the mark then stops without another read.  And in no pass of any tailer
    does the logger get anything but INFO records. *)
Theorem decode_failure_marks_done (t : StreamLogger)
    (chunks : list (list byte)) (rest : stream) (others : list stream)
    (buf : list byte) :
  streams t = ((RdBytes <$> chunks) ++ RdBytes (_newline_char t) :: rest) :: others →
  _buffers t !! 0%nat = Some buf →
  _newline_char t ≠ [] →
  Forall (fun c => c ≠ [] ∧ c ≠ _newline_char t) chunks →
  UTF8.decode (buf ++ mjoin chunks) = None →
  ∃ t', pass t = (t', bool_decide (chunks ≠ []))
        ∧ _done t' = true
        ∧ logger t' = logger t
        ∧ _buffers t' = <[0%nat := buf ++ mjoin chunks]> (_buffers t)
        ∧ streams t' = rest :: others
        ∧ (cls t = StreamLoggerC → _done t = false →
           ∀ n, run (S (S n)) t = Some t')
        ∧ (∀ t0, ∃ msgs, logger (pass t0).1 = logger t0 ++ info_records msgs).
Proof.
  intros Hs Hb Hnl Hc Hdec.
  pose proof (drain_decode_failure (_newline_char t) chunks rest buf
                (logger t) false Hnl Hc Hdec) as Hd.
  assert (Hp : pass t
               = (set_done (with_stream t 0
                    (mkDrained true rest (buf ++ mjoin chunks) (logger t)
                       (false || bool_decide (chunks ≠ [])))),
                  bool_decide (chunks ≠ []))).
  { destruct t as [c lg ss nl bufs dn al]. cbn in *. subst ss.
    destruct bufs as [|b0 bufs]; [done|]. cbn in Hb. injection Hb as ->.
    unfold pass. cbn -[drain bool_decide]. rewrite Hd. reflexivity. }
  eexists. split; [exact Hp|].
  cbn. rewrite Hs. cbn. repeat split.
  - intros Hcls Hdone n.
    eapply run_stops_when_marked; [done | done | exact Hp | done | done].
  - apply pass_logs_info.
Qed.

Lemma decode_failure_marks_done_witness :
  ∃ t', run 2 tailer_one_bad_line = Some t' ∧ logger t' = [] ∧ _done t' = true.
Proof.
  destruct (decode_failure_marks_done tailer_one_bad_line [[xff]] [] [] [])
    as (t' & _ & Hd & Hl & _ & _ & Hrun & _).
  - reflexivity.
  - reflexivity.
  - discriminate.
  - repeat constructor; discriminate.
  - vm_compute; reflexivity.
  - exists t'. split; [apply Hrun; reflexivity|]. split; [exact Hl | exact Hd].
Defined.

(** C3 fails on the code: after an undecodable line the tailer stops, with
    the rest of the stream unread, and the logger has received nothing, in
    particular no warning. *)
Lemma decode_failure_ends_tailer :
  ∃ t', run 2 tailer_bad_utf8 = Some t'
        ∧ _done t' = true
        ∧ logger t' = []
        ∧ streams t' = [bytes_stream [x6f; x6b; x0a]].
Proof. eexists. split; [vm_compute; reflexivity|]. repeat split. Qed.

(** C7 at the failing input: the second stream of a [ProcessLogger] raises
    in the first pass, which marks the tailer done; the process is still
    alive, so [run] goes on and logs the line that arrives later.  A plain
    [StreamLogger] with the same streams stops after the first pass. *)
Lemma process_tailer_reads_after_exception :
  _done (pass tailer_process).1 = true
  ∧ logger (pass tailer_process).1 = [(INFO, [120%N])]
  ∧ (∃ t', run 3 tailer_process = Some t'
           ∧ logger t' = [(INFO, [120%N]); (INFO, [121%N])])
  ∧ (∃ t', run 3 tailer_plain = Some t'
           ∧ logger t' = [(INFO, [120%N])]).
Proof.
  split; [vm_compute; reflexivity|].
  split; [vm_compute; reflexivity|].
  split; eexists; (split; [vm_compute; reflexivity | reflexivity]).
Qed.

(** * Reasoning about computations on the world *)

Section computations.

Context {A B : Type}.

Lemma bind_Return (m : M A) (k : A → M B) w b w2 :
  bind m k w = (Return b, w2) →
  ∃ a w1, m w = (Return a, w1) ∧ k a w1 = (Return b, w2).
Proof.
  unfold bind. destruct (m w) as [[a|e|] w1]; intros H; try discriminate.
  by exists a, w1.
Qed.

Lemma bind_outcome (m : M A) (k : A → M B) w o w2 :
  bind m k w = (o, w2) →
  (∃ a w1, m w = (Return a, w1) ∧ k a w1 = (o, w2))
  ∨ (∃ e, m w = (Raise e, w2) ∧ o = Raise e)
  ∨ (m w = (Unfinished, w2) ∧ o = Unfinished).
Proof.
  unfold bind. destruct (m w) as [[a|e|] w1]; intros H.
  - left. by exists a, w1.
  - right. left. exists e. by injection H as <- <-.
  - right. right. by injection H as <- <-.
Qed.

Lemma bind_step (m : M A) (k : A → M B) w a w1 :
  m w = (Return a, w1) → bind m k w = k a w1.
Proof. intros H. unfold bind. by rewrite H. Qed.

End computations.

Section follows.

Context (R : relation World) `{!PreOrder R}.

Lemma follows_ret {A} (a : A) : follows R (ret a).
Proof. intros w. reflexivity. Qed.

Lemma follows_raise {A} e : follows R (@raise A e).
Proof. intros w. reflexivity. Qed.

Lemma follows_unfinished {A} : follows R (@unfinished A).
Proof. intros w. reflexivity. Qed.

Lemma follows_get_world : follows R get_world.
Proof. intros w. reflexivity. Qed.

Lemma follows_get_node x : follows R (get_node x).
Proof. intros w. unfold get_node. destruct (nodes w !! x); reflexivity. Qed.

Lemma follows_get_handler h : follows R (get_handler h).
Proof. intros w. unfold get_handler. destruct (handlers w !! h); reflexivity. Qed.

Lemma follows_bind {A B} (m : M A) (k : A → M B) :
  follows R m → (∀ a, follows R (k a)) → follows R (bind m k).
Proof.
  intros Hm Hk w. unfold bind. specialize (Hm w).
  destruct (m w) as [[a|e|] w1]; cbn in *; [|done..].
  etrans; [exact Hm | apply Hk].
Qed.

Lemma follows_for_each {A} (l : list A) (body : A → M unit) :
  (∀ x, follows R (body x)) → follows R (for_each l body).
Proof.
  intros Hb. induction l as [|x l IH]; cbn [for_each].
  - apply follows_ret.
  - apply follows_bind; [apply Hb | intros _; apply IH].
Qed.

Lemma follows_modify f : (∀ w, R w (f w)) → follows R (modify f).
Proof. intros H w. apply H. Qed.

Lemma follows_if {A} (b : bool) (m1 m2 : M A) :
  follows R m1 → follows R m2 → follows R (if b then m1 else m2).
Proof. by destruct b. Qed.

Lemma follows_decide {A} (P : Prop) `{!Decision P} (m1 m2 : M A) :
  follows R m1 → follows R m2 → follows R (if decide P then m1 else m2).
Proof. by destruct (decide P). Qed.

End follows.

Create HintDb follows.
#[global] Hint Resolve follows_ret follows_raise follows_unfinished
  follows_get_world follows_get_node follows_get_handler : follows.

(** * Which operations touch the own threshold of a node *)

#[global] Hint Extern 1 (PreOrder _) => tc_solve : follows.

Ltac follows_step :=
  lazymatch goal with
  | |- follows _ (bind _ _) => apply follows_bind; [tc_solve| |intros ?]
  | |- follows _ (for_each _ _) => apply follows_for_each; [tc_solve|intros ?]
  | |- follows _ (if decide _ then _ else _) => apply follows_decide
  | |- follows _ (if ?b then _ else _) => destruct b
  | |- follows _ (match ?x with _ => _ end) => destruct x
  | |- follows _ _ => solve [eauto with follows]
  end.

Ltac follows_auto := repeat follows_step.

#[global] Instance same_levels_preorder : PreOrder same_levels.
Proof.
  split.
  - intros w. reflexivity.
  - intros w1 w2 w3 H1 H2. unfold same_levels in *. congruence.
Qed.

Lemma fmap_alter_same {X Y} (f : X → Y) (g : X → X) i (l : list X) :
  (∀ x, f (g x) = f x) → f <$> alter g i l = f <$> l.
Proof.
  intros H. revert i. induction l as [|x l IH]; intros [|i]; cbn; try done.
  - by rewrite H.
  - f_equal. apply IH.
Qed.

Lemma log_level_rec_world fuel x w : (log_level_rec fuel x w).2 = w.
Proof.
  revert x. induction fuel as [|fuel IH]; intros x; [done|].
  cbn. unfold bind, get_node. destruct (nodes w !! x) as [n|]; [|done].
  destruct (_log_level n); try done.
  destruct (parent n); [apply IH | done].
Qed.

Lemma log_level_world x w : (log_level x w).2 = w.
Proof. apply log_level_rec_world. Qed.

Section any_order.

Context (R : relation World) `{!PreOrder R}.

Lemma follows_log_level x : follows R (log_level x).
Proof. intros w. rewrite log_level_world. reflexivity. Qed.

End any_order.

#[global] Hint Resolve follows_log_level : follows.


Lemma upd_node_levels x f :
  (∀ n, _log_level (f n) = _log_level n) → follows same_levels (upd_node x f).
Proof.
  intros H w. unfold same_levels, levels, upd_node, modify. cbn.
  by apply fmap_alter_same.
Qed.

Lemma Handler_setLevel_levels h v : follows same_levels (Handler_setLevel h v).
Proof. unfold Handler_setLevel. destruct (checkLevel v); by intros w. Qed.

Lemma Handler_close_levels h : follows same_levels (Handler_close h).
Proof. by intros w. Qed.

Lemma StreamHandler_levels : follows same_levels StreamHandler.
Proof. by intros w. Qed.

Lemma FileHandler_levels p : follows same_levels (FileHandler p).
Proof. by intros w. Qed.

Lemma getLogger_levels name : follows same_levels (getLogger name).
Proof. intros w. unfold getLogger. by destruct (loggers w !! _). Qed.

Lemma Logger_setLevel_levels lg v : follows same_levels (Logger_setLevel lg v).
Proof. unfold Logger_setLevel. destruct (checkLevel v); by intros w. Qed.

Lemma Logger_addHandler_levels lg h : follows same_levels (Logger_addHandler lg h).
Proof. by intros w. Qed.

Lemma TemporaryDirectory_levels : follows same_levels TemporaryDirectory.
Proof. by intros w. Qed.

Lemma with_fs_levels f : follows same_levels (modify (with_fs f)).
Proof. by intros w. Qed.

#[global] Hint Resolve Handler_setLevel_levels Handler_close_levels StreamHandler_levels
  FileHandler_levels getLogger_levels Logger_setLevel_levels
  Logger_addHandler_levels TemporaryDirectory_levels with_fs_levels : follows.

Lemma addHandler_rec_levels fuel : ∀ self h incl setl,
  follows same_levels (addHandler_rec fuel self h incl setl).
Proof.
  induction fuel as [|fuel IH]; intros self h incl setl; cbn [addHandler_rec].
  - follows_auto.
  - follows_auto; try (by apply upd_node_levels); try apply IH.
Qed.

Lemma addHandler_levels self h incl setl :
  follows same_levels (addHandler self h incl setl).
Proof. intros w. apply addHandler_rec_levels. Qed.

#[global] Hint Resolve addHandler_levels : follows.

Lemma save_to_file_levels self path incl v :
  follows same_levels (save_to_file self path incl v).
Proof. unfold save_to_file. follows_auto. Qed.

#[global] Hint Resolve save_to_file_levels : follows.

Lemma save_to_directory_rec_levels fuel : ∀ self path,
  follows same_levels (save_to_directory_rec fuel self path).
Proof.
  induction fuel as [|fuel IH]; intros self path;
    cbn [save_to_directory_rec].
  - follows_auto.
  - follows_auto; try (by apply upd_node_levels); try apply IH.
Qed.

Lemma save_to_directory_levels self path :
  follows same_levels (save_to_directory self path).
Proof. intros w. apply save_to_directory_rec_levels. Qed.

#[global] Hint Resolve save_to_directory_levels : follows.

Lemma add_child_loop_levels fuel : ∀ self child p,
  follows same_levels (add_child_loop fuel self child p).
Proof.
  induction fuel as [|fuel IH]; intros self child [p|];
    cbn [add_child_loop]; follows_auto; try apply IH.
Qed.

Lemma _add_child_levels self child :
  follows same_levels (_add_child self child).
Proof.
  unfold _add_child. follows_auto; try (by apply upd_node_levels).
  all: intros w'; apply add_child_loop_levels.
Qed.


#[global] Hint Resolve _add_child_levels upd_node_levels : follows.

(** * When [addHandler] and the constructor return *)

Lemma follows_outcome {A} (R : relation World) (m : M A) w o w1 :
  follows R m → m w = (o, w1) → R w w1.
Proof. intros H E. specialize (H w). by rewrite E in H. Qed.

Lemma get_node_Return x w n w1 :
  get_node x w = (Return n, w1) → w1 = w ∧ nodes w !! x = Some n.
Proof.
  unfold get_node. destruct (nodes w !! x) as [n0|]; intros H; [|discriminate].
  by injection H as <- <-.
Qed.

Lemma for_each_returns {A} (I : World → Prop) (l : list A) (body : A → M unit) :
  (∀ a w, a ∈ l → I w → ∃ w', body a w = (Return tt, w') ∧ I w') →
  ∀ w, I w → ∃ w', for_each l body w = (Return tt, w') ∧ I w'.
Proof.
  induction l as [|a l IH]; intros Hb w Hw; cbn [for_each].
  - by exists w.
  - destruct (Hb a w) as (w1 & H1 & I1); [constructor | done |].
    rewrite (bind_step _ _ _ _ _ H1).
    apply IH; [|done]. intros b w2 Hb2. apply Hb. by constructor.
Qed.

#[global] Instance same_skeleton_preorder : PreOrder same_skeleton.
Proof.
  split.
  - intros w. reflexivity.
  - intros w1 w2 w3 H1 H2. unfold same_skeleton in *. congruence.
Qed.

Lemma same_skeleton_length w w' :
  same_skeleton w w' → length (nodes w') = length (nodes w).
Proof. intros H. apply (f_equal length) in H. by rewrite !length_fmap in H. Qed.

Lemma same_skeleton_lookup w w' x n :
  same_skeleton w w' → nodes w !! x = Some n →
  ∃ n', nodes w' !! x = Some n' ∧ skeleton n' = skeleton n.
Proof.
  intros H Hn. apply (f_equal (.!! x)) in H.
  rewrite !list_lookup_fmap, Hn in H.
  destruct (nodes w' !! x) as [n'|]; [|done].
  exists n'. split; [done|]. cbn in H. congruence.
Qed.

Lemma sound_skeleton w w' : same_skeleton w w' → sound w → sound w'.
Proof.
  intros H Hs x n' Hn'.
  destruct (same_skeleton_lookup w' w x n' (eq_sym H) Hn') as (n & Hn & Hsk).
  specialize (Hs x n Hn). unfold node_sound in *.
  rewrite (same_skeleton_length _ _ H).
  unfold skeleton in Hsk. injection Hsk as <- <- <-. exact Hs.
Qed.

Lemma upd_node_skeleton x f :
  (∀ n, skeleton (f n) = skeleton n) → follows same_skeleton (upd_node x f).
Proof.
  intros H w. unfold same_skeleton, upd_node, modify. cbn.
  by apply fmap_alter_same.
Qed.

Lemma Handler_setLevel_skeleton h v : follows same_skeleton (Handler_setLevel h v).
Proof. unfold Handler_setLevel. destruct (checkLevel v); by intros w. Qed.

Lemma StreamHandler_skeleton : follows same_skeleton StreamHandler.
Proof. by intros w. Qed.

Lemma FileHandler_skeleton p : follows same_skeleton (FileHandler p).
Proof. by intros w. Qed.

Lemma getLogger_skeleton name : follows same_skeleton (getLogger name).
Proof. intros w. unfold getLogger. by destruct (loggers w !! _). Qed.

Lemma Logger_setLevel_skeleton lg v : follows same_skeleton (Logger_setLevel lg v).
Proof. unfold Logger_setLevel. destruct (checkLevel v); by intros w. Qed.

Lemma Logger_addHandler_skeleton lg h :
  follows same_skeleton (Logger_addHandler lg h).
Proof. by intros w. Qed.

Lemma with_fs_skeleton f : follows same_skeleton (modify (with_fs f)).
Proof. by intros w. Qed.

#[global] Hint Resolve Handler_setLevel_skeleton StreamHandler_skeleton
  FileHandler_skeleton getLogger_skeleton Logger_setLevel_skeleton
  Logger_addHandler_skeleton with_fs_skeleton : follows.

#[global] Hint Extern 2 (follows same_skeleton (upd_node _ _)) =>
  apply upd_node_skeleton; intros ?; reflexivity : follows.

Lemma addHandler_rec_skeleton fuel : ∀ self h incl setl,
  follows same_skeleton (addHandler_rec fuel self h incl setl).
Proof.
  induction fuel as [|fuel IH]; intros self h incl setl; cbn [addHandler_rec].
  - follows_auto.
  - follows_auto; try apply IH.
Qed.

Lemma addHandler_skeleton self h incl setl :
  follows same_skeleton (addHandler self h incl setl).
Proof. intros w. apply addHandler_rec_skeleton. Qed.

#[global] Hint Resolve addHandler_skeleton : follows.

Lemma save_to_file_skeleton self path incl v :
  follows same_skeleton (save_to_file self path incl v).
Proof. unfold save_to_file. follows_auto. Qed.

#[global] Hint Resolve save_to_file_skeleton : follows.

Lemma save_to_directory_rec_skeleton fuel : ∀ self path,
  follows same_skeleton (save_to_directory_rec fuel self path).
Proof.
  induction fuel as [|fuel IH]; intros self path;
    cbn [save_to_directory_rec].
  - follows_auto.
  - follows_auto; try apply IH.
Qed.

Lemma save_to_directory_skeleton self path :
  follows same_skeleton (save_to_directory self path).
Proof. intros w. apply save_to_directory_rec_skeleton. Qed.

#[global] Hint Resolve save_to_directory_skeleton : follows.

Lemma add_child_loop_skeleton fuel : ∀ self child p,
  follows same_skeleton (add_child_loop fuel self child p).
Proof.
  induction fuel as [|fuel IH]; intros self child [p|];
    cbn [add_child_loop]; follows_auto; try apply IH.
Qed.

(** A node with a number as its own threshold reports it. *)
Lemma log_level_number x n z w :
  nodes w !! x = Some n → _log_level n = PInt z →
  log_level x w = (Return (PInt z), w).
Proof.
  intros Hn Hz. unfold log_level.
  pose proof (lookup_lt_Some _ _ _ Hn) as Hlt.
  destruct (length (nodes w)) as [|k]; [lia|].
  cbn [log_level_rec]. unfold bind, get_node. by rewrite Hn, Hz.
Qed.

Lemma get_node_step {B} x n (k : EthenoLogger → M B) w :
  nodes w !! x = Some n → bind (get_node x) k w = k n w.
Proof. intros Hn. unfold bind, get_node. by rewrite Hn. Qed.

(** The part of [addHandler] for the node itself (lines 161-166) returns;
    what is left is the loop over the children. *)
Lemma addHandler_rec_step fuel x h incl s w n :
  nodes w !! x = Some n →
  (s = true → ∃ z, _log_level n = PInt z) →
  ∃ w4 n4,
    same_skeleton w w4 ∧ nodes w4 !! x = Some n4
    ∧ addHandler_rec (S fuel) x h incl s w
      = (if incl
         then for_each (children n4)
                (fun child => addHandler_rec fuel child h incl s)
         else ret tt) w4.
Proof.
  intros Hn Hlv. cbn [addHandler_rec].
  assert (H1 : ∃ w1, (if s then level <- log_level x ;; Handler_setLevel h level
                      else ret tt) w = (Return tt, w1)
                     ∧ nodes w1 = nodes w).
  { destruct s.
    - destruct Hlv as [z Hz]; [done|].
      rewrite (bind_step _ _ _ _ _ (log_level_number _ _ _ _ Hn Hz)).
      by eexists.
    - by eexists. }
  destruct H1 as (w1 & H1 & N1).
  rewrite (bind_step _ _ _ _ _ H1).
  rewrite (get_node_step x n) by (by rewrite N1).
  erewrite bind_step by reflexivity.
  erewrite bind_step by reflexivity.
  destruct incl.
  - erewrite bind_step by reflexivity.
    match goal with
    | |- ∃ _ _, _ ∧ _ ∧ bind _ _ ?w = _ => set (w4 := w)
    end.
    assert (N4 : nodes w4 !! x
                 = Some (set_descendant_handlers (_descendant_handlers n ++ [h])
                           (set_handlers (_handlers n ++ [h]) n))).
    { unfold w4. cbn. rewrite !list_lookup_alter_eq, N1, Hn. reflexivity. }
    eexists w4, _. split; [|split; [exact N4|]].
    + unfold same_skeleton, w4. cbn.
      rewrite !fmap_alter_same by (intros ?; reflexivity). by rewrite N1.
    + by rewrite (get_node_step x _ _ _ N4).
  - match goal with
    | |- ∃ _ _, _ ∧ _ ∧ ret tt ?w = _ => set (w4 := w)
    end.
    eexists w4, _. split; [|split; [|reflexivity]].
    + unfold same_skeleton, w4. cbn.
      rewrite !fmap_alter_same by (intros ?; reflexivity). by rewrite N1.
    + unfold w4. cbn. rewrite !list_lookup_alter_eq, N1, Hn. reflexivity.
Qed.

(** In a sound tree [addHandler] returns. *)
Lemma addHandler_rec_returns w0 h incl s :
  sound w0 →
  ∀ fuel x w,
    same_skeleton w0 w → (x < length (nodes w0))%nat →
    (length (nodes w0) - x ≤ fuel)%nat →
    ∃ w', addHandler_rec fuel x h incl s w = (Return tt, w')
          ∧ same_skeleton w0 w'.
Proof.
  intros Hs. induction fuel as [|fuel IH]; intros x w Hsk Hx Hf; [lia|].
  destruct (lookup_lt_is_Some_2 (nodes w0) x Hx) as [n0 Hn0].
  destruct (same_skeleton_lookup _ _ _ _ Hsk Hn0) as (n & Hn & Hskn).
  destruct (Hs x n0 Hn0) as (Hkids & _ & z & Hz & _).
  unfold skeleton in Hskn. injection Hskn as Hp Hc Hl.
  destruct (addHandler_rec_step fuel x h incl s w n Hn)
    as (w4 & n4 & Hsk4 & Hn4 & Heq).
  { intros _. exists z. congruence. }
  rewrite Heq.
  assert (Hsk04 : same_skeleton w0 w4) by (by etrans).
  destruct incl; [|by exists w4].
  apply for_each_returns; [|done].
  intros c w1 Hc1 Hw1. apply IH; [done| |].
  - destruct (same_skeleton_lookup _ _ _ _ Hsk04 Hn0) as (n4' & Hn4' & Hsk4').
    assert (n4' = n4) as -> by congruence.
    unfold skeleton in Hsk4'. injection Hsk4' as _ Hc4 _.
    rewrite Hc4 in Hc1. rewrite Forall_forall in Hkids.
    specialize (Hkids c Hc1). lia.
  - destruct (same_skeleton_lookup _ _ _ _ Hsk04 Hn0) as (n4' & Hn4' & Hsk4').
    assert (n4' = n4) as -> by congruence.
    unfold skeleton in Hsk4'. injection Hsk4' as _ Hc4 _.
    rewrite Hc4 in Hc1. rewrite Forall_forall in Hkids.
    specialize (Hkids c Hc1). lia.
Qed.

Lemma addHandler_returns x h incl s w :
  sound w → (x < length (nodes w))%nat →
  ∃ w', addHandler x h incl s w = (Return tt, w') ∧ same_skeleton w w'.
Proof.
  intros Hs Hx. unfold addHandler.
  apply (addHandler_rec_returns w h incl s Hs); [reflexivity | done | lia].
Qed.
Lemma alter_last {X} (f : X → X) (l : list X) (x : X) :
  alter f (length l) (l ++ [x]) = l ++ [f x].
Proof.
  rewrite <- (Nat.add_0_r (length l)) at 1. by rewrite alter_app_r.
Qed.

Lemma for_each_setLevel_runs z l : ∀ w,
  ∃ w', for_each l (fun h => Handler_setLevel h (PInt z)) w = (Return tt, w')
        ∧ nodes w' = nodes w ∧ loggers w' = loggers w.
Proof.
  induction l as [|h l IH]; intros w; cbn [for_each].
  - by exists w.
  - erewrite bind_step; [|reflexivity].
    match goal with
    | |- ∃ _, for_each _ _ ?w0 = _ ∧ _ => destruct (IH w0) as (w' & H1 & H2 & H3)
    end.
    exists w'. split; [exact H1 | by rewrite H2, H3].
Qed.

(** The setter with one of the five levels. *)
Lemma set_log_level_runs c z w :
  is_Some (nodes w !! c) → recognized z = true →
  ∃ w2, set_log_level c (PInt z) w = (Return tt, w2)
        ∧ nodes w2 = alter (set_level (PInt z)) c (nodes w)
        ∧ loggers w2 = alter (fun l => mkLogger z (lg_handlers l))
                         (from_option _logger "" (nodes w !! c)) (loggers w).
Proof.
  intros [n Hn] Hz. unfold set_log_level. rewrite Hz.
  erewrite bind_step by reflexivity.
  erewrite bind_step by reflexivity.
  erewrite get_node_step
    by (cbn; rewrite list_lookup_alter_eq, Hn; reflexivity).
  erewrite bind_step by reflexivity.
  match goal with
  | |- ∃ _, for_each ?l _ ?w0 = _ ∧ _ =>
    destruct (for_each_setLevel_runs z l w0) as (w' & H1 & H2 & H3)
  end.
  exists w'. split; [exact H1|]. rewrite H2, H3, Hn. done.
Qed.

Lemma addHandler_alone_returns x n h w :
  nodes w !! x = Some n →
  ∃ w', addHandler x h false false w = (Return tt, w').
Proof.
  intros Hn. unfold addHandler. pose proof (lookup_lt_Some _ _ _ Hn).
  destruct (length (nodes w)) as [|fuel]; [lia|].
  destruct (addHandler_rec_step fuel x h false false w n Hn)
    as (w4 & n4 & _ & _ & ->); [done|]. by eexists.
Qed.

Lemma save_to_file_returns x n path z w :
  nodes w !! x = Some n →
  ∃ w', save_to_file x path false (PInt z) w = (Return tt, w')
        ∧ same_skeleton w w'.
Proof.
  intros Hn.
  assert (∃ w', save_to_file x path false (PInt z) w = (Return tt, w'))
    as [w' E].
  { unfold save_to_file.
    erewrite bind_step by reflexivity.
    erewrite bind_step by reflexivity.
    erewrite bind_step by reflexivity.
    by apply (addHandler_alone_returns x n). }
  exists w'. split; [done|].
  eapply follows_outcome; [|exact E]. apply save_to_file_skeleton.
Qed.

(** [save_to_directory] for a node that has no directory and no children
    yet. *)
Lemma save_to_directory_fresh x n path w :
  nodes w !! x = Some n → _directory n = None → children n = [] →
  ∃ w', save_to_directory x (PathStr path) w = (Return tt, w')
        ∧ same_skeleton w w'.
Proof.
  intros Hn Hd Hc.
  assert (∃ w', save_to_directory x (PathStr path) w = (Return tt, w'))
    as [w' E].
  { unfold save_to_directory. pose proof (lookup_lt_Some _ _ _ Hn).
    destruct (length (nodes w)) as [|fuel]; [lia|].
    cbn [save_to_directory_rec].
    rewrite (get_node_step x n) by done. rewrite Hd. cbn [fmap option_fmap option_map].
    destruct (decide (Some (PathStr path) = None)) as [|_]; [done|].
    destruct (decide (None ≠ None)) as [|_]; [done|].
    unfold bind at 1. cbn [get_world].
    erewrite bind_step by reflexivity.
    erewrite bind_step by reflexivity.
    match goal with
    | |- ∃ _, bind (save_to_file _ ?p _ ?v) _ ?w0 = _ =>
      destruct (save_to_file_returns x (set_directory (Some (realpath (cwd w) path)) n)
                  p DEBUG w0) as (w1 & H1 & Hsk)
    end.
    { cbn. by rewrite list_lookup_alter_eq, Hn. }
    rewrite (bind_step _ _ _ _ _ H1).
    destruct (same_skeleton_lookup _ _ x
                (set_directory (Some (realpath (cwd w) path)) n) Hsk)
      as (n1 & Hn1 & Hsk1).
    { cbn. by rewrite list_lookup_alter_eq, Hn. }
    rewrite (get_node_step x n1) by done.
    unfold skeleton in Hsk1. injection Hsk1 as _ Hc1 _. cbn in Hc1.
    rewrite Hc1, Hc. by eexists. }
  exists w'. split; [done|].
  eapply follows_outcome; [|exact E]. apply save_to_directory_skeleton.
Qed.

(** The loop of lines 147-151 in a sound tree. *)
Lemma add_child_loop_returns w0 p child :
  sound w0 → (p < length (nodes w0))%nat → (child < length (nodes w0))%nat →
  ∀ fuel q w,
    same_skeleton w0 w → (q < length (nodes w0))%nat → (q < fuel)%nat →
    ∃ w', add_child_loop fuel p child (Some q) w = (Return tt, w')
          ∧ same_skeleton w0 w'.
Proof.
  intros Hs Hp Hchild. induction fuel as [|fuel IH]; intros q w Hsk Hq Hf; [lia|].
  cbn [add_child_loop].
  destruct (lookup_lt_is_Some_2 (nodes w) p) as [np Hnp].
  { by rewrite (same_skeleton_length _ _ Hsk). }
  rewrite (get_node_step p np) by done.
  destruct (for_each_returns (same_skeleton w0) (_descendant_handlers np)
              (fun handler => addHandler child handler true true)) with (w := w)
    as (w1 & H1 & Hsk1); [|done|].
  { intros h wa _ Hwa.
    destruct (addHandler_returns child h true true wa) as (wb & Hb & Hskb).
    - by eapply sound_skeleton.
    - by rewrite (same_skeleton_length _ _ Hwa).
    - exists wb. split; [done|]. by etrans. }
  rewrite (bind_step _ _ _ _ _ H1).
  destruct (lookup_lt_is_Some_2 (nodes w0) q Hq) as [nq0 Hnq0].
  destruct (same_skeleton_lookup _ _ _ _ Hsk1 Hnq0) as (nq & Hnq & Hskq).
  rewrite (get_node_step q nq) by done.
  unfold skeleton in Hskq. injection Hskq as Hpar _ _.
  destruct (Hs q nq0 Hnq0) as (_ & Hbefore & _).
  destruct (parent nq) as [q'|] eqn:Hq'.
  - specialize (Hbefore q' (eq_sym Hpar)). apply IH; [done | lia | lia].
  - destruct fuel; by exists w1.
Qed.
Lemma getLogger_runs name w :
  ∃ key w1, getLogger name w = (Return key, w1) ∧ nodes w1 = nodes w.
Proof.
  unfold getLogger. destruct (loggers w !! _); by eexists _, _.
Qed.

(** [_add_child] for a new child without children, under a parent that has
    a directory. *)
Lemma _add_child_fresh p np d child nc w :
  let w8 := with_nodes
              (alter (fun n => set_children (children n ++ [child]) n) p) w in
  nodes w !! p = Some np → _directory np = Some d →
  child ∉ children np → p ≠ child →
  nodes w !! child = Some nc → _directory nc = None → children nc = [] →
  sound w8 →
  ∃ w', _add_child p child w = (Return tt, w') ∧ same_skeleton w8 w'.
Proof.
  intros w8 Hnp Hd Hnot Hne Hnc Hdc Hcc Hs.
  unfold _add_child.
  rewrite (get_node_step p np) by done.
  destruct (decide (child ∈ children np)) as [|_]; [done|].
  erewrite bind_step by reflexivity. fold w8.
  assert (Hnc8 : nodes w8 !! child = Some nc).
  { unfold w8. cbn. by rewrite list_lookup_alter_ne. }
  rewrite (get_node_step child nc) by done.
  rewrite Hd.
  destruct (save_to_directory_fresh child nc (join d (_logger nc)) w8)
    as (w9 & H9 & Hsk9); [done..|].
  rewrite (bind_step _ _ _ _ _ H9).
  unfold bind at 1. cbn [get_world].
  pose proof (lookup_lt_Some _ _ _ Hnc8) as Hclt.
  assert (Hplt : (p < length (nodes w8))%nat).
  { unfold w8. cbn. rewrite length_alter. by eapply lookup_lt_Some. }
  apply (add_child_loop_returns w8 p child Hs Hplt Hclt); [done | done |].
  by rewrite (same_skeleton_length _ _ Hsk9).
Qed.

(** With a parent that has a directory, in a sound tree, the constructor
    returns, and the tree with the new node is sound. *)
Lemma init_returns name lvl p np d ce w :
  sound w → nodes w !! p = Some np → _directory np = Some d →
  level_arg_ok lvl →
  ∃ c w', EthenoLogger_init name lvl (Some p) ce w = (Return c, w')
          ∧ sound w'.
Proof.
  intros Hs Hnp Hd Hlvl.
  destruct (Hs p np Hnp) as (Hkids & Hpar & zp & Hzp & Hrp).
  pose proof (lookup_lt_Some _ _ _ Hnp) as Hplt.
  unfold EthenoLogger_init.
  unfold bind at 1. cbn [get_world].
  set (self := length (nodes w)).
  erewrite bind_step by reflexivity.
  match goal with
  | |- ∃ _ _, bind _ _ ?w0 = _ ∧ _ => set (w1 := w0)
  end.
  assert (Hl : ∃ z, recognized z = true
                    ∧ match lvl with
                      | PNone => log_level p
                      | v => ret v
                      end w1 = (Return (PInt z), w1)).
  { destruct lvl as [|z| |]; try done.
    - exists zp. split; [done|].
      apply (log_level_number p np); [|done].
      unfold w1. cbn. by apply lookup_app_l_Some.
    - by exists z. }
  destruct Hl as (z & Hz & Hl).
  rewrite (bind_step _ _ _ _ _ Hl).
  erewrite bind_step by reflexivity.
  match goal with
  | |- ∃ _ _, bind (getLogger _) _ ?w0 = _ ∧ _ =>
    destruct (getLogger_runs name w0) as (key & w3 & H3 & N3)
  end.
  rewrite (bind_step _ _ _ _ _ H3). clear H3.
  erewrite bind_step by reflexivity.
  erewrite bind_step by reflexivity.
  erewrite bind_step by reflexivity.
  match goal with
  | |- ∃ _ _, bind _ _ ?w0 = _ ∧ _ => set (w6 := w0)
  end.
  set (h0 := length (handlers w3)) in *.
  set (fresh := mkEthenoLogger None (Some p) ce [] [] (PInt z) key [h0] None).
  assert (N6 : nodes w6 = nodes w ++ [fresh]).
  { unfold w6, w1 in *. cbn in N3 |- *. rewrite N3. unfold self.
    by rewrite !alter_last. }
  clearbody w6 h0. clear N3 w3 Hl w1.
  destruct (decide (PInt z ≠ PNone)) as [_|Hne]; [|by destruct Hne].
  destruct (set_log_level_runs self z w6) as (w7 & H7 & N7 & _); [|done|].
  { rewrite N6. unfold self. rewrite lookup_app_r, Nat.sub_diag by done.
    by eexists. }
  rewrite (bind_step _ _ _ _ _ H7). clear H7.
  rewrite N6 in N7. unfold self in N7. rewrite alter_last in N7. fold self in N7.
  change (set_level (PInt z) fresh) with fresh in N7.
  clear N6 w6.
  (* [_add_child] *)
  set (w8 := with_nodes
               (alter (fun n => set_children (children n ++ [self]) n) p) w7).
  assert (N8 : nodes w8
               = alter (fun n => set_children (children n ++ [self]) n) p (nodes w)
                 ++ [fresh]).
  { unfold w8. cbn. rewrite N7. by rewrite alter_app_l. }
  assert (Hs8 : sound w8).
  { intros x n. rewrite N8. intros Hn.
    assert (Hlen : length (nodes w8) = S self).
    { rewrite N8, length_app, length_alter. cbn. unfold self. lia. }
    unfold node_sound. rewrite Hlen.
    destruct (decide (x < self)%nat) as [Hx|Hx].
    - rewrite lookup_app_l in Hn by (by rewrite length_alter).
      destruct (decide (x = p)) as [->|Hxp].
      + rewrite list_lookup_alter_eq, Hnp in Hn. injection Hn as <-. cbn.
        split_and!; [|done|by eauto].
        apply Forall_app. split.
        * eapply Forall_impl; [exact Hkids|]. cbn. intros c Hc. fold self in Hc. lia.
        * apply Forall_singleton. lia.
      + rewrite list_lookup_alter_ne in Hn by done.
        destruct (Hs x n Hn) as (Hk & Hp & Hl). split_and!; [|done..].
        eapply Forall_impl; [exact Hk|]. cbn. intros c Hc. fold self in Hc. lia.
    - rewrite lookup_app_r in Hn by (rewrite length_alter; fold self; lia).
      rewrite length_alter in Hn. fold self in Hn.
      destruct (x - self)%nat as [|k] eqn:Hk; [|done].
      cbn in Hn. injection Hn as <-. cbn.
      split_and!; [done| |by eauto].
      intros q [= <-]. lia. }
  destruct (_add_child_fresh p np d self fresh w7) as (w9 & H9 & Hsk9);
    try done.
  { rewrite N7. by apply lookup_app_l_Some. }
  { intros Hin. rewrite Forall_forall in Hkids. specialize (Hkids _ Hin).
    unfold self in Hkids. lia. }
  { unfold self. lia. }
  { rewrite N7. unfold self. by rewrite lookup_app_r, Nat.sub_diag. }
  rewrite (bind_step _ _ _ _ _ H9). clear H9.
  destruct (same_skeleton_lookup w8 w9 self fresh Hsk9) as (n9 & Hn9 & _).
  { rewrite N8. rewrite lookup_app_r by (by rewrite length_alter).
    by rewrite length_alter, Nat.sub_diag. }
  rewrite (get_node_step self n9) by done.
  assert (∃ w10, match _handlers n9 with
                 | [] => ret tt
                 | h1 :: _ => Logger_addHandler (_logger n9) h1
                 end w9 = (Return tt, w10) ∧ nodes w10 = nodes w9)
    as (w10 & H10 & N10) by (destruct (_handlers n9); by eexists).
  rewrite (bind_step _ _ _ _ _ H10).
  erewrite bind_step by reflexivity.
  eexists _, _. split; [reflexivity|].
  eapply sound_skeleton; [|exact Hs8].
  etrans; [exact Hsk9|]. unfold same_skeleton. cbn. rewrite N10.
  by apply fmap_alter_same.
Qed.

Lemma sound_check_sound w : sound_check w = true → sound w.
Proof.
  unfold sound_check. intros H x n Hx.
  apply Is_true_true, forallb_True in H. rewrite Forall_forall in H.
  specialize (H (x, n)). cbn beta iota in H.
  assert (Hin : (x, n) ∈ imap pair (nodes w)).
  { apply elem_of_lookup_imap. by exists x, n. }
  apply H in Hin. apply andb_True in Hin as [[H1 H2]%andb_True H3].
  apply forallb_True in H1. split_and!.
  - eapply Forall_impl; [exact H1|]. intros c [Hc1 Hc2]%andb_True.
    apply Is_true_true in Hc1, Hc2.
    apply Nat.ltb_lt in Hc1, Hc2. lia.
  - intros q Hq. rewrite Hq in H2. apply Is_true_true in H2.
    by apply Nat.ltb_lt in H2.
  - destruct (_log_level n) as [|z| |]; try done.
    exists z. split; [done|]. by apply Is_true_true.
Qed.

(** * The threshold of a child *)

#[global] Instance level_stays_preorder c v : PreOrder (level_stays c v).
Proof.
  split.
  - intros w H. exact H.
  - intros w1 w2 w3 H1 H2 H. by apply H2, H1.
Qed.

Lemma same_levels_stays {A} c v (m : M A) :
  follows same_levels m → follows (level_stays c v) m.
Proof.
  intros H w Hc. specialize (H w). unfold same_levels in H. by rewrite H.
Qed.

(** A node with a threshold of its own reports it. *)
Lemma log_level_own c v w :
  levels w !! c = Some v → v ≠ PNone → log_level c w = (Return v, w).
Proof.
  unfold levels. rewrite list_lookup_fmap. intros Hc Hv.
  destruct (nodes w !! c) as [n|] eqn:Hn; [|done].
  cbn in Hc. injection Hc as Hc.
  unfold log_level. pose proof (lookup_lt_Some _ _ _ Hn) as Hlt.
  destruct (length (nodes w)) as [|k]; [lia|].
  cbn [log_level_rec]. unfold bind, get_node. rewrite Hn, Hc. by destruct v.
Qed.

(** A result of [log_level] is not affected by objects created later. *)
Lemma log_level_rec_extend fuel : ∀ p w v extra fuel',
  log_level_rec fuel p w = (Return v, w) → (fuel ≤ fuel')%nat →
  log_level_rec fuel' p (with_nodes (fun ns => ns ++ extra) w)
  = (Return v, with_nodes (fun ns => ns ++ extra) w).
Proof.
  induction fuel as [|fuel IH]; intros p w v extra fuel' H Hf; [done|].
  destruct fuel' as [|fuel']; [lia|].
  cbn [log_level_rec] in *. unfold bind, get_node in *.
  destruct (nodes w !! p) as [n|] eqn:Hn; [|done].
  cbn [nodes with_nodes]. rewrite (lookup_app_l_Some _ _ _ _ Hn).
  destruct (_log_level n); try (by injection H as <-).
  destruct (parent n) as [q|]; [|done].
  apply IH; [done | lia].
Qed.

Lemma log_level_extend p w v extra :
  log_level p w = (Return v, w) →
  log_level p (with_nodes (fun ns => ns ++ extra) w)
  = (Return v, with_nodes (fun ns => ns ++ extra) w).
Proof.
  intros H. unfold log_level in *.
  eapply log_level_rec_extend; [exact H|].
  cbn. rewrite length_app. lia.
Qed.

(** Setting the threshold of [r] leaves the threshold of another node. *)
Lemma set_log_level_other r v c u :
  r ≠ c → follows (level_stays c u) (set_log_level r v).
Proof.
  intros Hne. unfold set_log_level.
  apply follows_bind; [tc_solve| |intros level].
  { destruct v; try (destruct (logging_getattr _)); try destruct (recognized _);
      eauto with follows. }
  apply follows_bind; [tc_solve| |intros _].
  { intros w Hc. unfold levels, upd_node, modify in *. cbn.
    rewrite list_lookup_fmap in *. by rewrite list_lookup_alter_ne. }
  apply follows_bind; [tc_solve|eauto with follows|intros n].
  apply follows_bind; [tc_solve| |intros _].
  { apply same_levels_stays, Logger_setLevel_levels. }
  apply follows_for_each; [tc_solve|intros h].
  apply same_levels_stays, Handler_setLevel_levels.
Qed.

(** Setting the threshold of [c] to the number it already is. *)
Lemma set_log_level_same c z :
  follows (level_stays c (PInt z)) (set_log_level c (PInt z)).
Proof.
  unfold set_log_level. destruct (recognized z).
  - change (follows (level_stays c (PInt z))
              (upd_node c (set_level (PInt z)) ;;
               n <- get_node c ;;
               Logger_setLevel (_logger n) (PInt z) ;;
               for_each (_handlers n)
                 (fun handler => Handler_setLevel handler (PInt z)))).
    apply follows_bind; [tc_solve| |intros _].
    { intros w Hc. unfold levels, upd_node, modify in *. cbn.
      rewrite list_lookup_fmap in *. rewrite list_lookup_alter_eq.
      by destruct (nodes w !! c). }
    apply follows_bind; [tc_solve|eauto with follows|intros n].
    apply follows_bind; [tc_solve| |intros _].
    { apply same_levels_stays, Logger_setLevel_levels. }
    apply follows_for_each; [tc_solve|intros h].
    apply same_levels_stays, Handler_setLevel_levels.
  - intros w H. exact H.
Qed.

#[global] Hint Resolve same_levels_stays set_log_level_same : follows.

Lemma bind_result {A B} (P : B → Prop) (m : M A) (k : A → M B) w b w2 :
  (∀ a w1, k a w1 = (Return b, w2) → P b) →
  bind m k w = (Return b, w2) → P b.
Proof. intros Hk H. apply bind_Return in H as (a & w1 & _ & H). eauto. Qed.

(** The constructor stores what the parent reports as the threshold of the
    new node. *)
Lemma init_child_level w name p cleanup z c w1 :
  log_level p w = (Return (PInt z), w) →
  EthenoLogger_init name PNone (Some p) cleanup w = (Return c, w1) →
  c = length (nodes w) ∧ levels w1 !! c = Some (PInt z).
Proof.
  intros Hlv H. unfold EthenoLogger_init in H.
  apply bind_Return in H as (w0 & w' & Hm & H).
  cbv [get_world] in Hm. injection Hm as <- <-.
  apply bind_Return in H as ([] & wa & Hm & H).
  cbv [modify] in Hm. injection Hm as <-.
  apply bind_Return in H as (level & w2 & Hm & H).
  rewrite (log_level_extend _ _ _ _ Hlv) in Hm. injection Hm as <- <-.
  apply bind_Return in H as ([] & w3 & Hm & H).
  cbv [upd_node modify] in Hm. injection Hm as <-.
  set (self := length (nodes w)) in *.
  match type of H with
  | _ ?w3' = _ => set (w3 := w3') in *
  end.
  assert (H3 : levels w3 !! self = Some (PInt z)).
  { unfold w3, levels. cbn. rewrite list_lookup_fmap, list_lookup_alter_eq.
    unfold self. by rewrite lookup_app_r, Nat.sub_diag by done. }
  assert (Hc : c = self).
  { clear H3. clearbody w3.
    repeat (apply bind_Return in H as (? & ? & _ & H)).
    cbv [ret] in H. by injection H as <- _. }
  split; [exact Hc|]. rewrite Hc. revert H3.
  match type of H with
  | ?rest _ = _ =>
    assert (HF : follows (level_stays self (PInt z)) rest)
  end.
  { clear H. clearbody w3 self. follows_auto. }
    specialize (HF w3). rewrite H in HF. exact HF.
Qed.

Lemma for_each_setLevel_returns z l : ∀ w,
  ∃ w', for_each l (fun h => Handler_setLevel h (PInt z)) w = (Return tt, w')
        ∧ nodes w' = nodes w.
Proof.
  induction l as [|h l IH]; intros w; cbn [for_each].
  - by exists w.
  - erewrite bind_step; [|reflexivity].
    match goal with
    | |- ∃ _, for_each _ _ ?w0 = _ ∧ _ => destruct (IH w0) as (w' & H1 & H2)
    end.
    exists w'. split; [exact H1 | by rewrite H2].
Qed.

Lemma set_log_level_returns c z w :
  is_Some (nodes w !! c) → recognized z = true →
  ∃ w2, set_log_level c (PInt z) w = (Return tt, w2)
        ∧ levels w2 !! c = Some (PInt z).
Proof.
  intros [n Hn] Hz. unfold set_log_level. rewrite Hz.
  unfold bind at 1. cbn [ret].
  unfold bind at 1. cbn [upd_node modify].
  unfold bind at 1. unfold get_node at 1. cbn [nodes with_nodes].
  rewrite list_lookup_alter_eq, Hn. cbn [fmap option_fmap option_map].
  unfold bind at 1. cbn [Logger_setLevel checkLevel modify].
  match goal with
  | |- ∃ _, for_each ?l _ ?w0 = _ ∧ _ =>
    destruct (for_each_setLevel_returns z l w0) as (w' & H1 & H2)
  end.
  exists w'. split; [exact H1|].
  unfold levels. rewrite H2. cbn. rewrite list_lookup_fmap, list_lookup_alter_eq.
  by rewrite Hn.
Qed.



(** * Paths *)

Section strings.

Implicit Types (a b c f s : string).

Lemma string_app_cons x a b : String x a +:+ b = String x (a +:+ b).
Proof. reflexivity. Qed.

Lemma string_app_nil_l b : "" +:+ b = b.
Proof. reflexivity. Qed.

Lemma string_app_nil_r s : s +:+ "" = s.
Proof. induction s as [|x s IH]; [done|]. by rewrite string_app_cons, IH. Qed.

Lemma string_app_assoc a b c : (a +:+ b) +:+ c = a +:+ b +:+ c.
Proof.
  induction a as [|x a IH]; [done|]. by rewrite !string_app_cons, IH.
Qed.

Lemma string_app_inv_tail a b c : a +:+ c = b +:+ c → a = b.
Proof.
  assert (Hlen : ∀ x y, String.length (x +:+ y)
                        = (String.length x + String.length y)%nat).
  { intros x y. induction x as [|? x IH]; [done|].
    rewrite string_app_cons. cbn. by rewrite IH. }
  revert b. induction a as [|x a IH]; intros [|y b] H.
  - done.
  - apply (f_equal String.length) in H. rewrite !Hlen in H. cbn in H. lia.
  - apply (f_equal String.length) in H. rewrite !Hlen in H. cbn in H. lia.
  - rewrite !string_app_cons in H. injection H as -> H. f_equal. by apply IH.
Qed.

Lemma split_slash_nonempty s : split_slash s ≠ [].
Proof.
  destruct s as [|x s]; [done|]. cbn.
  destruct (decide (x = slash)); [done|].
  by destruct (split_slash s).
Qed.

Lemma split_slash_plain f : has_slash f = false → split_slash f = [f].
Proof.
  induction f as [|x f IH]; [done|]. cbn. intros [H1 H2]%orb_false_elim.
  apply bool_decide_eq_false in H1.
  rewrite decide_False by done. by rewrite IH.
Qed.

Lemma split_slash_app a b :
  split_slash (a +:+ "/" +:+ b) = split_slash a ++ split_slash b.
Proof.
  induction a as [|x a IH]; [done|]. rewrite string_app_cons. cbn.
  destruct (decide (x = slash)).
  - by rewrite IH.
  - rewrite IH. pose proof (split_slash_nonempty a).
    by destruct (split_slash a).
Qed.

Lemma components_app a b :
  components (a +:+ "/" +:+ b) = foldl norm_step (components a) (split_slash b).
Proof. unfold components. by rewrite split_slash_app, foldl_app. Qed.

Lemma ends_with_slash_inv a :
  ends_with_slash a = true → ∃ a0, a = a0 +:+ "/".
Proof.
  induction a as [|x a IH]; [done|]. cbn. destruct a as [|y a].
  - intros ->%bool_decide_eq_true. by exists "".
  - intros H. destruct (IH H) as [a0 Ha]. exists (String x a0).
    by rewrite string_app_cons, <- Ha.
Qed.

Lemma components_slash a : components (a +:+ "/") = components a.
Proof.
  rewrite <- (string_app_nil_r (a +:+ "/")), string_app_assoc.
  by rewrite components_app.
Qed.

(** The components of a joined path, when the second part is relative. *)
Lemma components_join a b :
  isabs b = false →
  components (join a b) = foldl norm_step (components a) (split_slash b).
Proof.
  intros Hb. unfold join. rewrite Hb.
  destruct (bool_decide (a = "")) eqn:Ha; cbn [orb].
  - apply bool_decide_eq_true in Ha as ->. done.
  - destruct (ends_with_slash a) eqn:He.
    + apply ends_with_slash_inv in He as [a0 ->].
      by rewrite string_app_assoc, components_app, components_slash.
    + apply components_app.
Qed.

Lemma isabs_join a b : isabs b = false → isabs (join a b) = isabs a.
Proof.
  intros Hb. unfold join. rewrite Hb.
  destruct a as [|x a]; [by cbn|].
  destruct (_ || _); by rewrite string_app_cons.
Qed.

Lemma plain_not_abs f : has_slash f = false → isabs f = false.
Proof. destruct f as [|x f]; [done|]. cbn. by intros [? ?]%orb_false_elim. Qed.

Lemma norm_step_plain cs f : plain f → norm_step cs f = cs ++ [f].
Proof.
  intros (_ & H1 & H2 & H3). unfold norm_step.
  by rewrite !decide_False by done.
Qed.

(** A plain name under an absolute directory: one more component. *)
Lemma path_key_plain cwd d f :
  isabs d = true → plain f →
  path_key cwd (join (join d "") f) = path_key cwd d ++ [f].
Proof.
  intros Hd Hf. pose proof Hf as (Hs & _).
  unfold path_key.
  rewrite (isabs_join _ f) by by apply plain_not_abs.
  rewrite (isabs_join d "") by done. rewrite Hd.
  rewrite components_join by by apply plain_not_abs.
  rewrite components_join by done.
  rewrite (split_slash_plain f) by done. cbn.
  by apply norm_step_plain.
Qed.

Lemma path_key_join_empty cwd d :
  isabs d = true → path_key cwd (join d "") = path_key cwd d.
Proof.
  intros Hd. unfold path_key.
  rewrite (isabs_join d "") by done. rewrite Hd.
  by rewrite components_join by done.
Qed.

(** Digits *)

Lemma has_slash_app a b : has_slash (a +:+ b) = has_slash a || has_slash b.
Proof.
  induction a as [|x a IH]; [done|].
  rewrite string_app_cons. cbn. by rewrite IH, orb_assoc.
Qed.

Lemma has_digit_app a b : has_digit (a +:+ b) = has_digit a || has_digit b.
Proof.
  induction a as [|x a IH]; [done|].
  rewrite string_app_cons. cbn. by rewrite IH, orb_assoc.
Qed.

Lemma all_digits_no_slash s : all_digits s = true → has_slash s = false.
Proof.
  induction s as [|x s IH]; [done|]. cbn. intros [H1 H2]%andb_true_iff.
  rewrite IH, orb_false_r by done. apply bool_decide_eq_false.
  intros ->. done.
Qed.

Lemma all_digits_has_digit s : all_digits s = true → s ≠ "" → has_digit s = true.
Proof. destruct s as [|x s]; [done|]. cbn. by intros [-> _]%andb_true_iff. Qed.

Lemma pretty_N_char_digit x : is_digit (pretty_N_char x) = true.
Proof. unfold pretty_N_char. by repeat case_match. Qed.

End strings.

(** * Logged files *)

Lemma pretty_N_go_digits x : ∀ s,
  all_digits s = true → all_digits (pretty_N_go x s) = true.
Proof.
  induction (N.lt_wf_0 x) as [x _ IH]; intros s Hs.
  destruct (decide (x = 0%N)) as [->|Hx].
  - by rewrite pretty_N_go_0.
  - rewrite pretty_N_go_step by lia. apply IH.
    + apply N.div_lt; lia.
    + cbn. by rewrite pretty_N_char_digit.
Qed.

Lemma pretty_N_go_nonempty x : ∀ s, s ≠ "" → pretty_N_go x s ≠ "".
Proof.
  induction (N.lt_wf_0 x) as [x _ IH]; intros s Hs.
  destruct (decide (x = 0%N)) as [->|Hx].
  - by rewrite pretty_N_go_0.
  - rewrite pretty_N_go_step by lia. apply IH; [apply N.div_lt; lia | done].
Qed.

Lemma pretty_nat_digits (i : nat) :
  all_digits (pretty i) = true ∧ pretty i ≠ "".
Proof.
  unfold pretty, pretty_nat, pretty, pretty_N.
  destruct (decide (N.of_nat i = 0%N)); [done|]. split.
  - by apply pretty_N_go_digits.
  - rewrite pretty_N_go_step by lia. by apply pretty_N_go_nonempty.
Qed.

Section names.

Context (prefix suffix : string).
Context (Hprefix : has_slash prefix = false) (Hsuffix : has_slash suffix = false).

Lemma logged_name_plain i : i ≠ 1%nat → plain (logged_name prefix suffix i).
Proof using Hprefix Hsuffix.
  intros Hi. unfold logged_name. rewrite decide_False by done.
  destruct (pretty_nat_digits i) as [Hd Hne].
  assert (Hdig : has_digit (prefix +:+ pretty i +:+ suffix) = true).
  { rewrite !has_digit_app, (all_digits_has_digit _ Hd Hne).
    by rewrite orb_true_r. }
  split.
  - rewrite !has_slash_app, Hprefix, Hsuffix.
    by rewrite (all_digits_no_slash _ Hd).
  - repeat split; intros Heq; by rewrite Heq in Hdig.
Qed.

Lemma logged_name_inj i j :
  i ≠ 1%nat → j ≠ 1%nat →
  logged_name prefix suffix i = logged_name prefix suffix j → i = j.
Proof.
  intros Hi Hj. unfold logged_name. rewrite !decide_False by done.
  intros H%(inj (String.app prefix)).
  apply string_app_inv_tail in H. by apply (inj pretty) in H.
Qed.

End names.

(** [os.makedirs] *)

Lemma makedirs_fold_mono (key : list string) l : ∀ (fs : filesystem) k,
  is_Some (fs !! k) →
  foldl (fun fs n => let k := take n key in
           match fs !! k with Some _ => fs | None => <[k := Dir]> fs end)
        fs l !! k
  = fs !! k.
Proof.
  induction l as [|n l IH]; intros fs k Hk; [done|]. cbn.
  destruct (fs !! take n key) eqn:Hn.
  - by apply IH.
  - rewrite IH.
    + rewrite lookup_insert_ne; [done|]. intros <-. rewrite Hn in Hk.
      by destruct Hk.
    + rewrite lookup_insert_ne; [done|]. intros <-. rewrite Hn in Hk.
      by destruct Hk.
Qed.

Lemma makedirs_fold_present (key : list string) l : ∀ (fs : filesystem) n,
  n ∈ l →
  is_Some (foldl (fun fs n => let k := take n key in
             match fs !! k with Some _ => fs | None => <[k := Dir]> fs end)
           fs l !! take n key).
Proof.
  induction l as [|m l IH]; intros fs n Hn; [by apply elem_of_nil in Hn|].
  apply elem_of_cons in Hn as [->|Hn]; [|by apply IH].
  cbn. destruct (fs !! take m key) eqn:Hm.
  - rewrite makedirs_fold_mono; by rewrite Hm.
  - rewrite makedirs_fold_mono; by rewrite lookup_insert_eq.
Qed.

Lemma makedirs_self (key : list string) (fs : filesystem) : is_Some (makedirs key fs !! key).
Proof.
  unfold makedirs.
  pose proof (makedirs_fold_present key (seq 0 (S (length key))) fs
                (length key)) as H.
  rewrite take_ge in H by done. apply H. apply elem_of_seq. lia.
Qed.

Lemma makedirs_keeps (key : list string) (fs : filesystem) k :
  is_Some (fs !! k) → makedirs key fs !! k = fs !! k.
Proof. apply makedirs_fold_mono. Qed.

Lemma makedirs_fold_id (key : list string) l : ∀ (fs : filesystem),
  (∀ n, n ∈ l → is_Some (fs !! take n key)) →
  foldl (fun fs n => let k := take n key in
           match fs !! k with Some _ => fs | None => <[k := Dir]> fs end)
        fs l
  = fs.
Proof.
  induction l as [|n l IH]; intros fs H; [done|]. cbn.
  destruct (H n) as [e He]; [by left|]. rewrite He.
  apply IH. intros m Hm. apply H. by right.
Qed.

(** Making the directories again, after any entry was added, does nothing. *)
Lemma makedirs_again (key : list string) (fs : filesystem) k e :
  makedirs key (<[k := e]> (makedirs key fs)) = <[k := e]> (makedirs key fs).
Proof.
  unfold makedirs at 1. apply makedirs_fold_id. intros n Hn.
  destruct (decide (k = take n key)) as [->|Hne].
  - rewrite lookup_insert_eq. by eexists.
  - rewrite lookup_insert_ne by done.
    by apply makedirs_fold_present.
Qed.

Section loop.

Context (base prefix suffix : string).

Local Abbreviation key w i :=
  (path_key (cwd w) (join base (logged_name prefix suffix i))).

(** The loop stops at the first name that is not in use, if there is one
    within its bound. *)
Lemma make_logged_file_loop_first fuel : ∀ i w,
  (∃ j, (i ≤ j < i + fuel)%nat ∧ fs w !! key w j = None) →
  ∃ i0, (i ≤ i0 < i + fuel)%nat
        ∧ fs w !! key w i0 = None
        ∧ (∀ k, (i ≤ k < i0)%nat → is_Some (fs w !! key w k))
        ∧ make_logged_file_loop fuel i base (PStr prefix) (PStr suffix) w
          = (Return (join base (logged_name prefix suffix i0)),
             with_fs (open_truncate (key w i0)) w).
Proof.
  induction fuel as [|fuel IH]; intros i w (j & Hj & Hfree); [lia|].
  cbn [make_logged_file_loop py_str].
  change (if decide (i = 1%nat) then prefix +:+ suffix
          else prefix +:+ pretty i +:+ suffix)
    with (logged_name prefix suffix i).
  unfold bind at 1. cbn [get_world].
  destruct (fs w !! key w i) as [e|] eqn:Hi.
  - assert (j ≠ i) by (intros ->; congruence).
    destruct (IH (S i) w) as (i0 & Hi0 & Hnone & Hused & Hrun).
    { exists j. split; [lia | done]. }
    exists i0. split; [lia|]. split; [done|]. split; [|done].
    intros k Hk. destruct (decide (k = i)) as [->|]; [by rewrite Hi|].
    apply Hused. lia.
  - exists i. split; [lia|]. split; [done|]. split; [intros k; lia|].
    reflexivity.
Qed.

End loop.

(** Among as many names as the file system has entries, one is free: the
    directory itself is an entry too. *)
Lemma some_name_free (fs0 : filesystem) (top : list string) (name : nat → string) :
  is_Some (fs0 !! top) →
  (∀ i j, (2 ≤ i)%nat → (2 ≤ j)%nat → name i = name j → i = j) →
  ∃ j, (2 ≤ j < 2 + size fs0)%nat ∧ fs0 !! (top ++ [name j]) = None.
Proof.
  intros Htop Hinj.
  destruct (decide (Exists (fun j => fs0 !! (top ++ [name j]) = None)
                      (seq 2 (size fs0)))) as [Hex|Hall].
  - apply Exists_exists in Hex as (j & Hj & Hnone).
    apply elem_of_seq in Hj. exists j. split; [lia | done].
  - exfalso. apply not_Exists_Forall in Hall; [|intros ?; apply _].
    set (ks := top :: ((fun j => top ++ [name j]) <$> seq 2 (size fs0))).
    assert (Hnd : NoDup ks).
    { constructor.
      - intros (j & Hj & _)%list_elem_of_fmap.
        apply (f_equal length) in Hj. rewrite length_app in Hj. cbn in Hj. lia.
      - apply NoDup_fmap_2_strong; [|apply NoDup_seq].
        intros i j Hi%elem_of_seq Hj%elem_of_seq Heq.
        apply app_inv_head in Heq. injection Heq as Heq.
        apply Hinj; [lia | lia | done]. }
    assert (Hsub : list_to_set (C := gset (list string)) ks ⊆ dom fs0).
    { intros k Hk%elem_of_list_to_set. apply elem_of_dom.
      apply elem_of_cons in Hk as [->|(j & -> & Hj)%list_elem_of_fmap]; [done|].
      rewrite Forall_forall in Hall. specialize (Hall j Hj). cbn in Hall.
      by destruct (fs0 !! (top ++ [name j])); [eexists|]. }
    apply subseteq_size in Hsub.
    rewrite size_list_to_set, size_dom in Hsub by done.
    unfold ks in Hsub. cbn in Hsub. rewrite length_fmap, length_seq in Hsub. lia.
Qed.

(** C6, as the code has it.  For a node whose directory [d] is absolute, as
    [save_to_directory] stores it, and a prefix and suffix without path
    separator, [make_logged_file] returns the path made of [d] and the name
    of the first turn [i] whose path is not in use, [prefix+suffix] at turn
    1 and [prefix+i+suffix] from turn 2 on; the file is created empty, and
    nothing else changes but the directories made on the way.  So, when
    [run.log], [run2.log] and [run3.log] are not in use in the directory,
    three calls in a row return these three paths. *)
Theorem make_logged_file_first_free (w : World) (self : nat)
    (n : EthenoLogger) (d : string) :
  nodes w !! self = Some n → _directory n = Some d → isabs d = true →
  let top := path_key (cwd w) d in
  let fs0 := makedirs top (fs w) in
  (∀ prefix suffix,
     has_slash prefix = false → has_slash suffix = false →
     let path i := join (join d "") (logged_name prefix suffix i) in
     let key i := path_key (cwd w) (path i) in
     ∃ i, (1 ≤ i)%nat
       ∧ make_logged_file self (PStr prefix) (PStr suffix) None w
         = (Return (path i), with_fs (fun _ => <[key i := File 0]> fs0) w)
       ∧ fs0 !! key i = None
       ∧ (∀ j, (1 ≤ j < i)%nat → is_Some (fs0 !! key j))
       ∧ ((2 ≤ i)%nat ∨ plain (prefix +:+ suffix) →
          key i = top ++ [logged_name prefix suffix i]))
  ∧ (fs0 !! (top ++ ["run.log"]) = None →
     fs0 !! (top ++ ["run2.log"]) = None →
     fs0 !! (top ++ ["run3.log"]) = None →
     ∃ w1 w2 w3,
       make_logged_file self (PStr "run") (PStr ".log") None w
       = (Return (join (join d "") "run.log"), w1)
       ∧ make_logged_file self (PStr "run") (PStr ".log") None w1
         = (Return (join (join d "") "run2.log"), w2)
       ∧ make_logged_file self (PStr "run") (PStr ".log") None w2
         = (Return (join (join d "") "run3.log"), w3)).
Proof.
  intros Hn Hd Habs top fs0.
  assert (Hgen : ∀ (w0 : World) prefix suffix,
    nodes w0 !! self = Some n → cwd w0 = cwd w →
    has_slash prefix = false → has_slash suffix = false →
    let f0 := makedirs top (fs w0) in
    let path i := join (join d "") (logged_name prefix suffix i) in
    let key i := path_key (cwd w) (path i) in
    ∃ i, (1 ≤ i)%nat
       ∧ make_logged_file self (PStr prefix) (PStr suffix) None w0
         = (Return (path i), with_fs (fun _ => <[key i := File 0]> f0) w0)
       ∧ f0 !! key i = None
       ∧ (∀ j, (1 ≤ j < i)%nat → is_Some (f0 !! key j))
       ∧ ((2 ≤ i)%nat ∨ plain (prefix +:+ suffix) →
          key i = top ++ [logged_name prefix suffix i])).
  { intros w0 prefix suffix Hn0 Hcwd Hp Hs f0 path key.
    assert (Hkey : ∀ j, (2 ≤ j)%nat → key j = top ++ [logged_name prefix suffix j]).
    { intros j Hj. unfold key, path, top.
      apply path_key_plain; [done|]. apply logged_name_plain; [done..|lia]. }
    set (w' := with_fs (makedirs (path_key (cwd w0) (join d ""))) w0).
    assert (Hfs' : fs w' = f0).
    { unfold w', f0, top. cbn [fs with_fs].
      by rewrite Hcwd, path_key_join_empty. }
    destruct (make_logged_file_loop_first (join d "") prefix suffix
                (S (size (fs w'))) 1 w') as (i & Hi & Hnone & Hused & Hrun).
    { destruct (some_name_free f0 top (logged_name prefix suffix))
        as (j & Hj & Hfree).
      - apply makedirs_self.
      - intros i j Hi Hj. apply logged_name_inj; lia.
      - exists j. rewrite Hfs'. split; [lia|].
        change (cwd w') with (cwd w0). rewrite Hcwd.
        fold (path j). fold (key j). by rewrite Hkey by lia. }
    change (cwd w') with (cwd w0) in *. rewrite Hcwd, Hfs' in *.
    exists i. split; [lia|]. split; [|split; [done|split]].
    - unfold make_logged_file.
      erewrite bind_step; [|unfold get_node; by rewrite Hn0].
      erewrite bind_step; [|reflexivity]. rewrite Hd.
      erewrite bind_step; [|reflexivity].
      erewrite bind_step; [|reflexivity].
      fold w'. rewrite Hfs', Hrun. rewrite <- Hfs'. reflexivity.
    - intros j Hj. apply Hused. lia.
    - intros [Hi2|Hplain]; [by apply Hkey|].
      destruct (decide (i = 1%nat)) as [->|]; [|apply Hkey; lia].
      unfold key, path, top, logged_name. cbn.
      by apply path_key_plain. }
  split.
  - intros prefix suffix Hp Hs. by apply Hgen.
  - intros H1 H2 H3.
    assert (Hk : ∀ i, (1 ≤ i)%nat →
      path_key (cwd w) (join (join d "") (logged_name "run" ".log" i))
      = top ++ [logged_name "run" ".log" i]).
    { intros i Hi. apply path_key_plain; [done|].
      destruct (decide (i = 1%nat)) as [->|];
        [by vm_compute | by apply logged_name_plain]. }
    (* first call *)
    destruct (Hgen w "run" ".log" Hn eq_refl eq_refl eq_refl)
      as (i1 & Hi1 & Hrun1 & Hfree1 & Hused1 & _).
    assert (i1 = 1%nat) as ->.
    { destruct (decide (i1 = 1%nat)); [done|]. exfalso.
      destruct (Hused1 1%nat) as [e He]; [lia|].
      rewrite Hk in He by lia. change (logged_name "run" ".log" 1) with "run.log" in He.
      fold fs0 in He. congruence. }
    rewrite Hk in Hrun1 by lia.
    change (logged_name "run" ".log" 1) with "run.log" in Hrun1.
    fold fs0 in Hrun1.
    set (w1 := with_fs (fun _ => <[top ++ ["run.log"] := File 0]> fs0) w) in *.
    (* second call *)
    destruct (Hgen w1 "run" ".log" Hn eq_refl eq_refl eq_refl)
      as (i2 & Hi2 & Hrun2 & Hfree2 & Hused2 & _).
    assert (Hfs1 : makedirs top (fs w1) = <[top ++ ["run.log"] := File 0]> fs0).
    { unfold w1, fs0. cbn. apply makedirs_again. }
    rewrite Hfs1 in *.
    assert (i2 = 2%nat) as ->.
    { destruct (decide (i2 = 1%nat)) as [->|].
      { rewrite Hk in Hfree2 by lia.
        change (logged_name "run" ".log" 1) with "run.log" in Hfree2.
        by rewrite lookup_insert_eq in Hfree2. }
      destruct (decide (i2 = 2%nat)); [done|]. exfalso.
      destruct (Hused2 2%nat) as [e He]; [lia|].
      rewrite Hk in He by lia.
      change (logged_name "run" ".log" 2) with "run2.log" in He.
      rewrite lookup_insert_ne in He by (intros Heq%app_inv_head; discriminate). congruence. }
    rewrite Hk in Hrun2 by lia.
    change (logged_name "run" ".log" 2) with "run2.log" in Hrun2.
    set (fs1 := <[top ++ ["run.log"] := File 0]> fs0) in *.
    set (w2 := with_fs (fun _ => <[top ++ ["run2.log"] := File 0]> fs1) w1) in *.
    (* third call *)
    destruct (Hgen w2 "run" ".log" Hn eq_refl eq_refl eq_refl)
      as (i3 & Hi3 & Hrun3 & Hfree3 & Hused3 & _).
    assert (Hfs2 : makedirs top (fs w2) = <[top ++ ["run2.log"] := File 0]> fs1).
    { unfold w2. cbn. rewrite <- Hfs1. apply makedirs_again. }
    rewrite Hfs2 in *.
    assert (i3 = 3%nat) as ->.
    { destruct (decide (i3 = 1%nat)) as [->|].
      { rewrite Hk in Hfree3 by lia.
        change (logged_name "run" ".log" 1) with "run.log" in Hfree3.
        rewrite lookup_insert_ne in Hfree3 by (intros Heq%app_inv_head; discriminate).
        unfold fs1 in Hfree3. by rewrite lookup_insert_eq in Hfree3. }
      destruct (decide (i3 = 2%nat)) as [->|].
      { rewrite Hk in Hfree3 by lia.
        change (logged_name "run" ".log" 2) with "run2.log" in Hfree3.
        by rewrite lookup_insert_eq in Hfree3. }
      destruct (decide (i3 = 3%nat)); [done|]. exfalso.
      destruct (Hused3 3%nat) as [e He]; [lia|].
      rewrite Hk in He by lia.
      change (logged_name "run" ".log" 3) with "run3.log" in He.
      rewrite lookup_insert_ne in He by (intros Heq%app_inv_head; discriminate).
      unfold fs1 in He. rewrite lookup_insert_ne in He by (intros Heq%app_inv_head; discriminate).
      congruence. }
    rewrite Hk in Hrun3 by lia.
    change (logged_name "run" ".log" 3) with "run3.log" in Hrun3.
    eexists _, _, _. split; [exact Hrun1|]. split; [exact Hrun2 | exact Hrun3].
Qed.

Lemma make_logged_file_first_free_witness :
  ∃ w1 w2 w3,
    make_logged_file 0%nat (PStr "run") (PStr ".log") None world_node_logs
    = (Return "/logs/run.log", w1)
    ∧ make_logged_file 0%nat (PStr "run") (PStr ".log") None w1
      = (Return "/logs/run2.log", w2)
    ∧ make_logged_file 0%nat (PStr "run") (PStr ".log") None w2
      = (Return "/logs/run3.log", w3).
Proof.
  destruct (nodes world_node_logs !! 0%nat) as [n|] eqn:Hn;
    [|vm_compute in Hn; discriminate].
  destruct (make_logged_file_first_free world_node_logs 0%nat n "/logs" Hn)
    as [_ H].
  - vm_compute in Hn. injection Hn as <-. reflexivity.
  - reflexivity.
  - apply H; vm_compute; reflexivity.
Defined.

(** * Closing a node *)

(** ** The walk over the directories *)

Lemma elem_of_scandir (fs0 : filesystem) (top : list string) (name : string) (e : fsentry) :
  (name, e) ∈ scandir fs0 top ↔ fs0 !! (top ++ [name]) = Some e.
Proof.
  unfold scandir. rewrite list_elem_of_omap. split.
  - intros ([k e'] & Hk & Hf). apply elem_of_map_to_list in Hk.
    destruct (last k) as [nm|]; [|done].
    destruct (decide (k = top ++ [nm])) as [->|]; [|done].
    by injection Hf as -> ->.
  - intros H. exists (top ++ [name], e). split.
    + by apply elem_of_map_to_list.
    + rewrite last_snoc. by rewrite decide_True.
Qed.

Lemma scandir_no_entries (fs0 : filesystem) (dir : list string) :
  no_entries fs0 dir → scandir fs0 dir = [].
Proof.
  intros H. destruct (scandir fs0 dir) as [|[name e] l] eqn:Hs; [done|].
  assert (Hin : (name, e) ∈ scandir fs0 dir) by (rewrite Hs; left).
  apply elem_of_scandir in Hin. by rewrite H in Hin.
Qed.

Section walk.

Context (root : list string).

(** The walk only removes entries. *)
Lemma walk_rmdir_sub (fuel : nat) : ∀ (top : list string) (fs0 : filesystem) (k : list string) (e : fsentry),
  walk_rmdir fuel root top fs0 !! k = Some e → fs0 !! k = Some e.
Proof.
  induction fuel as [|fuel IH]; intros top fs0 k e; [done|].
  cbn [walk_rmdir]. destruct (fs0 !! top) as [[|sz]|] eqn:Htop; try done.
  set (dirnames := omap _ (scandir fs0 top)).
  assert (Hfold : ∀ l (f1 : filesystem),
    foldl (fun f n => walk_rmdir fuel root (top ++ [n]) f) f1 l !! k = Some e →
    f1 !! k = Some e).
  { induction l as [|n l IHl]; intros f1; [done|]. cbn.
    intros H. apply IHl in H. by apply IH in H. }
  destruct (_ && _).
  - intros [_ H]%lookup_delete_Some. by apply Hfold in H.
  - apply Hfold.
Qed.

Lemma walk_rmdir_None (fuel : nat) (top : list string) (fs0 : filesystem) (k : list string) :
  fs0 !! k = None → walk_rmdir fuel root top fs0 !! k = None.
Proof.
  intros H. destruct (walk_rmdir fuel root top fs0 !! k) as [e|] eqn:He; [|done].
  apply walk_rmdir_sub in He. congruence.
Qed.

(** It removes directories only. *)
Lemma walk_rmdir_file (fuel : nat) : ∀ (top : list string) (fs0 : filesystem) (k : list string) (sz : N),
  fs0 !! k = Some (File sz) →
  walk_rmdir fuel root top fs0 !! k = Some (File sz).
Proof.
  induction fuel as [|fuel IH]; intros top fs0 k sz Hk; [done|].
  cbn [walk_rmdir]. destruct (fs0 !! top) as [[|sz']|] eqn:Htop; try done.
  set (dirnames := omap _ (scandir fs0 top)).
  assert (Hfold : ∀ l (f1 : filesystem),
    f1 !! k = Some (File sz) →
    foldl (fun f n => walk_rmdir fuel root (top ++ [n]) f) f1 l !! k
    = Some (File sz)).
  { induction l as [|n l IHl]; intros f1 H; [done|]. cbn.
    apply IHl. by apply IH. }
  destruct (_ && _).
  - rewrite lookup_delete_ne; [by apply Hfold|]. intros <-. congruence.
  - by apply Hfold.
Qed.

(** It leaves alone what is not below its starting point. *)
Lemma walk_rmdir_frame (fuel : nat) : ∀ (top : list string) (fs0 : filesystem) (k : list string),
  ¬ top `prefix_of` k → walk_rmdir fuel root top fs0 !! k = fs0 !! k.
Proof.
  induction fuel as [|fuel IH]; intros top fs0 k Hk; [done|].
  cbn [walk_rmdir]. destruct (fs0 !! top) as [[|sz']|] eqn:Htop; try done.
  set (dirnames := omap _ (scandir fs0 top)).
  assert (Hfold : ∀ l (f1 : filesystem),
    foldl (fun f n => walk_rmdir fuel root (top ++ [n]) f) f1 l !! k
    = f1 !! k).
  { induction l as [|n l IHl]; intros f1; [done|]. cbn.
    rewrite IHl. apply IH. intros Hp. apply Hk.
    etrans; [|exact Hp]. by apply prefix_app_r. }
  destruct (_ && _).
  - rewrite lookup_delete_ne; [by apply Hfold|]. by intros <-.
  - by apply Hfold.
Qed.

(** It removes every directory it reaches that has no entries. *)
Lemma walk_rmdir_removes (names : list string) : ∀ (fuel : nat) (top : list string) (fs0 : filesystem),
  dir_chain fs0 top names → no_entries fs0 (top ++ names) →
  (length names < fuel)%nat → top ++ names ≠ root →
  walk_rmdir fuel root top fs0 !! (top ++ names) = None.
Proof.
  induction names as [|name names IH]; intros fuel top fs0 Hch Hno Hf Hroot.
  - destruct fuel as [|fuel]; [cbn in Hf; lia|].
    rewrite app_nil_r in *. cbn [walk_rmdir].
    pose proof (Hch 0%nat ltac:(cbn; lia)) as Htop. cbn in Htop.
    rewrite app_nil_r in Htop. rewrite Htop.
    rewrite (scandir_no_entries _ _ Hno). cbn.
    rewrite (bool_decide_false (top = root)) by done. cbn.
    apply lookup_delete_eq.
  - destruct fuel as [|fuel]; [cbn in Hf; lia|]. cbn in Hf.
    cbn [walk_rmdir].
    pose proof (Hch 0%nat ltac:(cbn; lia)) as Htop. cbn in Htop.
    rewrite app_nil_r in Htop. rewrite Htop.
    set (target := top ++ name :: names).
    assert (Htarget : target = (top ++ [name]) ++ names).
    { unfold target. by rewrite <- app_assoc. }
    set (dirnames := omap _ (scandir fs0 top)).
    assert (Hin : name ∈ dirnames).
    { unfold dirnames. apply list_elem_of_omap. exists (name, Dir). split.
      - apply elem_of_scandir. apply (Hch 1%nat). cbn. lia.
      - by rewrite decide_True. }
    assert (Hfold : ∀ l (f1 : filesystem),
      f1 !! target = None
      ∨ (name ∈ l ∧ dir_chain f1 (top ++ [name]) names
         ∧ no_entries f1 target) →
      foldl (fun f n => walk_rmdir fuel root (top ++ [n]) f) f1 l !! target
      = None).
    { induction l as [|m l IHl]; intros f1 H.
      - destruct H as [H|[H _]]; [done | by apply elem_of_nil in H].
      - cbn. apply IHl. destruct H as [H|(Hm & Hc1 & Hn1)].
        + left. by apply walk_rmdir_None.
        + destruct (decide (m = name)) as [->|Hne].
          * left. rewrite Htarget. apply IH; [done| |lia|].
            -- by rewrite <- Htarget.
            -- by rewrite <- Htarget.
          * right. apply elem_of_cons in Hm as [Hm|Hm]; [congruence|].
            assert (Hfr : ∀ rest,
              walk_rmdir fuel root (top ++ [m]) f1 !! ((top ++ [name]) ++ rest)
              = f1 !! ((top ++ [name]) ++ rest)).
            { intros rest. apply walk_rmdir_frame.
              rewrite <- !app_assoc. intros Hp%prefix_app_inv.
              cbn in Hp. apply prefix_cons_inv_1 in Hp. congruence. }
            split; [done|]. split.
            -- intros i Hi. rewrite Hfr. by apply Hc1.
            -- intros nm. rewrite Htarget, <- app_assoc, Hfr, app_assoc.
               rewrite <- Htarget. apply Hn1. }
    assert (Hres : foldl (fun f n => walk_rmdir fuel root (top ++ [n]) f)
                     fs0 dirnames !! target = None).
    { apply Hfold. right. split; [done|]. split; [|done].
      intros i Hi. rewrite <- app_assoc. apply (Hch (S i)). cbn. lia. }
    destruct (_ && _); [|done].
    apply lookup_delete_None. by right.
Qed.

End walk.

(** The height of the file system bounds the length of its keys. *)
Lemma fs_height_key (fs0 : filesystem) (k : list string) (e : fsentry) :
  fs0 !! k = Some e → (length k < fs_height fs0)%nat.
Proof.
  intros H. unfold fs_height.
  assert (length k ∈ (fun ke : list string * fsentry => length ke.1)
                       <$> map_to_list fs0).
  { apply list_elem_of_fmap. exists (k, e). split; [done|].
    by apply elem_of_map_to_list. }
  apply max_list_elem_of_le in H0. lia.
Qed.

(** ** Temporary directories *)

Lemma rmtree_sub (key : list string) (fs0 : filesystem) (k : list string) (e : fsentry) :
  rmtree key fs0 !! k = Some e → fs0 !! k = Some e.
Proof. unfold rmtree. by intros [? _]%map_lookup_filter_Some. Qed.

Lemma rmtree_frame (key : list string) (fs0 : filesystem) (k : list string) :
  ¬ key `prefix_of` k → rmtree key fs0 !! k = fs0 !! k.
Proof.
  intros Hk. unfold rmtree. destruct (fs0 !! k) as [e|] eqn:He.
  - by apply map_lookup_filter_Some_2.
  - apply map_lookup_filter_None. by left.
Qed.

(** ** What closing does to the world *)

#[global] Instance closes_to_preorder : PreOrder closes_to.
Proof.
  split.
  - intros w. unfold closes_to. repeat split; try done.
    + intros x n Hn. exists n. repeat split; try done. by left.
    + intros h hd Hh. exists hd. repeat split; try done. by left.
  - intros w1 w2 w3 (Hc1 & Hl1 & Hh1 & Hn1 & Hd1 & Hs1 & Hf1)
                    (Hc2 & Hl2 & Hh2 & Hn2 & Hd2 & Hs2 & Hf2).
    unfold closes_to. repeat split; try congruence.
    + intros x n Hn. destruct (Hn1 x n Hn) as (n' & Hn' & ? & ? & ? & ? & Ht1).
      destruct (Hn2 x n' Hn') as (n'' & Hn'' & ? & ? & ? & ? & Ht2).
      exists n''. repeat split; try congruence.
      destruct Ht2 as [Ht2|Ht2]; [|by right].
      destruct Ht1 as [Ht1|Ht1]; [left | right]; congruence.
    + intros h hd Hh.
      destruct (Hd1 h hd Hh) as (hd' & Hh' & Hfile1 & Ho1).
      destruct (Hd2 h hd' Hh') as (hd'' & Hh'' & Hfile2 & Ho2).
      exists hd''. repeat split; try congruence.
      destruct Ho2 as [Ho2|[Ho2 Hgone2]].
      * destruct Ho1 as [Ho1|[Ho1 Hgone1]]; [left; congruence|].
        right. split; [congruence|]. intros p Hp.
        specialize (Hgone1 p Hp).
        destruct (fs w3 !! path_key (cwd w1) p) as [e|] eqn:He; [|done].
        apply Hs2 in He. congruence.
      * right. split; [done|]. intros p Hp. rewrite <- Hc1.
        apply Hgone2. congruence.
    + intros k e He. by apply Hs1, Hs2.
    + intros k sz Hk Hsz Htmp. apply Hf2; [by apply Hf1 | done |].
      intros (x & n' & t & Hx & Ht & Hp). apply Htmp.
      assert (x < length (nodes w1))%nat as Hlt.
      { rewrite <- Hl1. by eapply lookup_lt_Some. }
      apply lookup_lt_is_Some in Hlt as [n Hn].
      destruct (Hn1 x n Hn) as (n'' & Hn'' & _ & _ & _ & _ & Ht1).
      assert (n'' = n') as -> by congruence.
      exists x, n, t. split; [done|]. split; [|by rewrite <- Hc1].
      destruct Ht1 as [Ht1|Ht1]; congruence.
Qed.

Lemma closes_to_wf w w' : closes_to w w' → wf w → wf w'.
Proof.
  intros (_ & Hl & Hh & Hn & _) Hwf x n' Hx.
  assert (x < length (nodes w))%nat as Hlt.
  { rewrite <- Hl. by eapply lookup_lt_Some. }
  apply lookup_lt_is_Some in Hlt as [n Hn0].
  destruct (Hn x n Hn0) as (n'' & Hn'' & Hch & Hha & _).
  assert (n'' = n') as -> by congruence.
  destruct (Hwf x n Hn0) as [H1 H2].
  unfold node_ok. by rewrite Hch, Hha, Hl, Hh.
Qed.

Lemma closes_to_settled w w' h : closes_to w w' → settled w h → settled w' h.
Proof.
  intros (Hc & _ & Hh & _ & Hd & Hs & _) Hset hd' p Hh' Hfile Hopen He.
  assert (h < length (handlers w))%nat as Hlt.
  { rewrite <- Hh. by eapply lookup_lt_Some. }
  apply lookup_lt_is_Some in Hlt as [hd Hhd].
  destruct (Hd h hd Hhd) as (hd'' & Hh'' & Hfile' & Ho).
  assert (hd'' = hd') as -> by congruence.
  destruct Ho as [Ho|[Ho _]]; [|congruence].
  apply (Hset hd p Hhd); [congruence | congruence|].
  rewrite Hc in He. by apply Hs.
Qed.

(** Lines 119-124: one handler. *)
Lemma remove_if_empty_spec h w :
  (h < length (handlers w))%nat →
  ∃ w', remove_if_empty h w = (Return tt, w') ∧ closes_to w w' ∧ settled w' h.
Proof.
  intros [hd Hhd]%lookup_lt_is_Some. unfold remove_if_empty.
  erewrite bind_step; [|unfold get_handler; by rewrite Hhd].
  assert (Hsame : ∀ p, h_file hd = Some p →
            (h_open hd = true → fs w !! path_key (cwd w) p ≠ Some (File 0)) →
            settled w h).
  { intros p Hp Hne hd0 p0 H0 Hf0 Ho0. assert (hd0 = hd) as -> by congruence.
    assert (p0 = p) as -> by congruence. by apply Hne. }
  destruct (h_file hd) as [p|] eqn:Hfile.
  - destruct (h_open hd) eqn:Hopen.
    + erewrite bind_step; [|reflexivity].
      destruct (decide (fs w !! path_key (cwd w) p = Some (File 0))) as [He|He].
      * eexists. split; [reflexivity|]. split.
        -- unfold closes_to. cbn. repeat split.
           ++ by rewrite length_alter.
           ++ intros x n Hn. exists n. repeat split; try done. by left.
           ++ intros h0 hd0 H0. destruct (decide (h0 = h)) as [->|Hne].
              ** rewrite list_lookup_alter_eq, Hhd. cbn. eexists.
                 split; [done|]. assert (hd0 = hd) as -> by congruence.
                 split; [done|]. right. split; [done|].
                 intros p0 Hp0. assert (p0 = p) as -> by congruence.
                 apply lookup_delete_eq.
              ** rewrite list_lookup_alter_ne by done. exists hd0.
                 repeat split; try done. by left.
           ++ by intros k e [_ H]%lookup_delete_Some.
           ++ intros k sz Hk Hsz _. rewrite lookup_delete_ne; [done|].
              intros <-. rewrite He in Hk. injection Hk as <-. done.
        -- intros hd0 p0 H0 Hf0 Ho0. cbn in H0.
           rewrite list_lookup_alter_eq, Hhd in H0. cbn in H0.
           injection H0 as <-. done.
      * exists w. split; [done|]. split; [reflexivity|]. by eapply Hsame.
    + exists w. split; [done|]. split; [reflexivity|].
      eapply Hsame; [done|]. congruence.
  - exists w. split; [done|]. split; [reflexivity|].
    intros hd0 p0 H0 Hf0. congruence.
Qed.

Lemma for_each_remove_spec l : ∀ w,
  Forall (fun h => h < length (handlers w))%nat l →
  ∃ w', for_each l remove_if_empty w = (Return tt, w')
        ∧ closes_to w w' ∧ Forall (settled w') l.
Proof.
  induction l as [|h l IH]; intros w Hl; cbn [for_each].
  - exists w. split; [done|]. split; [reflexivity | constructor].
  - apply Forall_cons in Hl as [Hh Hl].
    destruct (remove_if_empty_spec h w Hh) as (w1 & H1 & Hc1 & Hs1).
    destruct (IH w1) as (w' & H' & Hc' & Hs').
    { destruct Hc1 as (_ & _ & Hlen & _). by rewrite Hlen. }
    exists w'. erewrite bind_step; [|exact H1].
    split; [done|]. split; [by etrans|].
    constructor; [by eapply closes_to_settled | done].
Qed.

Lemma walk_closes_to w (fuel : nat) (top : list string) :
  closes_to w (with_fs (walk_rmdir fuel top top) w).
Proof.
  unfold closes_to. cbn. repeat split.
  - intros x n Hn. exists n. repeat split; try done. by left.
  - intros h hd Hh. exists hd. repeat split; try done. by left.
  - intros k e. apply walk_rmdir_sub.
  - intros k sz Hk _ _. by apply walk_rmdir_file.
Qed.

Lemma tmp_closes_to w x n t :
  nodes w !! x = Some n → _tmpdir n = Some t →
  closes_to w (with_nodes (alter (set_tmpdir None) x)
                 (with_fs (rmtree (path_key (cwd w) t)) w)).
Proof.
  intros Hn Ht. unfold closes_to. cbn. repeat split.
  - by rewrite length_alter.
  - intros x0 n0 H0. destruct (decide (x0 = x)) as [->|Hne].
    + rewrite list_lookup_alter_eq, H0. cbn. eexists. split; [done|].
      repeat split. by right.
    + rewrite list_lookup_alter_ne by done. exists n0.
      repeat split; try done. by left.
  - intros h hd Hh. exists hd. repeat split; try done. by left.
  - intros k e. apply rmtree_sub.
  - intros k sz Hk _ Htmp. rewrite rmtree_frame; [done|].
    intros Hp. apply Htmp. by exists x, n, t.
Qed.

Lemma closes_to_node w w' x n :
  closes_to w w' → nodes w !! x = Some n →
  ∃ n', nodes w' !! x = Some n'
        ∧ children n' = children n ∧ _handlers n' = _handlers n
        ∧ cleanup_empty n' = cleanup_empty n ∧ _directory n' = _directory n.
Proof.
  intros (_ & _ & _ & Hn & _) Hx.
  destruct (Hn x n Hx) as (n' & ? & ? & ? & ? & ? & _). by exists n'.
Qed.

(** Lines 116-132: what [close] does to the node itself, once the children
    are closed. *)
Lemma own_cleanup_spec x w n :
  wf w → nodes w !! x = Some n →
  ∃ w_f w',
    (if cleanup_empty n
     then for_each (_handlers n) remove_if_empty w = (Return tt, w_f)
          ∧ Forall (settled w_f) (_handlers n)
     else w_f = w)
    ∧ closes_to w w_f ∧ closes_to w_f w'
    ∧ (cleanup_empty n = true →
       ∀ d names, _directory n = Some d → d ≠ "" → names ≠ [] →
         dir_chain (fs w_f) (path_key (cwd w) d) names →
         no_entries (fs w_f) (path_key (cwd w) d ++ names) →
         fs w' !! (path_key (cwd w) d ++ names) = None)
    ∧ (n <- get_node x ;;
       (if cleanup_empty n then
          for_each (_handlers n) remove_if_empty ;;
          match _directory n with
          | Some d =>
            if decide (d = "") then ret tt
            else
              w <- get_world ;;
              let top := path_key (cwd w) d in
              modify (with_fs (walk_rmdir (fs_height (fs w)) top top))
          | None => ret tt
          end
        else ret tt) ;;
       n <- get_node x ;;
       match _tmpdir n with
       | Some tmp =>
         w <- get_world ;;
         modify (with_fs (rmtree (path_key (cwd w) tmp))) ;;
         upd_node x (set_tmpdir None)
       | None => ret tt
       end) w = (Return tt, w').
Proof.
  intros Hwf Hn.
  erewrite bind_step; [|unfold get_node; by rewrite Hn].
  (* the part guarded by [cleanup_empty] *)
  assert (Hmid : ∃ w_f w_w,
    (if cleanup_empty n
     then for_each (_handlers n) remove_if_empty w = (Return tt, w_f)
          ∧ Forall (settled w_f) (_handlers n)
     else w_f = w)
    ∧ closes_to w w_f ∧ closes_to w_f w_w
    ∧ (cleanup_empty n = true →
       ∀ d names, _directory n = Some d → d ≠ "" → names ≠ [] →
         dir_chain (fs w_f) (path_key (cwd w) d) names →
         no_entries (fs w_f) (path_key (cwd w) d ++ names) →
         fs w_w !! (path_key (cwd w) d ++ names) = None)
    ∧ (if cleanup_empty n then
         for_each (_handlers n) remove_if_empty ;;
         match _directory n with
         | Some d =>
           if decide (d = "") then ret tt
           else
             w <- get_world ;;
             let top := path_key (cwd w) d in
             modify (with_fs (walk_rmdir (fs_height (fs w)) top top))
         | None => ret tt
         end
       else ret tt) w = (Return tt, w_w)).
  { destruct (cleanup_empty n) eqn:Hce.
    - destruct (for_each_remove_spec (_handlers n) w) as (w_f & Hloop & Hcf & Hset).
      { by destruct (Hwf x n Hn). }
      assert (Hcwd : cwd w_f = cwd w) by by destruct Hcf.
      destruct (_directory n) as [d|] eqn:Hdir.
      + destruct (decide (d = "")) as [->|Hd].
        * exists w_f, w_f. split; [done|]. split; [done|]. split; [reflexivity|].
          split; [by intros _ d names [= <-]|].
          by erewrite bind_step; [|exact Hloop].
        * exists w_f.
          set (top := path_key (cwd w) d).
          exists (with_fs (walk_rmdir (fs_height (fs w_f)) top top) w_f).
          split; [done|]. split; [done|]. split; [apply walk_closes_to|].
          split.
          -- intros _ d' names [= <-] _ Hnames Hch Hno. cbn [fs with_fs].
             fold top in Hch, Hno |- *.
             apply walk_rmdir_removes; [done | done | |].
             ++ pose proof (Hch (length names) ltac:(lia)) as Hk.
                rewrite take_ge in Hk by done.
                apply fs_height_key in Hk. rewrite length_app in Hk. lia.
             ++ intros Heq. apply (f_equal length) in Heq.
                rewrite length_app in Heq. destruct names; [done|]. cbn in Heq. lia.
          -- erewrite bind_step; [|exact Hloop].
             erewrite bind_step; [|reflexivity]. cbn zeta. rewrite Hcwd.
             reflexivity.
      + exists w_f, w_f. split; [done|]. split; [done|]. split; [reflexivity|].
        split; [by intros _ d names [=]|].
        by erewrite bind_step; [|exact Hloop].
    - exists w, w. split; [done|]. split; [reflexivity|]. split; [reflexivity|].
      split; [done | reflexivity]. }
  destruct Hmid as (w_f & w_w & Hloop & Hcf & Hcw & Hwalk & Hrun).
  erewrite bind_step; [|exact Hrun].
  assert (Hcww : closes_to w w_w) by by etrans.
  destruct (closes_to_node _ _ _ _ Hcww Hn) as (n_w & Hn_w & _).
  erewrite bind_step; [|unfold get_node; by rewrite Hn_w].
  destruct (_tmpdir n_w) as [t|] eqn:Ht.
  - exists w_f. eexists. split; [exact Hloop|]. split; [done|].
    assert (Hct := tmp_closes_to w_w x n_w t Hn_w Ht).
    split; [by etrans|]. split.
    + intros Hce d names Hd Hne Hnames Hch Hno.
      specialize (Hwalk Hce d names Hd Hne Hnames Hch Hno).
      destruct Hct as (_ & _ & _ & _ & _ & Hsub & _).
      match goal with
      | |- ?m !! ?k = None => destruct (m !! k) as [e|] eqn:He; [|done]
      end.
      apply Hsub in He. congruence.
    + reflexivity.
  - exists w_f, w_w. split; [exact Hloop|]. split; [done|]. split; [done|].
    split; [done | reflexivity].
Qed.

(** [close] on a well-formed world: it returns, whatever the bound on the
    recursion as long as it covers the nodes created after [x]. *)
Lemma close_spec (m : nat) : ∀ x w n,
  wf w → nodes w !! x = Some n → (length (nodes w) - x ≤ m)%nat →
  ∃ w_c w_f w',
    for_each (children n) close w = (Return tt, w_c)
    ∧ closes_to w w_c
    ∧ (if cleanup_empty n
       then for_each (_handlers n) remove_if_empty w_c = (Return tt, w_f)
            ∧ Forall (settled w_f) (_handlers n)
       else w_f = w_c)
    ∧ closes_to w_c w_f ∧ closes_to w_f w'
    ∧ (cleanup_empty n = true →
       ∀ d names, _directory n = Some d → d ≠ "" → names ≠ [] →
         dir_chain (fs w_f) (path_key (cwd w) d) names →
         no_entries (fs w_f) (path_key (cwd w) d ++ names) →
         fs w' !! (path_key (cwd w) d ++ names) = None)
    ∧ (∀ fuel, (length (nodes w) - x ≤ fuel)%nat →
         close_rec fuel x w = (Return tt, w')).
Proof.
  induction m as [|m IHm]; intros x w n Hwf Hn Hm.
  { apply lookup_lt_Some in Hn. lia. }
  pose proof (lookup_lt_Some _ _ _ Hn) as Hx.
  assert (Hkids : ∀ cs w0,
    wf w0 → length (nodes w0) = length (nodes w) →
    Forall (fun c => x < c < length (nodes w))%nat cs →
    ∃ w_c, for_each cs close w0 = (Return tt, w_c)
           ∧ closes_to w0 w_c
           ∧ ∀ fuel, (length (nodes w) - x ≤ S fuel)%nat →
               for_each cs (close_rec fuel) w0 = (Return tt, w_c)).
  { induction cs as [|c cs IHcs]; intros w0 Hwf0 Hlen Hcs.
    - exists w0. split; [done|]. split; [reflexivity | done].
    - apply Forall_cons in Hcs as [Hc Hcs].
      assert (c < length (nodes w0))%nat as [nc Hnc]%lookup_lt_is_Some by lia.
      destruct (IHm c w0 nc Hwf0 Hnc) as (wa & wb & w1 & _ & Ha & _ & Hb & Hc1 & _ & Hrun);
        [lia|].
      assert (Hc01 : closes_to w0 w1) by (etrans; [exact Ha|]; by etrans).
      destruct (IHcs w1) as (w_c & Hrest & Hcc & Hfuel).
      { by eapply closes_to_wf. }
      { destruct Hc01 as (_ & Hl & _). congruence. }
      { done. }
      exists w_c. cbn [for_each]. split; [|split].
      + erewrite bind_step; [exact Hrest|]. unfold close. apply Hrun. lia.
      + by etrans.
      + intros fuel Hf. erewrite bind_step; [by apply Hfuel|].
        apply Hrun. lia. }
  destruct (Hkids (children n) w Hwf eq_refl) as (w_c & Hloop & Hcc & Hfuel).
  { by destruct (Hwf x n Hn). }
  destruct (closes_to_node _ _ _ _ Hcc Hn) as (n_c & Hn_c & _ & Hh & Hce & Hdir).
  assert (Hcwd : cwd w_c = cwd w) by by destruct Hcc.
  destruct (own_cleanup_spec x w_c n_c) as (w_f & w' & Hown & Hcf & Hcw & Hwalk & Hrun);
    [by eapply closes_to_wf | done |].
  rewrite Hh, Hce, Hdir, Hcwd in *.
  exists w_c, w_f, w'. repeat (split; [done|]).
  intros [|fuel] Hf; [lia|]. cbn [close_rec].
  erewrite bind_step; [|unfold get_node; by rewrite Hn].
  erewrite bind_step; [|by apply Hfuel].
  exact Hrun.
Qed.


Lemma wf_check_sound w : wf_check w = true → wf w.
Proof.
  unfold wf_check. intros H x n Hx.
  apply Is_true_true, forallb_True in H. rewrite Forall_forall in H.
  specialize (H (x, n)). cbn beta iota in H.
  assert (Hin : (x, n) ∈ imap pair (nodes w)).
  { apply elem_of_lookup_imap. by exists x, n. }
  apply H in Hin. apply andb_True in Hin as [H1 H2].
  apply forallb_True in H1, H2. split.
  - eapply Forall_impl; [exact H1|]. intros c [Hc1 Hc2]%andb_True.
    apply Is_true_true in Hc1, Hc2.
    apply Nat.ltb_lt in Hc1, Hc2. lia.
  - eapply Forall_impl; [exact H2|]. intros h Hh%Is_true_true.
    by apply Nat.ltb_lt in Hh.
Qed.


(** * Handlers given to a node for itself and its descendants *)


Lemma modify_Return f w (a : unit) w1 : modify f w = (Return a, w1) → w1 = f w.
Proof. unfold modify. by intros [= _ <-]. Qed.

Lemma for_each_Return_elem {A} (R : relation World) `{!PreOrder R}
    (l : list A) (body : A → M unit) (a : A) w w' :
  (∀ x, follows R (body x)) →
  for_each l body w = (Return tt, w') → a ∈ l →
  ∃ w1 w2, R w w1 ∧ body a w1 = (Return tt, w2) ∧ R w2 w'.
Proof.
  intros Hb. revert w. induction l as [|x l IH]; intros w Hrun Ha.
  - by apply elem_of_nil in Ha.
  - cbn [for_each] in Hrun.
    apply bind_Return in Hrun as ([] & wm & Hx & Hrest).
    apply elem_of_cons in Ha as [->|Ha].
    + exists w, wm. split; [reflexivity|]. split; [done|].
      eapply follows_outcome; [|exact Hrest]. by apply follows_for_each.
    + destruct (IH wm Hrest Ha) as (w1 & w2 & H1 & H2 & H3).
      exists w1, w2. split; [|done]. etrans; [|exact H1].
      eapply follows_outcome; [apply Hb | exact Hx].
Qed.

#[global] Instance grows_node_preorder : PreOrder grows_node.
Proof.
  split.
  - intros n. by split_and!.
  - intros n1 n2 n3 (L1 & C1 & H1 & D1) (L2 & C2 & H2 & D2).
    split_and!; [congruence | by etrans..].
Qed.

#[global] Instance grows_preorder : PreOrder grows.
Proof.
  split.
  - intros w. split_and!; [|by eauto|done].
    intros y n Hn. by exists n.
  - intros w1 w2 w3 (N1 & L1 & D1) (N2 & L2 & D2). split_and!.
    + intros y n Hn. destruct (N1 y n Hn) as (n2 & Hn2 & G2).
      destruct (N2 y n2 Hn2) as (n3 & Hn3 & G3).
      exists n3. split; [done|]. by etrans.
    + intros name lg Hlg. destruct (L1 name lg Hlg) as (lg2 & Hlg2 & G2).
      destruct (L2 name lg2 Hlg2) as (lg3 & Hlg3 & G3).
      exists lg3. split; [done|]. by etrans.
    + auto.
Qed.

(** What does not touch nodes or loggers. *)
Lemma grows_frame w w' :
  nodes w' = nodes w → loggers w' = loggers w → grows w w'.
Proof.
  intros Hn Hl. split_and!.
  - intros y n Hy. exists n. by rewrite Hn.
  - intros name lg Hlg. exists lg. by rewrite Hl.
  - unfold loggers_nodup. by rewrite Hl.
Qed.

Lemma descends_grows w w' x y : grows w w' → descends w x y → descends w' x y.
Proof.
  intros (N & _ & _). induction 1 as [x|x n c y Hn Hc _ IH].
  - constructor.
  - destruct (N x n Hn) as (n' & Hn' & _ & Hsub & _).
    eapply descends_child; [exact Hn' | by apply Hsub | exact IH].
Qed.

Lemma registered_grows w w' y : grows w w' → registered w y → registered w' y.
Proof.
  intros (N & L & _) (n & lg & Hn & Hlg).
  destruct (N y n Hn) as (n' & Hn' & Hl & _).
  destruct (L _ lg Hlg) as (lg' & Hlg' & _).
  exists n', lg'. by rewrite Hl.
Qed.

Lemma attached_grows w w' y h : grows w w' → attached w y h → attached w' y h.
Proof.
  intros (N & L & _) (n & lg & Hn & Hh & Hd & Hlg & Hin).
  destruct (N y n Hn) as (n' & Hn' & Hl & _ & Hsub & Hdsub).
  destruct (L _ lg Hlg) as (lg' & Hlg' & Hlsub).
  exists n', lg'. rewrite Hl. split_and!; auto.
Qed.

Lemma upd_node_grows x f :
  (∀ n, grows_node n (f n)) → follows grows (upd_node x f).
Proof.
  intros Hf w. unfold upd_node, modify. cbn. split_and!; cbn.
  - intros y n Hn. destruct (decide (y = x)) as [->|Hne].
    + exists (f n). split; [|apply Hf]. by rewrite list_lookup_alter_eq, Hn.
    + exists n. split; [|reflexivity]. by rewrite list_lookup_alter_ne.
  - by eauto.
  - done.
Qed.

Lemma alter_logger_grows (f : Logger → Logger) name w :
  (∀ l, lg_handlers l ⊆ lg_handlers (f l)) →
  (∀ l, NoDup (lg_handlers l) → NoDup (lg_handlers (f l))) →
  grows w (with_loggers (alter f name) w).
Proof.
  intros Hsub Hnd. split_and!; cbn.
  - intros y n Hn. by exists n.
  - intros nm lg Hlg. destruct (decide (nm = name)) as [->|Hne].
    + exists (f lg). by rewrite lookup_alter_eq, Hlg.
    + exists lg. by rewrite lookup_alter_ne.
  - intros Hall nm lg. cbn. destruct (decide (nm = name)) as [->|Hne].
    + rewrite lookup_alter_eq.
      destruct (loggers w !! name) as [l0|] eqn:E; cbn; intros [= <-].
      apply Hnd. by eapply Hall.
    + rewrite lookup_alter_ne by done. apply Hall.
Qed.

Lemma Handler_setLevel_grows h v : follows grows (Handler_setLevel h v).
Proof.
  unfold Handler_setLevel. destruct (checkLevel v); intros w;
    by apply grows_frame.
Qed.

Lemma StreamHandler_grows : follows grows StreamHandler.
Proof. intros w. by apply grows_frame. Qed.

Lemma FileHandler_grows p : follows grows (FileHandler p).
Proof. intros w. by apply grows_frame. Qed.

Lemma TemporaryDirectory_grows : follows grows TemporaryDirectory.
Proof. intros w. by apply grows_frame. Qed.

Lemma with_fs_grows f : follows grows (modify (with_fs f)).
Proof. intros w. by apply grows_frame. Qed.

Lemma Logger_setLevel_grows lg v : follows grows (Logger_setLevel lg v).
Proof.
  unfold Logger_setLevel. destruct (checkLevel v); intros w; [reflexivity|].
  by apply alter_logger_grows.
Qed.

Lemma Logger_addHandler_grows lg h : follows grows (Logger_addHandler lg h).
Proof.
  intros w. apply alter_logger_grows.
  - intros l. destruct (decide _); [done|]. cbn.
    intros a Ha. apply elem_of_app. by left.
  - intros l Hnd. destruct (decide _) as [|Hnot]; [done|]. cbn.
    apply NoDup_app. split; [done|]. split; [|apply NoDup_singleton].
    intros a Ha ->%list_elem_of_singleton. by apply Hnot.
Qed.

Lemma getLogger_grows name : follows grows (getLogger name).
Proof.
  intros w. unfold getLogger.
  set (key := if decide (name = "") then "root" else name).
  destruct (loggers w !! key) as [l|] eqn:E; [reflexivity|].
  split_and!; cbn.
  - intros y n Hn. by exists n.
  - intros nm lg Hlg. exists lg. split; [|done].
    rewrite lookup_insert_ne; [done|]. intros <-. congruence.
  - intros Hall nm lg. cbn. destruct (decide (nm = key)) as [->|Hne].
    + rewrite lookup_insert_eq. intros [= <-]. apply NoDup_nil_2.
    + rewrite lookup_insert_ne by done. apply Hall.
Qed.

#[global] Hint Resolve Handler_setLevel_grows StreamHandler_grows
  FileHandler_grows TemporaryDirectory_grows with_fs_grows
  Logger_setLevel_grows Logger_addHandler_grows getLogger_grows : follows.

Ltac grows_node_solve :=
  intros ?; split_and!; cbn; try done;
  intros ? ?; apply elem_of_app; by left.

#[global] Hint Extern 2 (follows grows (upd_node _ _)) =>
  apply upd_node_grows; grows_node_solve : follows.

Lemma set_log_level_grows self v : follows grows (set_log_level self v).
Proof. unfold set_log_level. follows_auto. Qed.

Lemma addHandler_rec_grows fuel : ∀ self h incl setl,
  follows grows (addHandler_rec fuel self h incl setl).
Proof.
  induction fuel as [|fuel IH]; intros self h incl setl; cbn [addHandler_rec].
  - follows_auto.
  - follows_auto; try apply IH.
Qed.

Lemma addHandler_grows self h incl setl :
  follows grows (addHandler self h incl setl).
Proof. intros w. apply addHandler_rec_grows. Qed.

#[global] Hint Resolve set_log_level_grows addHandler_grows : follows.

Lemma save_to_file_grows self path incl v :
  follows grows (save_to_file self path incl v).
Proof. unfold save_to_file. follows_auto. Qed.

#[global] Hint Resolve save_to_file_grows : follows.

Lemma save_to_directory_rec_grows fuel : ∀ self path,
  follows grows (save_to_directory_rec fuel self path).
Proof.
  induction fuel as [|fuel IH]; intros self path;
    cbn [save_to_directory_rec].
  - follows_auto.
  - follows_auto; try apply IH.
Qed.

Lemma save_to_directory_grows self path :
  follows grows (save_to_directory self path).
Proof. intros w. apply save_to_directory_rec_grows. Qed.

#[global] Hint Resolve save_to_directory_grows : follows.

Lemma add_child_loop_grows fuel : ∀ self child p,
  follows grows (add_child_loop fuel self child p).
Proof.
  induction fuel as [|fuel IH]; intros self child [p|];
    cbn [add_child_loop]; follows_auto; try apply IH.
Qed.

(** The part of [addHandler] for the node itself (lines 161-166). *)
Lemma addHandler_rec_own fuel x h s w w' :
  addHandler_rec (S fuel) x h true s w = (Return tt, w') →
  ∃ w4 n4,
    grows w w4 ∧ nodes w4 !! x = Some n4
    ∧ (registered w x → attached w4 x h)
    ∧ for_each (children n4)
        (fun child => addHandler_rec fuel child h true s) w4 = (Return tt, w').
Proof.
  intros Hrun. cbn [addHandler_rec] in Hrun.
  apply bind_Return in Hrun as ([] & w1 & H1 & Hrun).
  assert (G1 : grows w w1).
  { eapply follows_outcome; [|exact H1]. follows_auto. }
  apply bind_Return in Hrun as (n & w1' & Hget & Hrun).
  apply get_node_Return in Hget as [-> Hn].
  apply bind_Return in Hrun as ([] & w2 & H2 & Hrun).
  assert (G2 : grows w1 w2).
  { eapply follows_outcome; [|exact H2]. follows_auto. }
  apply modify_Return in H2.
  apply bind_Return in Hrun as ([] & w3 & H3 & Hrun).
  assert (G3 : grows w2 w3).
  { eapply follows_outcome; [|exact H3]. follows_auto. }
  apply modify_Return in H3.
  apply bind_Return in Hrun as ([] & w4 & H4 & Hrun).
  assert (G4 : grows w3 w4).
  { eapply follows_outcome; [|exact H4]. follows_auto. }
  apply modify_Return in H4.
  apply bind_Return in Hrun as (n4 & w4' & Hget & Hrun).
  apply get_node_Return in Hget as [-> Hn4].
  exists w4, n4. split_and!; [| done | | done].
  - etrans; [exact G1|]. etrans; [exact G2|]. by etrans.
  - intros Hreg. apply (registered_grows _ _ _ G1) in Hreg.
    destruct Hreg as (n' & lg & Hn' & Hlg).
    assert (n' = n) as -> by congruence.
    subst w4 w3 w2. cbn in Hn4 |- *.
    rewrite !list_lookup_alter_eq, Hn in Hn4. cbn in Hn4. injection Hn4 as <-.
    eexists _, _. split_and!.
    + cbn. by rewrite !list_lookup_alter_eq, Hn.
    + cbn. apply elem_of_app. right. by apply list_elem_of_singleton.
    + cbn. apply elem_of_app. right. by apply list_elem_of_singleton.
    + cbn. by rewrite lookup_alter_eq, Hlg.
    + destruct (decide _) as [Hin|]; [exact Hin|]. cbn.
      apply elem_of_app. right. by apply list_elem_of_singleton.
Qed.

Lemma addHandler_rec_reaches fuel : ∀ x h s w w',
  addHandler_rec fuel x h true s w = (Return tt, w') →
  ∀ y, descends w x y → registered w y → attached w' y h.
Proof.
  induction fuel as [|fuel IH]; intros x h s w w' Hrun y Hy Hreg;
    [discriminate|].
  destruct (addHandler_rec_own _ _ _ _ _ _ Hrun)
    as (w4 & n4 & G & Hn4 & Hown & Hkids).
  assert (Hbody : ∀ c, follows grows (addHandler_rec fuel c h true s))
    by (intros c; apply addHandler_rec_grows).
  inversion Hy as [|x' n c y' Hn Hc Hcy]; subst.
  - eapply attached_grows; [|by apply Hown].
    eapply follows_outcome; [|exact Hkids].
    apply follows_for_each; [tc_solve|]. intros c. apply Hbody.
  - destruct G as (N & L & D). destruct (N x n Hn) as (n' & Hn' & _ & Hsub & _).
    assert (n' = n4) as -> by congruence.
    destruct (for_each_Return_elem grows _ _ c _ _ Hbody Hkids (Hsub c Hc))
      as (wa & wb & Ga & Hc_run & Gb).
    assert (Gwa : grows w wa) by (etrans; [|exact Ga]; done).
    eapply attached_grows; [exact Gb|].
    eapply IH; [exact Hc_run | |].
    + by eapply descends_grows.
    + by eapply registered_grows.
Qed.

Lemma with_nodes_Return f w (a : unit) w1 :
  modify (with_nodes f) w = (Return a, w1) →
  nodes w1 = f (nodes w) ∧ loggers w1 = loggers w.
Proof. unfold modify. by intros [= _ <-]. Qed.

Lemma getLogger_Return name w key w1 :
  getLogger name w = (Return key, w1) →
  nodes w1 = nodes w ∧ is_Some (loggers w1 !! key).
Proof.
  unfold getLogger. destruct (loggers w !! _) as [l|] eqn:E; intros [= <- <-].
  - by rewrite E.
  - cbn. rewrite lookup_insert_eq. by eauto.
Qed.

Lemma StreamHandler_Return w h w1 :
  StreamHandler w = (Return h, w1) →
  nodes w1 = nodes w ∧ loggers w1 = loggers w.
Proof. by intros [= _ <-]. Qed.

(** The constructor with a parent that has handler [h] to hand on. *)
Lemma init_attaches name lvl p ce w c w' h :
  attached w p h →
  EthenoLogger_init name lvl (Some p) ce w = (Return c, w') →
  c = length (nodes w) ∧ descends w' p c ∧ attached w' c h ∧ grows w w'.
Proof.
  intros Hp Hrun. unfold EthenoLogger_init in Hrun.
  apply bind_Return in Hrun as (w0 & w0' & H0 & Hrun).
  injection H0 as <- <-.
  set (self := length (nodes w)) in *.
  apply bind_Return in Hrun as ([] & w1 & H1 & Hrun).
  apply with_nodes_Return in H1 as [N1 L1].
  apply bind_Return in Hrun as (l & w1' & Hl & Hrun).
  assert (w1' = w1) as ->.
  { destruct lvl; try (by injection Hl as _ <-).
    pose proof (log_level_world p w1) as Hw. by rewrite Hl in Hw. }
  clear Hl.
  apply bind_Return in Hrun as ([] & w2 & H2 & Hrun).
  apply with_nodes_Return in H2 as [N2 L2].
  apply bind_Return in Hrun as (key & w3 & H3 & Hrun).
  assert (G3 : grows w2 w3).
  { eapply follows_outcome; [|exact H3]. apply getLogger_grows. }
  apply getLogger_Return in H3 as [N3 Hkey].
  apply bind_Return in Hrun as ([] & w4 & H4 & Hrun).
  apply with_nodes_Return in H4 as [N4 L4].
  apply bind_Return in Hrun as (h0 & w5 & H5 & Hrun).
  apply StreamHandler_Return in H5 as [N5 L5].
  apply bind_Return in Hrun as ([] & w6 & H6 & Hrun).
  apply with_nodes_Return in H6 as [N6 L6].
  (* the world when the new object has its fields *)
  assert (Hnodes : nodes w6
                   = alter (set_handlers [h0]) self
                       (alter (set_logger key) self
                          (alter (set_level l) self (nodes w1))))
    by congruence.
  assert (Hlog : loggers w6 = loggers w3) by congruence.
  assert (G6 : grows w w6).
  { destruct G3 as (_ & L & D). split_and!.
    - intros y n Hn. exists n. split; [|reflexivity].
      pose proof (lookup_lt_Some _ _ _ Hn) as Hlt.
      rewrite Hnodes, N1, !list_lookup_alter_ne by (unfold self; lia).
      by rewrite lookup_app_l.
    - intros nm lg. rewrite Hlog, <- L1, <- L2. apply L.
    - unfold loggers_nodup in *. rewrite Hlog, <- L1, <- L2. exact D. }
  assert (Hself : registered w6 self).
  { destruct Hkey as [lg Hlg]. eexists _, lg. split.
    - rewrite Hnodes, N1, !list_lookup_alter_eq.
      rewrite lookup_app_r by (unfold self; lia).
      replace (self - length (nodes w))%nat with 0%nat by (unfold self; lia).
      reflexivity.
    - cbn. by rewrite Hlog. }
  clear N1 L1 N2 L2 N3 Hkey N4 L4 N5 L5 N6 L6 Hnodes Hlog G3.
  apply bind_Return in Hrun as ([] & w7 & H7 & Hrun).
  assert (G7 : grows w6 w7).
  { eapply follows_outcome; [|exact H7]. follows_auto. }
  clear H7.
  apply bind_Return in Hrun as ([] & w8 & Hadd & Hrun).
  assert (Gtail : grows w8 w' ∧ c = self).
  { apply bind_Return in Hrun as (n8 & w8' & Hget & Hrun).
    apply get_node_Return in Hget as [-> _].
    apply bind_Return in Hrun as ([] & w9 & H9 & Hrun).
    apply bind_Return in Hrun as ([] & w10 & H10 & Hrun).
    injection Hrun as <- <-. split; [|done].
    etrans; [eapply follows_outcome; [|exact H9]; follows_auto|].
    eapply follows_outcome; [|exact H10]. follows_auto. }
  destruct Gtail as [Gtail ->]. clear Hrun.
  (* [_add_child] *)
  unfold _add_child in Hadd.
  apply bind_Return in Hadd as (np & w7' & Hget & Hadd).
  apply get_node_Return in Hget as [-> Hnp].
  destruct (decide (self ∈ children np)); [discriminate|].
  apply bind_Return in Hadd as ([] & wa & Ha & Hadd).
  apply bind_Return in Hadd as (nc & wa' & Hget & Hadd).
  apply get_node_Return in Hget as [-> Hnc].
  apply bind_Return in Hadd as ([] & wb & Hb & Hadd).
  apply bind_Return in Hadd as (wb0 & wb' & Hget & Hadd).
  injection Hget as <- <-.
  assert (Ga : grows w7 wa).
  { eapply follows_outcome; [|exact Ha]. follows_auto. }
  assert (Gb : grows wa wb).
  { eapply follows_outcome; [|exact Hb]. follows_auto. }
  assert (Hchild : ∃ na, nodes wa !! p = Some na ∧ self ∈ children na).
  { apply with_nodes_Return in Ha as [Na _]. rewrite Na.
    rewrite list_lookup_alter_eq, Hnp. cbn. eexists. split; [done|].
    cbn. apply elem_of_app. right. by apply list_elem_of_singleton. }
  (* the loop of lines 148-151, first turn *)
  destruct (length (nodes wb)) as [|fuel] eqn:Hfuel; [discriminate|].
  cbn [add_child_loop] in Hadd.
  apply bind_Return in Hadd as (npb & wb' & Hget & Hadd).
  apply get_node_Return in Hget as [-> Hnpb].
  apply bind_Return in Hadd as ([] & wc & Hloop & Hadd).
  assert (Gc : grows wc w8).
  { eapply follows_outcome; [|exact Hadd]. follows_auto.
    apply add_child_loop_grows. }
  assert (Gwb : grows w wb) by (etrans; [exact G6|]; etrans; [exact G7|]; by etrans).
  assert (Hin : h ∈ _descendant_handlers npb).
  { destruct (attached_grows _ _ _ _ Gwb Hp) as (n' & _ & Hn' & _ & Hd & _).
    congruence. }
  destruct (for_each_Return_elem grows _ _ h _ _
              (fun h' => addHandler_grows self h' true true) Hloop Hin)
    as (wd & we & Gd & Hh & Ge).
  assert (Gh : grows wd we).
  { eapply follows_outcome; [|exact Hh]. apply addHandler_grows. }
  assert (Hreg : registered wd self).
  { eapply registered_grows; [|exact Hself].
    etrans; [exact G7|]. etrans; [exact Ga|]. etrans; [exact Gb|]. exact Gd. }
  assert (Gend : grows we w') by (etrans; [exact Ge|]; by etrans).
  split; [done|]. split_and!.
  - destruct Hchild as (na & Hna & Hc).
    eapply descends_grows.
    + etrans; [exact Gb|]. etrans; [exact Gd|]. etrans; [exact Gh|]. exact Gend.
    + eapply descends_child; [exact Hna | exact Hc | constructor].
  - eapply attached_grows; [exact Gend|].
    eapply (addHandler_rec_reaches _ _ _ _ _ _ Hh); [constructor | exact Hreg].
  - etrans; [exact Gwb|]. etrans; [exact Gd|]. etrans; [exact Gh|]. exact Gend.
Qed.



(** * The logger tree: the code at particular inputs *)

(** C8 at the failing input: creating a child under a parent that has no
    directory raises [TypeError], because line 146 hands the
    [TemporaryDirectory] object, not its name, to [save_to_directory].  The
    child is by then listed by the parent and has no directory.  Under a
    parent saving to [/logs] the child gets [/logs/child], and adding it a
    second time raises [ValueError]. *)
Lemma child_of_bare_root_raises :
  (child_of_bare_root start).1 = Raise TypeError
  ∧ children <$> nodes (child_of_bare_root start).2 !! 0%nat = Some [1%nat]
  ∧ _directory <$> nodes (child_of_bare_root start).2 !! 1%nat = Some None
  ∧ _tmpdir <$> nodes (child_of_bare_root start).2 !! 1%nat
    = Some (Some "/tmp/tmp0")
  ∧ _directory <$> nodes world_root_and_child !! 1%nat
    = Some (Some "/logs/child")
  ∧ (_add_child 0 1 world_root_and_child).1 = Raise ValueError.
Proof. repeat split; vm_compute; reflexivity. Qed.


(** C4 at the failing input: the relative path [logs] is stored as
    [/home/u/logs], and the second call, with the same path, compares the
    stored directory with [logs] and raises [ValueError].  With the
    absolute path [/logs] the second call does nothing, and a call with
    another path raises [ValueError] and leaves the directory. *)
Lemma same_relative_directory_raises :
  (same_relative_directory_twice start).1 = Raise ValueError
  ∧ _directory <$> nodes (same_relative_directory_twice start).2 !! 0%nat
    = Some (Some "/home/u/logs")
  ∧ (same_absolute_directory_twice start).1 = Return tt
  ∧ _handlers <$> nodes (same_absolute_directory_twice start).2 !! 0%nat
    = Some [0; 1]%nat
  ∧ (save_to_directory 0 (PathStr "/other") world_node_logs).1
    = Raise ValueError
  ∧ _directory <$> nodes (save_to_directory 0 (PathStr "/other")
                            world_node_logs).2 !! 0%nat
    = Some (Some "/logs").
Proof. repeat split; vm_compute; reflexivity. Qed.

(** C9 at the failing input: the level named ["notset"] is looked up in
    module [logging] and taken as it is, 0, although 0 is not among the
    levels line 242 accepts; given as the number 0 it is refused. *)
Lemma level_named_notset_accepted :
  (level_by_name_notset start).1 = Return tt
  ∧ _log_level <$> nodes (level_by_name_notset start).2 !! 0%nat
    = Some (PInt NOTSET)
  ∧ recognized NOTSET = false
  ∧ (level_by_number_notset start).1 = Raise ValueError.
Proof. repeat split; vm_compute; reflexivity. Qed.


(** C6 fails on the code for a node named [run]: its own log file is
    [run.log], so the three files are [run2.log], [run3.log], [run4.log]. *)
Lemma logged_files_of_node_named_run :
  (three_logged_files "run" start).1
  = Return ["/logs/run2.log"; "/logs/run3.log"; "/logs/run4.log"]
  ∧ (three_logged_files "run" start).1
    ≠ Return ["/logs/run.log"; "/logs/run2.log"; "/logs/run3.log"].
Proof. split; [vm_compute; reflexivity | vm_compute; discriminate]. Qed.

(** * More on the stream tailer *)

(** X1.  A delimiter that is not exactly one byte (for instance [b'\r\n']) is
    never equal to what [read(1)] returns from a byte stream: every byte
    goes to the buffer, and nothing is handed to the logger. *)
Theorem long_delimiter_never_splits (nl bs buf : list byte)
    (out : list record) (got : bool) :
  length nl ≠ 1%nat →
  drain nl (bytes_stream bs) buf out got
  = mkDrained false [] (buf ++ bs) out (got || bool_decide (bs ≠ [])).
Proof.
  intros Hnl. revert buf got.
  induction bs as [|b bs IH]; intros buf got.
  - cbn. by rewrite app_nil_r, orb_false_r.
  - cbn [bytes_stream fmap list_fmap drain feed]. fold (bytes_stream bs).
    rewrite decide_False by (intros <-; by apply Hnl).
    rewrite IH, <- app_assoc. cbn. f_equal.
    rewrite ?bool_decide_true by done. by destruct got.
Qed.

Lemma long_delimiter_never_splits_witness :
  drain [x0d; x0a] (bytes_stream [x61; x0d; x0a; x62]) [] [] false
  = mkDrained false [] [x61; x0d; x0a; x62] [] true.
Proof.
  apply (long_delimiter_never_splits [x0d; x0a] [x61; x0d; x0a; x62] [] []
           false).
  cbn. lia.
Defined.

(** Draining a byte stream whose lines all decode, from an empty buffer. *)
Lemma drain_decodable d bs msgs out got :
  mapM UTF8.decode (lines_of d bs).1 = Some msgs →
  drain [d] (bytes_stream bs) [] out got
  = mkDrained false [] (lines_of d bs).2 (out ++ info_records msgs)
              (got || bool_decide (bs ≠ [])).
Proof.
  intros Hm. pose proof (drain_lines d bs [] out got) as H.
  destruct (lines_of d bs) as [ls r] eqn:Hl. cbn [fst snd] in *.
  destruct ls as [|l ls].
  - cbn in Hm. injection Hm as <-. rewrite H. unfold info_records. cbn.
    by rewrite app_nil_r.
  - rewrite (H msgs Hm). f_equal.
    destruct bs; [done|]. rewrite bool_decide_true by done.
    by rewrite orb_true_r.
Qed.

Lemma for_streams_bytes d : ∀ bss msgss pre_s pre_b t got,
  Forall2 (fun bs msgs => mapM UTF8.decode (lines_of d bs).1 = Some msgs)
          bss msgss →
  _newline_char t = [d] →
  streams t = pre_s ++ (bytes_stream <$> bss) →
  _buffers t = pre_b ++ ((fun _ => []) <$> bss) →
  length pre_s = length pre_b →
  for_streams (seq (length pre_s) (length bss)) t got
  = ({| cls := cls t; logger := logger t ++ info_records (mjoin msgss);
        streams := pre_s ++ ((fun _ => []) <$> bss);
        _newline_char := [d];
        _buffers := pre_b ++ ((fun bs => (lines_of d bs).2) <$> bss);
        _done := _done t; alive_polls := alive_polls t |},
     got || existsb (fun bs => bool_decide (bs ≠ [])) bss, false).
Proof.
  induction bss as [|bs bss IH]; intros msgss pre_s pre_b t got Hm Hnl Hs Hb Hlen.
  - apply Forall2_nil_inv_l in Hm as ->. cbn.
    destruct t as [c lg ss nl bufs dn al]. cbn in *. subst.
    by rewrite !app_nil_r, orb_false_r.
  - apply Forall2_cons_inv_l in Hm as (msgs & msgss' & Hmsgs & Hm & ->).
    cbn [length seq for_streams].
    rewrite Hs, Hb, Hnl.
    rewrite (lookup_app_r pre_s), Nat.sub_diag by lia.
    rewrite (lookup_app_r pre_b) by lia.
    replace (length pre_s - length pre_b)%nat with 0%nat by lia.
    cbn [fmap list_fmap lookup list_lookup].
    rewrite (drain_decodable d bs msgs (logger t) got Hmsgs).
    cbn [d_raised d_got_byte].
    set (t1 := with_stream t (length pre_s) _).
    assert (H1s : streams t1 = (pre_s ++ [[]]) ++ (bytes_stream <$> bss)).
    { unfold t1. cbn. rewrite Hs. cbn.
      rewrite <- (Nat.add_0_r (length pre_s)), insert_app_r. cbn.
      by rewrite <- app_assoc. }
    assert (H1b : _buffers t1
                  = (pre_b ++ [(lines_of d bs).2]) ++ ((fun _ => []) <$> bss)).
    { unfold t1. cbn. rewrite Hb, Hlen. cbn.
      rewrite <- (Nat.add_0_r (length pre_b)), insert_app_r. cbn.
      by rewrite <- app_assoc. }
    specialize (IH msgss' (pre_s ++ [[]]) (pre_b ++ [(lines_of d bs).2]) t1
                  (got || bool_decide (bs ≠ [])) Hm).
    rewrite length_app in IH. cbn [length] in IH.
    rewrite Nat.add_1_r in IH.
    rewrite IH; [| exact Hnl | done | done | rewrite !length_app; cbn; lia].
    unfold t1. cbn. unfold info_records.
    rewrite fmap_app, <- !app_assoc, orb_assoc. reflexivity.
Qed.

Lemma pass_fresh_tailer (c : tailer_class) (d : byte)
    (bss : list (list byte)) (msgss : list (list (list N))) (polls : nat) :
  Forall2 (fun bs msgs => mapM UTF8.decode (lines_of d bs).1 = Some msgs)
          bss msgss →
  pass (StreamLogger_init c (bytes_stream <$> bss) [d] polls)
  = ({| cls := c; logger := info_records (mjoin msgss);
        streams := (fun _ => []) <$> bss;
        _newline_char := [d];
        _buffers := (fun bs => (lines_of d bs).2) <$> bss;
        _done := false; alive_polls := polls |},
     existsb (fun bs => bool_decide (bs ≠ [])) bss).
Proof.
  intros Hm. unfold pass.
  pose proof (for_streams_bytes d bss msgss [] []
                (StreamLogger_init c (bytes_stream <$> bss) [d] polls) false
                Hm eq_refl eq_refl) as H.
  cbn [length app] in H. cbn [streams StreamLogger_init].
  rewrite length_fmap. rewrite H; [done| |done].
  cbn. rewrite length_fmap. clear.
  generalize 0%nat. induction bss as [|bs bss IH]; intros i; [done|].
  cbn. f_equal. apply IH.
Qed.

(** X2.  One pass over a freshly made tailer whose streams deliver bytes one at
    a time, all lines being valid UTF-8: the streams are drained one after
    the other, so the lines of an earlier stream are logged before those of
    a later one; what follows the last delimiter of a stream stays in its
    buffer; there is a buffer for every stream, and the tailer is not
    marked done. *)
Theorem pass_streams_in_order (c : tailer_class) (d : byte)
    (bss : list (list byte)) (msgss : list (list (list N))) (polls : nat) :
  Forall2 (fun bs msgs => mapM UTF8.decode (lines_of d bs).1 = Some msgs)
          bss msgss →
  pass (StreamLogger_init c (bytes_stream <$> bss) [d] polls)
  = ({| cls := c; logger := info_records (mjoin msgss);
        streams := (fun _ => []) <$> bss;
        _newline_char := [d];
        _buffers := (fun bs => (lines_of d bs).2) <$> bss;
        _done := false; alive_polls := polls |},
     existsb (fun bs => bool_decide (bs ≠ [])) bss).
Proof. apply pass_fresh_tailer. Qed.

Lemma pass_streams_in_order_witness :
  logger (pass (StreamLogger_init StreamLoggerC
                  (bytes_stream <$> [[x61; x0a; x62]; [x63; x0a]])
                  [nl_byte] 0)).1
  = [(INFO, [97%N]); (INFO, [99%N])].
Proof.
  rewrite (pass_streams_in_order StreamLoggerC nl_byte
             [[x61; x0a; x62]; [x63; x0a]] [[[97%N]]; [[99%N]]] 0).
  - reflexivity.
  - repeat constructor.
Defined.

Lemma with_stream_same t i r s buf g :
  streams t !! i = Some s → _buffers t !! i = Some buf →
  with_stream t i (mkDrained r s buf (logger t) g) = t.
Proof.
  intros Hs Hb. destruct t as [c lg ss nl bufs dn al]. unfold with_stream.
  cbn in *. by rewrite !list_insert_id.
Qed.

(** A pass over streams that are all exhausted reads nothing and changes
    nothing. *)
Lemma for_streams_idle idx : ∀ t got,
  Forall (fun s => s = []) (streams t) →
  Forall (fun i => i < length (_buffers t))%nat idx →
  Forall (fun i => i < length (streams t))%nat idx →
  for_streams idx t got = (t, got, false).
Proof.
  induction idx as [|i idx IH]; intros t got Hs Hb Hl; [done|].
  apply Forall_cons in Hb as [Hi Hb]. apply Forall_cons in Hl as [Hi' Hl].
  cbn [for_streams].
  destruct (lookup_lt_is_Some_2 _ _ Hi) as [buf Hbuf].
  destruct (lookup_lt_is_Some_2 _ _ Hi') as [s Hsi].
  rewrite Hsi, Hbuf.
  assert (s = []) as ->.
  { rewrite Forall_forall in Hs. apply Hs. by eapply list_elem_of_lookup_2. }
  cbn [drain d_raised d_got_byte].
  rewrite (with_stream_same t i false [] buf got Hsi Hbuf).
  by apply IH.
Qed.

Lemma pass_idle t :
  Forall (fun s => s = []) (streams t) →
  length (_buffers t) = length (streams t) →
  pass t = (t, false).
Proof.
  intros Hs Hlen. unfold pass. rewrite for_streams_idle; [done | done | |].
  - rewrite Hlen. apply Forall_forall. intros i Hi%elem_of_seq. lia.
  - apply Forall_forall. intros i Hi%elem_of_seq. lia.
Qed.

(** X3.  A plain [StreamLogger] does not end with its streams: when byte
    streams that deliver only decodable lines are exhausted, every further
    turn of the outer loop reads nothing and sleeps.  Whatever number of
    turns is allowed, [run] has not returned. *)
Theorem plain_tailer_outlives_streams (d : byte) (bss : list (list byte))
    (msgss : list (list (list N))) (polls fuel : nat) :
  Forall2 (fun bs msgs => mapM UTF8.decode (lines_of d bs).1 = Some msgs)
          bss msgss →
  run fuel (StreamLogger_init StreamLoggerC (bytes_stream <$> bss) [d] polls)
  = None.
Proof.
  intros Hm.
  set (t0 := StreamLogger_init StreamLoggerC (bytes_stream <$> bss) [d] polls).
  pose proof (pass_fresh_tailer StreamLoggerC d bss msgss polls Hm)
    as Hp. fold t0 in Hp.
  match type of Hp with _ = (?t, _) => set (t1 := t) in * end.
  assert (Hidle : pass t1 = (t1, false)).
  { apply pass_idle.
    - unfold t1. cbn. apply Forall_fmap, Forall_forall. done.
    - unfold t1. cbn. by rewrite !length_fmap. }
  assert (Hpoll : ∀ n, poll_loop (S n) t1 = Some t1).
  { intros n. cbn [poll_loop]. by rewrite Hidle. }
  assert (Hrun : ∀ n, run n t1 = None).
  { induction n as [|n IH]; [done|].
    cbn [run]. unfold is_done. cbn. rewrite Hidle. cbn. exact IH. }
  destruct fuel as [|fuel]; [done|].
  cbn [run]. unfold is_done. cbn [cls t0 StreamLogger_init _done].
  cbn [poll_loop]. rewrite Hp.
  destruct (existsb _ bss) eqn:Hg; cbn [negb orb _done t1].
  - apply pass_consumes in Hp.
    destruct (pending t0) as [|k]; [lia|].
    rewrite Hpoll. cbn. apply Hrun.
  - cbn. apply Hrun.
Qed.

Lemma plain_tailer_outlives_streams_witness :
  run 5 (StreamLogger_init StreamLoggerC
           (bytes_stream <$> [[x61; x0a; x62]; [x63; x0a]]) [nl_byte] 0)
  = None.
Proof.
  apply (plain_tailer_outlives_streams nl_byte [[x61; x0a; x62]; [x63; x0a]]
           [[[97%N]]; [[99%N]]] 0 5).
  repeat constructor.
Defined.

(** What a pass leaves alone. *)
Lemma for_streams_keeps idx : ∀ t got,
  cls (for_streams idx t got).1.1 = cls t
  ∧ alive_polls (for_streams idx t got).1.1 = alive_polls t.
Proof.
  induction idx as [|i idx IH]; intros t got; cbn [for_streams]; [done|].
  destruct (streams t !! i) as [s|]; [|done].
  destruct (_buffers t !! i) as [buf|]; [|done].
  destruct (d_raised _); [done|].
  destruct (IH (with_stream t i (drain (_newline_char t) s buf (logger t) got))
               (d_got_byte (drain (_newline_char t) s buf (logger t) got)))
    as [H1 H2].
  by rewrite H1, H2.
Qed.

Lemma pass_keeps t :
  cls (pass t).1 = cls t ∧ alive_polls (pass t).1 = alive_polls t.
Proof.
  unfold pass.
  pose proof (for_streams_keeps (seq 0 (length (streams t))) t false) as H.
  destruct (for_streams _ t false) as [[t' got] raised]. cbn in *.
  by destruct raised.
Qed.

Lemma poll_loop_keeps n : ∀ t t',
  poll_loop n t = Some t' →
  cls t' = cls t ∧ alive_polls t' = alive_polls t
  ∧ ∃ msgs, logger t' = logger t ++ info_records msgs.
Proof.
  induction n as [|n IH]; intros t t' H; [done|].
  cbn [poll_loop] in H.
  pose proof (pass_keeps t) as [Hc Ha].
  destruct (pass_logs_info t) as [msgs Hm].
  destruct (pass t) as [t1 got]. cbn [fst] in *.
  destruct (negb got || _done t1).
  - injection H as <-. split; [done|]. split; [done|]. by exists msgs.
  - apply IH in H as (Hc' & Ha' & msgs' & Hm').
    split; [congruence|]. split; [congruence|].
    exists (msgs ++ msgs'). rewrite Hm', Hm. unfold info_records.
    by rewrite fmap_app, app_assoc.
Qed.

Lemma process_run k : ∀ t,
  cls t ≠ StreamLoggerC → alive_polls t = k →
  (∀ fuel, (fuel ≤ k)%nat → run fuel t = None)
  ∧ ∃ t', run (S k) t = Some t'
          ∧ ∃ msgs, logger t' = logger t ++ info_records msgs.
Proof.
  induction k as [|k IH]; intros t Hc Ha.
  - split.
    + intros fuel Hf. by replace fuel with 0%nat by lia.
    + exists t. cbn [run]. unfold is_done. rewrite Ha.
      destruct (cls t); [done| |]; (split; [done|]; exists [];
        by rewrite app_nil_r).
  - set (t0 := {| cls := cls t; logger := logger t; streams := streams t;
                  _newline_char := _newline_char t; _buffers := _buffers t;
                  _done := _done t; alive_polls := k |}).
    assert (Hd : is_done t = (false, t0)).
    { unfold is_done. rewrite Ha. by destruct (cls t). }
    destruct (poll_loop_total (S (pending t0)) t0) as [t1 H1]; [lia|].
    destruct (poll_loop_keeps _ _ _ H1) as (Hc1 & Ha1 & msgs1 & Hm1).
    destruct (IH t1) as [Hnone (t' & Hsome & msgs & Hm)]; [by rewrite Hc1 | done|].
    split.
    + intros fuel Hf. destruct fuel as [|fuel]; [done|].
      cbn [run]. rewrite Hd, H1. cbn. apply Hnone. lia.
    + exists t'. cbn [run]. rewrite Hd, H1. cbn. split; [exact Hsome|].
      exists (msgs1 ++ msgs). rewrite Hm, Hm1. cbn. unfold info_records.
      by rewrite fmap_app, app_assoc.
Qed.

(** X4.  A [ProcessLogger] or [PtyLogger] stops exactly when its process is
    gone: as long as [poll()] (or [isalive()]) reports a running process the
    outer loop goes on, whatever was read and whether or not a pass failed,
    and at the first turn that finds the process ended [run] returns.  On
    the way the logger only receives INFO records. *)
Theorem process_tailer_ends_with_process (t : StreamLogger) :
  cls t ≠ StreamLoggerC →
  (∀ fuel, (fuel ≤ alive_polls t)%nat → run fuel t = None)
  ∧ ∃ t', run (S (alive_polls t)) t = Some t'
          ∧ ∃ msgs, logger t' = logger t ++ info_records msgs.
Proof. intros Hc. by apply process_run. Qed.

Lemma process_tailer_ends_with_process_witness :
  run 2 tailer_process = None ∧ is_Some (run 3 tailer_process).
Proof.
  destruct (process_tailer_ends_with_process tailer_process) as [H1 H2].
  - discriminate.
  - split; [apply H1; cbn; lia|].
    destruct H2 as (t' & H2 & _). by exists t'.
Defined.

(** * Text streams: what is encoded can be decoded *)

Section utf8.

Local Open Scope N_scope.

Local Ltac nlia := zify; Z.to_euclidean_division_equations; lia.

Lemma low6_add m k : m < 64 → N.land (64 * k + m) 63 = m.
Proof.
  intros H. change 63 with (N.ones 6). rewrite N.land_ones.
  change (2^6) with 64. nlia.
Qed.

Lemma of_N_small n : n ≤ 255 → ∃ b, Byte.of_N n = Some b ∧ Byte.to_N b = n.
Proof.
  intros H. destruct (Byte.of_N n) as [b|] eqn:E.
  - exists b. split; [done|]. by apply Byte.to_of_N.
  - apply Byte.of_N_None_iff in E. lia.
Qed.

Lemma in_range_spec lo hi b :
  UTF8.in_range lo hi b = true ↔ lo ≤ Byte.to_N b ≤ hi.
Proof.
  unfold UTF8.in_range. rewrite andb_true_iff, !N.leb_le. done.
Qed.

Lemma decode_cons b0 r0 :
  UTF8.decode (b0 :: r0)
  = let n0 := Byte.to_N b0 in
    if n0 <? 128 then cons n0 <$> UTF8.decode r0
    else if UTF8.in_range 194 223 b0 then
      match r0 with
      | b1 :: r1 =>
        if UTF8.in_range 128 191 b1
        then cons (64 * (n0 - 192) + UTF8.low6 b1) <$> UTF8.decode r1
        else None
      | _ => None
      end
    else if UTF8.in_range 224 239 b0 then
      match r0 with
      | b1 :: b2 :: r2 =>
        let lo := if n0 =? 224 then 160 else 128 in
        let hi := if n0 =? 237 then 159 else 191 in
        if UTF8.in_range lo hi b1 && UTF8.in_range 128 191 b2
        then cons (4096 * (n0 - 224) + 64 * UTF8.low6 b1 + UTF8.low6 b2)
               <$> UTF8.decode r2
        else None
      | _ => None
      end
    else if UTF8.in_range 240 244 b0 then
      match r0 with
      | b1 :: b2 :: b3 :: r3 =>
        let lo := if n0 =? 240 then 144 else 128 in
        let hi := if n0 =? 244 then 143 else 191 in
        if UTF8.in_range lo hi b1 && UTF8.in_range 128 191 b2
           && UTF8.in_range 128 191 b3
        then cons (262144 * (n0 - 240) + 4096 * UTF8.low6 b1
                   + 64 * UTF8.low6 b2 + UTF8.low6 b3) <$> UTF8.decode r3
        else None
      | _ => None
      end
    else None.
Proof. reflexivity. Qed.

Lemma in_range_true lo hi b :
  lo ≤ Byte.to_N b ≤ hi → UTF8.in_range lo hi b = true.
Proof. by intros H%in_range_spec. Qed.

Lemma in_range_false lo hi b :
  ¬ (lo ≤ Byte.to_N b ≤ hi) → UTF8.in_range lo hi b = false.
Proof.
  intros H. destruct (UTF8.in_range lo hi b) eqn:E; [|done].
  by apply in_range_spec in E.
Qed.

(** One character: what [encode] produces, [decode] reads back, whatever
    follows. *)
Lemma decode_encode_char c bs rest :
  UTF8.encode_char c = Some bs →
  UTF8.decode (bs ++ rest) = cons c <$> UTF8.decode rest.
Proof.
  unfold UTF8.encode_char, UTF8.bytes_of.
  destruct (c <? 128) eqn:H1; [apply N.ltb_lt in H1|apply N.ltb_ge in H1].
  { destruct (of_N_small c) as (b & Hb & Eb); [lia|].
    cbn. rewrite Hb. cbn. intros [= <-]. cbn [app].
    rewrite decode_cons. cbn zeta. rewrite Eb.
    by rewrite (proj2 (N.ltb_lt c 128)). }
  destruct (c <? 2048) eqn:H2; [apply N.ltb_lt in H2|apply N.ltb_ge in H2].
  { destruct (of_N_small (192 + c / 64)) as (b0 & Hb0 & E0); [nlia|].
    destruct (of_N_small (128 + c mod 64)) as (b1 & Hb1 & E1); [nlia|].
    cbn. rewrite Hb0, Hb1. cbn. intros [= <-]. cbn [app].
    rewrite decode_cons. cbn zeta.
    rewrite (proj2 (N.ltb_ge (Byte.to_N b0) 128)) by (rewrite E0; nlia).
    rewrite (in_range_true 194 223 b0) by (rewrite E0; nlia).
    rewrite (in_range_true 128 191 b1) by (rewrite E1; nlia).
    unfold UTF8.low6. rewrite E0, E1.
    replace (128 + c mod 64) with (64 * 2 + c mod 64) by lia.
    rewrite low6_add by nlia. f_equal. f_equal. nlia. }
  destruct (c <? 65536) eqn:H3; [apply N.ltb_lt in H3|apply N.ltb_ge in H3].
  { destruct ((55296 <=? c) && (c <=? 57343)) eqn:Hs; [done|].
    assert (Hns : ¬ (55296 ≤ c ≤ 57343)).
    { intros [Ha Hb]. apply N.leb_le in Ha, Hb. by rewrite Ha, Hb in Hs. }
    destruct (of_N_small (224 + c / 4096)) as (b0 & Hb0 & E0); [nlia|].
    destruct (of_N_small (128 + (c / 64) mod 64)) as (b1 & Hb1 & E1); [nlia|].
    destruct (of_N_small (128 + c mod 64)) as (b2 & Hb2 & E2); [nlia|].
    cbn. rewrite Hb0, Hb1, Hb2. cbn. intros [= <-]. cbn [app].
    rewrite decode_cons. cbn zeta.
    rewrite (proj2 (N.ltb_ge (Byte.to_N b0) 128)) by (rewrite E0; nlia).
    rewrite (in_range_false 194 223 b0) by (rewrite E0; nlia).
    rewrite (in_range_true 224 239 b0) by (rewrite E0; nlia).
    rewrite (in_range_true _ _ b1).
    2:{ rewrite E0, E1.
        destruct (224 + c / 4096 =? 224) eqn:Ea;
          [apply N.eqb_eq in Ea|apply N.eqb_neq in Ea];
          (destruct (224 + c / 4096 =? 237) eqn:Eb;
           [apply N.eqb_eq in Eb|apply N.eqb_neq in Eb]); nlia. }
    rewrite (in_range_true 128 191 b2) by (rewrite E2; nlia).
    cbn [andb]. unfold UTF8.low6. rewrite E0, E1, E2.
    replace (128 + (c / 64) mod 64) with (64 * 2 + (c / 64) mod 64) by lia.
    replace (128 + c mod 64) with (64 * 2 + c mod 64) by lia.
    rewrite !low6_add by nlia. f_equal. f_equal. nlia. }
  destruct (c <=? 1114111) eqn:H4; [apply N.leb_le in H4|done].
  destruct (of_N_small (240 + c / 262144)) as (b0 & Hb0 & E0); [nlia|].
  destruct (of_N_small (128 + (c / 4096) mod 64)) as (b1 & Hb1 & E1); [nlia|].
  destruct (of_N_small (128 + (c / 64) mod 64)) as (b2 & Hb2 & E2); [nlia|].
  destruct (of_N_small (128 + c mod 64)) as (b3 & Hb3 & E3); [nlia|].
  cbn. rewrite Hb0, Hb1, Hb2, Hb3. cbn. intros [= <-]. cbn [app].
  rewrite decode_cons. cbn zeta.
  rewrite (proj2 (N.ltb_ge (Byte.to_N b0) 128)) by (rewrite E0; nlia).
  rewrite (in_range_false 194 223 b0) by (rewrite E0; nlia).
  rewrite (in_range_false 224 239 b0) by (rewrite E0; nlia).
  rewrite (in_range_true 240 244 b0) by (rewrite E0; nlia).
  rewrite (in_range_true _ _ b1).
  2:{ rewrite E0, E1.
      destruct (240 + c / 262144 =? 240) eqn:Ea;
        [apply N.eqb_eq in Ea|apply N.eqb_neq in Ea];
        (destruct (240 + c / 262144 =? 244) eqn:Eb;
         [apply N.eqb_eq in Eb|apply N.eqb_neq in Eb]); nlia. }
  rewrite (in_range_true 128 191 b2) by (rewrite E2; nlia).
  rewrite (in_range_true 128 191 b3) by (rewrite E3; nlia).
  cbn [andb]. unfold UTF8.low6. rewrite E0, E1, E2, E3.
  replace (128 + (c / 4096) mod 64) with (64 * 2 + (c / 4096) mod 64) by lia.
  replace (128 + (c / 64) mod 64) with (64 * 2 + (c / 64) mod 64) by lia.
  replace (128 + c mod 64) with (64 * 2 + c mod 64) by lia.
  rewrite !low6_add by nlia. f_equal. f_equal. nlia.
Qed.

End utf8.

Section text.

Local Open Scope N_scope.

Local Ltac nlia := zify; Z.to_euclidean_division_equations; lia.

Lemma encodable_encode_char c :
  encodable c → ∃ bs, UTF8.encode_char c = Some bs.
Proof.
  intros [Hmax Hs]. unfold UTF8.encode_char, UTF8.bytes_of.
  destruct (c <? 128) eqn:H1; [apply N.ltb_lt in H1|apply N.ltb_ge in H1].
  { destruct (of_N_small c) as (b & Hb & _); [lia|].
    cbn. rewrite Hb. by eexists. }
  destruct (c <? 2048) eqn:H2; [apply N.ltb_lt in H2|apply N.ltb_ge in H2].
  { destruct (of_N_small (192 + c / 64)) as (b0 & Hb0 & _); [nlia|].
    destruct (of_N_small (128 + c mod 64)) as (b1 & Hb1 & _); [nlia|].
    cbn. rewrite Hb0, Hb1. by eexists. }
  destruct (c <? 65536) eqn:H3; [apply N.ltb_lt in H3|apply N.ltb_ge in H3].
  { destruct ((55296 <=? c) && (c <=? 57343)) eqn:Hsur.
    { apply andb_true_iff in Hsur as [Ha Hb]. apply N.leb_le in Ha, Hb.
      by destruct Hs. }
    destruct (of_N_small (224 + c / 4096)) as (b0 & Hb0 & _); [nlia|].
    destruct (of_N_small (128 + (c / 64) mod 64)) as (b1 & Hb1 & _); [nlia|].
    destruct (of_N_small (128 + c mod 64)) as (b2 & Hb2 & _); [nlia|].
    cbn. rewrite Hb0, Hb1, Hb2. by eexists. }
  rewrite (proj2 (N.leb_le c 1114111)) by done.
  destruct (of_N_small (240 + c / 262144)) as (b0 & Hb0 & _); [nlia|].
  destruct (of_N_small (128 + (c / 4096) mod 64)) as (b1 & Hb1 & _); [nlia|].
  destruct (of_N_small (128 + (c / 64) mod 64)) as (b2 & Hb2 & _); [nlia|].
  destruct (of_N_small (128 + c mod 64)) as (b3 & Hb3 & _); [nlia|].
  cbn. rewrite Hb0, Hb1, Hb2, Hb3. by eexists.
Qed.

(** Only the line feed is encoded as the byte [0a]; no character is
    encoded as nothing. *)
Lemma encode_char_newline c bs :
  UTF8.encode_char c = Some bs → bs ≠ [] ∧ (bs = [x0a] ↔ c = 10).
Proof.
  unfold UTF8.encode_char, UTF8.bytes_of.
  destruct (c <? 128) eqn:H1; [apply N.ltb_lt in H1|apply N.ltb_ge in H1].
  { destruct (of_N_small c) as (b & Hb & Eb); [lia|].
    cbn. rewrite Hb. cbn. intros [= <-]. split; [done|]. split.
    - intros [= ->]. by rewrite <- Eb.
    - intros ->. f_equal. cbn in Hb. by injection Hb as <-. }
  assert (Hlong : ∀ b0 b1 (r : list byte), c ≠ 10 →
            b0 :: b1 :: r ≠ [] ∧ (b0 :: b1 :: r = [x0a] ↔ c = 10)).
  { intros b0 b1 r Hc. split; [done|]. split; [done|]. intros ->. done. }
  assert (Hc : c ≠ 10) by lia.
  destruct (c <? 2048); [|destruct (c <? 65536);
    [destruct (_ && _); [done|]|destruct (c <=? 1114111); [|done]]];
    cbn;
    repeat match goal with
           | |- context [Byte.of_N ?x] => destruct (Byte.of_N x)
           end; cbn; try done; intros [= <-]; by apply Hlong.
Qed.

Lemma encode_cons c s :
  UTF8.encode (c :: s)
  = bs ← UTF8.encode_char c; rest ← UTF8.encode s; Some (bs ++ rest).
Proof.
  unfold UTF8.encode. cbn.
  destruct (UTF8.encode_char c) as [bs|]; [|done]. cbn.
  by destruct (mapM UTF8.encode_char s).
Qed.

Lemma encode_app s1 s2 b1 b2 :
  UTF8.encode s1 = Some b1 → UTF8.encode s2 = Some b2 →
  UTF8.encode (s1 ++ s2) = Some (b1 ++ b2).
Proof.
  revert b1. induction s1 as [|c s1 IH]; intros b1 H1 H2.
  - cbn in H1. injection H1 as <-. done.
  - cbn [app]. rewrite encode_cons in *.
    destruct (UTF8.encode_char c) as [bs|]; [|done]. cbn in *.
    destruct (UTF8.encode s1) as [r|]; [|done]. cbn in H1.
    injection H1 as <-. rewrite (IH r eq_refl H2). cbn.
    by rewrite app_assoc.
Qed.

(** Round trip: a text that can be encoded is what its encoding decodes
    to. *)
Lemma decode_encode s : ∀ bs,
  UTF8.encode s = Some bs → UTF8.decode bs = Some s.
Proof.
  induction s as [|c s IH]; intros bs H.
  - cbn in H. by injection H as <-.
  - rewrite encode_cons in H.
    destruct (UTF8.encode_char c) as [b|] eqn:Hc; [|done]. cbn in H.
    destruct (UTF8.encode s) as [r|]; [|done]. cbn in H. injection H as <-.
    rewrite (decode_encode_char c b r Hc), (IH r eq_refl). done.
Qed.

(** Draining a text stream, with [pend] the characters of the line under
    way and [buf] their encoding. *)
Lemma drain_text cs : ∀ pend buf out got,
  Forall encodable cs → UTF8.encode pend = Some buf →
  ∃ rb, UTF8.encode (text_lines cs).2 = Some rb
    ∧ drain [x0a] (text_stream cs) buf out got
      = mkDrained false []
          (match (text_lines cs).1 with [] => buf ++ rb | _ => rb end)
          (out ++ info_records
                    (match (text_lines cs).1 with
                     | [] => []
                     | l :: ls => (pend ++ l) :: ls
                     end))
          (got || bool_decide (cs ≠ [])).
Proof.
  induction cs as [|c cs IH]; intros pend buf out got Hok Hbuf.
  - exists []. split; [done|]. cbn. by rewrite !app_nil_r, orb_false_r.
  - apply Forall_cons in Hok as [Hc Hok].
    destruct (encodable_encode_char c Hc) as [bs Hbs].
    destruct (encode_char_newline c bs Hbs) as [Hne Hnl].
    assert (Henc : UTF8.encode [c] = Some bs).
    { rewrite encode_cons, Hbs. cbn. by rewrite app_nil_r. }
    cbn [text_stream fmap list_fmap drain]. fold (text_stream cs).
    rewrite Henc. cbn [text_lines].
    destruct (text_lines cs) as [ls r] eqn:Hl. unfold feed.
    destruct (decide (c = 10)) as [->|Hc10].
    + rewrite decide_True by (by apply Hnl).
      rewrite (decode_encode pend buf Hbuf). cbn [mbind option_bind].
      destruct (IH [] [] (log out pend) true Hok eq_refl) as (rb & Hrb & Hd).
      cbn [fst snd] in *.
      exists rb. split; [done|]. rewrite Hd. cbn [fst snd].
      unfold log, info_records.
      rewrite (bool_decide_true (_ :: _ ≠ [])) by done.
      destruct ls; cbn; rewrite ?app_nil_r, <- ?app_assoc, ?orb_true_r;
        reflexivity.
    + rewrite decide_False by (intros E; by apply Hc10, Hnl).
      destruct (IH (pend ++ [c]) (buf ++ bs) out true Hok) as (rb & Hrb & Hd).
      { by apply encode_app. }
      cbn [fst snd] in *.
      destruct ls as [|l ls]; cbn [fst snd].
      * rewrite encode_cons, Hbs, Hrb. cbn.
        eexists. split; [done|]. rewrite Hd.
        rewrite <- app_assoc. f_equal.
        rewrite ?bool_decide_true by done. by destruct got.
      * exists rb. split; [done|]. rewrite Hd.
        rewrite <- app_assoc. cbn. f_equal.
        rewrite ?bool_decide_true by done. by destruct got.
Qed.

End text.

(** X5.  A text stream never makes the tailer fail to decode.  When the reads of
    a stream return characters ([str]), each is encoded and, at a line
    feed, the bytes gathered are decoded again: if every character can be
    encoded (none is a lone surrogate), the loop hands the logger exactly
    the lines of the text, in order, and keeps the encoding of the
    unfinished rest in the buffer. *)
Theorem text_stream_lines (cs : list N) (out : list record) (got : bool) :
  Forall encodable cs →
  ∃ rest,
    UTF8.encode (text_lines cs).2 = Some rest
    ∧ drain [nl_byte] (text_stream cs) [] out got
      = mkDrained false [] rest (out ++ info_records (text_lines cs).1)
                  (got || bool_decide (cs ≠ [])).
Proof.
  intros Hok.
  destruct (drain_text cs [] [] out got Hok eq_refl) as (rb & Hrb & Hd).
  exists rb. split; [done|]. unfold nl_byte. rewrite Hd. f_equal.
  - by destruct (text_lines cs).1.
  - by destruct (text_lines cs).1.
Qed.

Lemma text_stream_lines_witness :
  d_logger (drain [nl_byte] (text_stream [233; 10; 8364; 128512; 10; 97]%N)
              [] [] false)
  = [(INFO, [233%N]); (INFO, [8364; 128512]%N)].
Proof.
  destruct (text_stream_lines [233; 10; 8364; 128512; 10; 97]%N [] false)
    as (rest & _ & ->).
  - repeat constructor; unfold encodable; lia.
  - reflexivity.
Defined.

(** * Text replacement and format strings *)

Section replace.

Implicit Types (old new s rest : string).

Lemma starts_with_app p rest : starts_with p (p +:+ rest) = true.
Proof.
  induction p as [|a p IH]; [done|]. rewrite string_app_cons.
  cbn [starts_with]. by rewrite bool_decide_true, IH.
Qed.

Lemma replace_go_skip old new p rest :
  replace_go old new (String.length p) (p +:+ rest) = replace_go old new 0 rest.
Proof.
  induction p as [|a p IH]; [by destruct rest|].
  rewrite string_app_cons. cbn [String.length replace_go]. exact IH.
Qed.

(** At an occurrence of [old]. *)
Lemma replace_go_found old new rest :
  old ≠ "" →
  replace_go old new 0 (old +:+ rest) = new +:+ replace_go old new 0 rest.
Proof.
  destruct old as [|a o]; [done|]. intros _.
  pose proof (starts_with_app (String a o) rest) as Hs.
  rewrite string_app_cons in *. cbn [replace_go]. rewrite Hs.
  cbn [String.length]. rewrite Nat.sub_succ, Nat.sub_0_r.
  by rewrite replace_go_skip.
Qed.

(** Text without a dollar sign holds no occurrence of a word that starts
    with one. *)
Lemma replace_go_plain o new s rest :
  has_dollar s = false →
  replace_go (String "$" o) new 0 (s +:+ rest)
  = s +:+ replace_go (String "$" o) new 0 rest.
Proof.
  induction s as [|c s IH]; intros Hs; [done|].
  cbn [has_dollar] in Hs. apply orb_false_iff in Hs as [Hc Hs].
  apply bool_decide_eq_false in Hc.
  rewrite !string_app_cons. cbn [replace_go starts_with].
  rewrite bool_decide_false by congruence. cbn [andb].
  by rewrite IH.
Qed.

Lemma has_dollar_app a b : has_dollar (a +:+ b) = has_dollar a || has_dollar b.
Proof.
  induction a as [|x a IH]; [done|].
  rewrite string_app_cons. cbn [has_dollar]. by rewrite IH, orb_assoc.
Qed.

Lemma marker_shape m :
  ∃ o, marker_text m = String "$" o ∧ has_dollar o = false.
Proof. destruct m as [[]| | | |]; eexists; split; reflexivity. Qed.

(** No marker is the beginning of another. *)
Lemma starts_with_other m0 m rest :
  m ≠ m0 → starts_with (marker_text m0) (marker_text m +:+ rest) = false.
Proof.
  intros Hne.
  destruct m0 as [[]| | | |], m as [[]| | | |]; try done; reflexivity.
Qed.

Lemma render_app t1 t2 : render (t1 ++ t2) = render t1 +:+ render t2.
Proof.
  induction t1 as [|[s|m] t1 IH]; [done|..]; cbn [app render];
    by rewrite IH, string_app_assoc.
Qed.

Lemma plain_texts_cons tok toks :
  plain_texts (tok :: toks) →
  match tok with Text s => has_dollar s = false | Mark _ => True end
  ∧ plain_texts toks.
Proof.
  intros H. split.
  - destruct tok; [|done]. apply H. by left.
  - intros s Hs. apply H. by right.
Qed.

Lemma plain_texts_app t1 t2 :
  plain_texts t1 → plain_texts t2 → plain_texts (t1 ++ t2).
Proof.
  intros H1 H2 s [Hs|Hs]%elem_of_app; [by apply H1 | by apply H2].
Qed.

(** One [replace] on a format made of text and markers. *)
Lemma replace_render m0 new toks :
  plain_texts toks →
  replace (marker_text m0) new (render toks)
  = render (substitute (fun m => if decide (m = m0) then Some new else None)
              toks).
Proof.
  unfold replace. destruct (marker_shape m0) as (o0 & E0 & _).
  induction toks as [|tok toks IH]; intros Hp; [done|].
  apply plain_texts_cons in Hp as [Htok Hp]. specialize (IH Hp).
  destruct tok as [s|m]; cbn [render substitute fmap list_fmap].
  - fold (substitute (fun m => if decide (m = m0) then Some new else None) toks).
    rewrite E0 in *. by rewrite replace_go_plain, IH.
  - fold (substitute (fun m => if decide (m = m0) then Some new else None) toks).
    destruct (decide (m = m0)) as [->|Hne].
    + rewrite replace_go_found by (by rewrite E0). by rewrite IH.
    + destruct (marker_shape m) as (o & E & Ho).
      pose proof (starts_with_other m0 m (render toks) Hne) as Hs.
      rewrite E in *. rewrite string_app_cons in *.
      cbn [replace_go]. rewrite Hs.
      rewrite E0 in *. by rewrite replace_go_plain, IH.
Qed.

Lemma substitute_plain f toks :
  (∀ m s, f m = Some s → has_dollar s = false) →
  plain_texts toks → plain_texts (substitute f toks).
Proof.
  intros Hf Hp s Hs. unfold substitute in Hs.
  apply list_elem_of_fmap in Hs as (tok & Htok & Hin).
  destruct tok as [s0|m].
  - injection Htok as ->. by apply Hp.
  - destruct (f m) as [s1|] eqn:E; [|done]. injection Htok as ->.
    by eapply Hf.
Qed.

Lemma substitute_substitute f g toks :
  substitute g (substitute f toks)
  = substitute (fun m => match f m with Some s => Some s | None => g m end)
      toks.
Proof.
  unfold substitute. rewrite <- list_fmap_compose.
  apply list_fmap_ext. intros _ [s|m] _; cbn; [done|].
  by destruct (f m).
Qed.

Lemma substitute_ext f g toks :
  (∀ m, f m = g m) → substitute f toks = substitute g toks.
Proof.
  intros H. unfold substitute. apply list_fmap_ext.
  intros _ [s|m] _; [done|]. by rewrite H.
Qed.

Lemma plain_texts_forallb toks :
  forallb (fun tok => match tok with
                      | Text s => negb (has_dollar s)
                      | Mark _ => true
                      end) toks = true →
  plain_texts toks.
Proof.
  intros H s Hs. apply Is_true_true, forallb_True in H.
  rewrite Forall_forall in H. specialize (H _ Hs). cbn in H.
  by destruct (has_dollar s).
Qed.

End replace.

(** A [replace] followed by a description of the result, for chaining. *)
Ltac replace_marker m :=
  match goal with
  | |- context [replace ?p ?new (render ?toks)] =>
    change p with (marker_text m);
    rewrite (replace_render m new toks);
    [rewrite ?substitute_substitute
    |try (apply substitute_plain;
          [intros [[]| | | |] ?; repeat case_decide; intros [= <-]; reflexivity
          |]); assumption]
  end.

Lemma reformat_render (toks : list token) :
  plain_texts toks →
  reformat (render toks) = render (substitute ansi_of toks).
Proof.
  intros Hp. unfold reformat, all_colors. cbn [foldl].
  replace_marker (MColor BLACK). replace_marker (MColor RED).
  replace_marker (MColor GREEN). replace_marker (MColor YELLOW).
  replace_marker (MColor BLUE). replace_marker (MColor MAGENTA).
  replace_marker (MColor CYAN). replace_marker (MColor WHITE).
  replace_marker MReset. replace_marker MBold.
  f_equal. apply substitute_ext.
  intros [[]| | | |]; reflexivity.
Qed.

(** X6.  In a format string made of text without dollar signs and of markers,
    [reformat] puts the ANSI sequence in the place of every colour marker,
    of [$RESET] and of [$BOLD], and leaves the text, [$LEVELCOLOR] and
    [$NAME] as they are.  A string without markers is returned
    unchanged. *)
Theorem reformat_markers (toks : list token) :
  plain_texts toks →
  reformat (render toks) = render (substitute ansi_of toks).
Proof. apply reformat_render. Qed.

Lemma reformat_markers_witness :
  reformat "$BOLD[%(name)s]$RESET"
  = ANSI_BOLD +:+ "[%(name)s]" +:+ ANSI_RESET.
Proof.
  apply (reformat_markers [Mark MBold; Text "[%(name)s]"; Mark MReset]).
  apply plain_texts_forallb. reflexivity.
Defined.

Lemma remove_color_render (toks : list token) :
  plain_texts toks →
  remove_color (render toks) = render (substitute colour_marker toks).
Proof.
  intros Hp. unfold remove_color, all_colors. cbn [foldl].
  replace_marker (MColor BLACK). replace_marker (MColor RED).
  replace_marker (MColor GREEN). replace_marker (MColor YELLOW).
  replace_marker (MColor BLUE). replace_marker (MColor MAGENTA).
  replace_marker (MColor CYAN). replace_marker (MColor WHITE).
  replace_marker MReset. replace_marker MBold. replace_marker MLevelColor.
  f_equal. apply substitute_ext.
  intros [[]| | | |]; reflexivity.
Qed.

(** X7.  In a format string made of text without dollar signs and of markers,
    [remove_color] deletes every colour marker, [$RESET], [$BOLD] and
    [$LEVELCOLOR] and keeps the text and [$NAME]; what is left of a string
    without markers is the string. *)
Theorem remove_color_markers (toks : list token) :
  plain_texts toks →
  remove_color (render toks) = render (substitute colour_marker toks).
Proof. apply remove_color_render. Qed.

Lemma remove_color_markers_witness :
  remove_color "$BOLD[%(name)s]$RESET" = "[%(name)s]".
Proof.
  apply (remove_color_markers [Mark MBold; Text "[%(name)s]"; Mark MReset]).
  apply plain_texts_forallb. reflexivity.
Defined.

(** X8.  [formatter_message] cannot be used with colours: with [use_color] it
    raises [NameError] for every message.  Without, it deletes [$RESET] and
    [$BOLD] from a message made of text without dollar signs and of
    markers, and nothing else. *)
Theorem formatter_message_markers (toks : list token) :
  plain_texts toks →
  formatter_message (render toks) true = None
  ∧ formatter_message (render toks) false
    = Some (render (substitute (fun m => match m with
                                         | MReset | MBold => Some ""
                                         | _ => None
                                         end) toks)).
Proof.
  intros Hp. split; [done|]. unfold formatter_message. f_equal.
  replace_marker MReset. replace_marker MBold.
  f_equal. apply substitute_ext.
  intros [[]| | | |]; reflexivity.
Qed.

Lemma formatter_message_markers_witness :
  formatter_message "$BOLDstarted$RESET $RED!" false = Some "started $RED!".
Proof.
  apply (formatter_message_markers
           [Mark MBold; Text "started"; Mark MReset; Text " ";
            Mark (MColor RED); Text "!"]).
  apply plain_texts_forallb. reflexivity.
Defined.

(** * The name format of a node *)

Lemma chain_rec_enough w : sound w → ∀ f1 f2 x,
  (x < f1)%nat → (x < f2)%nat → chain_rec f1 w x = chain_rec f2 w x.
Proof.
  intros Hs. induction f1 as [|f1 IH]; intros f2 x H1 H2; [lia|].
  destruct f2 as [|f2]; [lia|]. cbn [chain_rec].
  destruct (nodes w !! x) as [n|] eqn:Hn; [|done].
  destruct (parent n) as [p|] eqn:Hp; [|done].
  destruct (Hs x n Hn) as (_ & Hbefore & _). specialize (Hbefore p Hp).
  f_equal. apply IH; lia.
Qed.

Lemma chain_rec_last fuel w x n :
  nodes w !! x = Some n → chain_rec (S fuel) w x ≠ [].
Proof.
  intros Hn. cbn [chain_rec]. rewrite Hn.
  destruct (parent n); [|done]. by destruct (chain_rec fuel w _).
Qed.

Lemma concat_strings_app l1 l2 :
  concat_strings (l1 ++ l2) = concat_strings l1 +:+ concat_strings l2.
Proof.
  induction l1 as [|a l1 IH]; [done|]. cbn. unfold concat_strings in *.
  cbn. by rewrite IH, string_app_assoc.
Qed.

Lemma name_format_rec_chain w : sound w → ∀ fuel x,
  (x < fuel)%nat → (x < length (nodes w))%nat →
  _name_format_rec fuel x w
  = (Return (concat_strings
               ((fun y => name_bracket (logger_name w y))
                  <$> below_root (chain_rec fuel w x))), w).
Proof.
  intros Hs. induction fuel as [|fuel IH]; intros x Hf Hx; [lia|].
  destruct (lookup_lt_is_Some_2 _ _ Hx) as [n Hn].
  cbn [_name_format_rec chain_rec].
  rewrite (get_node_step x n) by done. rewrite Hn.
  assert (Hown : logger_name w x = _logger n)
    by (unfold logger_name; by rewrite Hn).
  destruct (parent n) as [p|] eqn:Hp.
  - destruct (Hs x n Hn) as (_ & Hbefore & _). specialize (Hbefore p Hp).
    destruct (lookup_lt_is_Some_2 (nodes w) p) as [pn Hpn]; [lia|].
    destruct fuel as [|fuel']; [lia|].
    destruct (parent pn) as [q|] eqn:Hq.
    + erewrite bind_step;
        [|rewrite (get_node_step p pn) by done; rewrite Hq;
          apply (IH p); lia].
      unfold ret. f_equal. f_equal.
      cbn [chain_rec]. rewrite Hpn, Hq.
      destruct (Hs p pn Hpn) as (_ & Hbq & _). specialize (Hbq q Hq).
      destruct (lookup_lt_is_Some_2 (nodes w) q) as [qn Hqn]; [lia|].
      destruct fuel' as [|fuel'']; [lia|].
      pose proof (chain_rec_last fuel'' w q qn Hqn) as Hne.
      destruct (chain_rec (S fuel'') w q) as [|r l]; [done|].
      cbn [app below_root].
      replace (match l ++ [p] with [] => [r] | _ :: _ => l ++ [p] end)
        with (l ++ [p]) by (by destruct l).
      replace (match (l ++ [p]) ++ [x] with
               | [] => [r]
               | _ :: _ => (l ++ [p]) ++ [x]
               end) with ((l ++ [p]) ++ [x]) by (by destruct l).
      rewrite (fmap_app _ (l ++ [p]) [x]), concat_strings_app. cbn.
      unfold name_bracket. by rewrite Hown, !string_app_assoc, string_app_nil_r.
    + erewrite bind_step;
        [|rewrite (get_node_step p pn) by done; rewrite Hq; reflexivity].
      cbn [chain_rec]. rewrite Hpn, Hq. cbn.
      unfold ret, name_bracket. by rewrite Hown, string_app_nil_r.
  - cbn. unfold ret, name_bracket. by rewrite Hown, string_app_nil_r.
Qed.

(** X9.  In a sound tree [_name_format] returns, and its result names the nodes
    on the way from the root down to the node, each as
    [[$RESET$WHITE<name>$BLUE$BOLD]], with the root left out: the root is
    named in its own format only. *)
Theorem name_format_below_root (w : World) (x : nat) :
  sound w → (x < length (nodes w))%nat →
  _name_format x w
  = (Return (concat_strings
               ((fun y => name_bracket (logger_name w y))
                  <$> below_root (chain w x))), w).
Proof. intros Hs Hx. by apply name_format_rec_chain. Qed.

Lemma name_format_below_root_witness :
  (_name_format 2 world_three_empty).1
  = Return "[$RESET$WHITEc$BLUE$BOLD][$RESET$WHITEg$BLUE$BOLD]".
Proof.
  rewrite (name_format_below_root world_three_empty 2).
  - reflexivity.
  - apply sound_check_sound. vm_compute. reflexivity.
  - vm_compute. lia.
Defined.

Lemma render_bracket_toks names :
  render (mjoin (bracket_toks <$> names))
  = concat_strings (name_bracket <$> names).
Proof.
  induction names as [|name names IH]; [done|].
  cbn [fmap list_fmap mjoin list_join]. rewrite render_app.
  unfold concat_strings. cbn [foldr]. f_equal. exact IH.
Qed.

Lemma plain_bracket_toks names :
  Forall (fun name => has_dollar name = false) names →
  plain_texts (mjoin (bracket_toks <$> names)).
Proof.
  induction 1 as [|name names Hn _ IH]; [by intros s Hs%elem_of_nil|].
  cbn [fmap list_fmap mjoin list_join]. apply plain_texts_app; [|done].
  apply plain_texts_forallb. cbn. by rewrite Hn.
Qed.

Lemma remove_bracket_toks names :
  render (substitute colour_marker (mjoin (bracket_toks <$> names)))
  = concat_strings (plain_bracket <$> names).
Proof.
  induction names as [|name names IH]; [done|].
  cbn [fmap list_fmap mjoin list_join].
  unfold substitute in *. rewrite fmap_app, render_app.
  unfold concat_strings. cbn [foldr]. f_equal. exact IH.
Qed.

(** X10.  The format of a log file carries no colour.  In a sound tree, for
    logger names without dollar sign, the format string that
    [save_to_file] gives to the file sink of a node is plain text:
    level, time, the names of the nodes from below the root down to the
    node, each in brackets, and the message. *)
Theorem file_format_plain (w : World) (x : nat) :
  sound w → (x < length (nodes w))%nat →
  Forall (fun y => has_dollar (logger_name w y) = false)
         (below_root (chain w x)) →
  file_format x w
  = (Return ("%(levelname)-8s [%(asctime)14s]"
             +:+ concat_strings
                   ((fun y => plain_bracket (logger_name w y))
                      <$> below_root (chain w x))
             +:+ " %(message)s"), w).
Proof.
  intros Hs Hx Hnames. unfold file_format.
  erewrite bind_step;
    [|unfold _name_format; by apply name_format_rec_chain].
  unfold ret. f_equal. f_equal. fold (chain w x).
  set (names := logger_name w <$> below_root (chain w x)).
  assert (Hn : Forall (fun name => has_dollar name = false) names).
  { unfold names. by apply Forall_fmap. }
  replace (concat_strings ((fun y => name_bracket (logger_name w y))
                             <$> below_root (chain w x)))
    with (render (mjoin (bracket_toks <$> names))).
  2:{ rewrite render_bracket_toks. unfold names.
      by rewrite <- list_fmap_compose. }
  change DEFAULT_FORMAT
    with (render (default_toks_before ++ [Mark MName] ++ default_toks_after)).
  change "$NAME" with (marker_text MName).
  rewrite replace_render by (apply plain_texts_forallb; reflexivity).
  unfold substitute at 1. rewrite !fmap_app. cbn [fmap list_fmap].
  rewrite decide_True by done.
  change ((fun tok => _) <$> default_toks_before) with default_toks_before.
  change ((fun tok => _) <$> default_toks_after) with default_toks_after.
  rewrite render_app. cbn [app render].
  change (render default_toks_before
          +:+ render (mjoin (bracket_toks <$> names))
          +:+ render default_toks_after)
    with (render default_toks_before
          +:+ (render (mjoin (bracket_toks <$> names))
               +:+ render default_toks_after)).
  rewrite <- !render_app.
  rewrite remove_color_render.
  2:{ apply plain_texts_app; [apply plain_texts_forallb; reflexivity|].
      apply plain_texts_app; [by apply plain_bracket_toks|].
      apply plain_texts_forallb; reflexivity. }
  unfold substitute. rewrite !fmap_app, !render_app.
  fold (substitute colour_marker (mjoin (bracket_toks <$> names))).
  rewrite remove_bracket_toks. unfold names.
  rewrite <- list_fmap_compose. reflexivity.
Qed.

Lemma file_format_plain_witness :
  (file_format 2 world_three_empty).1
  = Return "%(levelname)-8s [%(asctime)14s][c][g] %(message)s".
Proof.
  rewrite (file_format_plain world_three_empty 2).
  - reflexivity.
  - apply sound_check_sound. vm_compute. reflexivity.
  - vm_compute. lia.
  - vm_compute. repeat constructor.
Defined.

(** * What [ColorFormatter.format] does to a formatted record *)

Section continuation.

Implicit Types (s l rest : string).

Lemma has_newline_app a b :
  has_newline (a +:+ b) = has_newline a || has_newline b.
Proof.
  induction a as [|x a IH]; [done|].
  rewrite string_app_cons. cbn [has_newline]. by rewrite IH, orb_assoc.
Qed.

Lemma replace_newline_line B l rest :
  has_newline l = false →
  replace newline B (l +:+ rest) = l +:+ replace newline B rest.
Proof.
  unfold replace, newline.
  induction l as [|c l IH]; intros Hl; [done|].
  cbn [has_newline] in Hl. apply orb_false_iff in Hl as [Hc Hl].
  apply bool_decide_eq_false in Hc.
  rewrite !string_app_cons. cbn [replace_go starts_with].
  rewrite bool_decide_false by congruence. cbn [andb].
  by rewrite IH.
Qed.

Lemma replace_newline_found B rest :
  replace newline B (newline +:+ rest) = B +:+ replace newline B rest.
Proof. unfold replace. by apply replace_go_found. Qed.

Lemma replace_newline_end B l :
  has_newline l = false → replace newline B l = l.
Proof.
  intros Hl. rewrite <- (string_app_nil_r l) at 1.
  rewrite replace_newline_line by done. by rewrite string_app_nil_r.
Qed.

Lemma replace_first_line A l rest :
  has_newline l = false →
  replace_first newline A (l +:+ newline +:+ rest) = l +:+ A +:+ rest.
Proof.
  unfold newline.
  induction l as [|c l IH]; intros Hl.
  - reflexivity.
  - cbn [has_newline] in Hl. apply orb_false_iff in Hl as [Hc Hl].
    apply bool_decide_eq_false in Hc.
    rewrite (string_app_cons c l). cbn [replace_first starts_with].
    rewrite bool_decide_false by congruence. cbn [andb].
    by rewrite IH.
Qed.

Lemma replace_first_none A l :
  has_newline l = false → replace_first newline A l = l.
Proof.
  unfold newline. induction l as [|c l IH]; intros Hl; [done|].
  cbn [has_newline] in Hl. apply orb_false_iff in Hl as [Hc Hl].
  apply bool_decide_eq_false in Hc.
  cbn [replace_first starts_with].
  rewrite bool_decide_false by congruence. cbn [andb].
  by rewrite IH.
Qed.

Lemma join_with_cons sep l0 l1 ls :
  join_with sep (l0 :: l1 :: ls) = l0 +:+ sep +:+ join_with sep (l1 :: ls).
Proof. reflexivity. Qed.

Lemma replace_newline_join B lines :
  Forall (fun l => has_newline l = false) lines →
  replace newline B (join_with newline lines) = join_with B lines.
Proof.
  induction 1 as [|l0 ls H0 Hls IH]; [done|].
  destruct ls as [|l1 ls].
  - cbn. by apply replace_newline_end.
  - rewrite !join_with_cons, replace_newline_line by done.
    by rewrite replace_newline_found, IH.
Qed.

(** The two replacements of lines 74-75. *)
Lemma continuation_lines A0 B lines :
  has_newline A0 = false →
  Forall (fun l => has_newline l = false) lines →
  replace newline B (replace_first newline (A0 +:+ newline)
                       (join_with newline lines))
  = join_with B (mark_first A0 lines).
Proof.
  intros HA Hl. destruct lines as [|l0 [|l1 ls]].
  - done.
  - apply Forall_cons in Hl as [H0 _]. cbn.
    rewrite replace_first_none by done. by apply replace_newline_end.
  - apply Forall_cons in Hl as [H0 Hl].
    rewrite join_with_cons, replace_first_line by done.
    rewrite string_app_assoc.
    rewrite <- (string_app_assoc l0 A0).
    rewrite replace_newline_line
      by (rewrite has_newline_app, H0, HA; reflexivity).
    rewrite replace_newline_found, replace_newline_join by done.
    cbn [mark_first]. by rewrite join_with_cons.
Qed.

Lemma render_lines_toks lines :
  render (lines_toks lines) = join_with newline (render <$> lines).
Proof.
  induction lines as [|l0 [|l1 ls] IH]; [done|done|].
  cbn [lines_toks] in *. rewrite render_app. cbn [render].
  rewrite IH. reflexivity.
Qed.

Lemma plain_lines_toks lines :
  Forall plain_texts lines → plain_texts (lines_toks lines).
Proof.
  induction 1 as [|l0 ls H0 Hls IH]; [by intros s Hs%elem_of_nil|].
  destruct ls as [|l1 ls]; [done|].
  cbn [lines_toks] in *. apply plain_texts_app; [done|].
  intros s [Hs|Hs]%elem_of_cons; [by injection Hs as ->|by apply IH].
Qed.

Lemma substitute_lines_toks f lines :
  substitute f (lines_toks lines) = lines_toks (substitute f <$> lines).
Proof.
  induction lines as [|l0 [|l1 ls] IH]; [done|done|].
  cbn [lines_toks fmap list_fmap] in *. unfold substitute at 1.
  rewrite fmap_app. cbn [fmap list_fmap].
  f_equal. f_equal. exact IH.
Qed.

Lemma has_newline_render toks :
  one_line toks → has_newline (render toks) = false.
Proof.
  induction toks as [|tok toks IH]; intros H; [done|].
  assert (Hrest : has_newline (render toks) = false).
  { apply IH. intros s Hs. apply H. by right. }
  destruct tok as [s|m]; cbn [render]; rewrite has_newline_app, Hrest.
  - rewrite (H s) by (by left). done.
  - by destruct m as [[]| | | |].
Qed.

Lemma one_line_substitute f toks :
  (∀ m s, f m = Some s → has_newline s = false) →
  one_line toks → one_line (substitute f toks).
Proof.
  intros Hf Hp s Hs. unfold substitute in Hs.
  apply list_elem_of_fmap in Hs as (tok & Htok & Hin).
  destruct tok as [s0|m].
  - injection Htok as ->. by apply Hp.
  - destruct (f m) as [s1|] eqn:E; [|done]. injection Htok as ->.
    by eapply Hf.
Qed.

End continuation.

(** X11.  [ColorFormatter.format] on a record of several lines.  Let the text
    returned by the wrapped formatter consist of lines, each made of text
    without dollar sign or line break and of markers.  Then [$LEVELCOLOR]
    becomes the colour of the record's level (blue for a level that is not
    one of the six known), the first line gets the continuation mark at its
    end when more lines follow, and every further line starts with the
    prompt: the number of lines stays the same. *)
Theorem format_marks_continuation_lines (levelno : Z)
    (lines : list (list token)) :
  Forall plain_texts lines → Forall one_line lines →
  ColorFormatter_format levelno (join_with newline (render <$> lines))
  = join_with CONT_PROMPT
      (mark_first CONT_MARK
         ((fun l => render (substitute (level_marker levelno) l)) <$> lines)).
Proof.
  intros Hp Ho. unfold ColorFormatter_format.
  change (reformat ("$RESET $BOLD$BLUE\$RESET" +:+ newline))
    with (CONT_MARK +:+ newline).
  change (reformat (newline +:+ "$RESET$BOLD$BLUE> $RESET")) with CONT_PROMPT.
  rewrite <- render_lines_toks.
  change "$LEVELCOLOR" with (marker_text MLevelColor).
  rewrite replace_render by (by apply plain_lines_toks).
  rewrite (substitute_ext _ (level_marker levelno))
    by (intros [[]| | | |]; reflexivity).
  rewrite substitute_lines_toks, render_lines_toks.
  rewrite continuation_lines.
  - by rewrite <- list_fmap_compose.
  - reflexivity.
  - rewrite <- list_fmap_compose. apply Forall_fmap.
    eapply Forall_impl; [exact Ho|]. intros l Hl. cbn.
    apply has_newline_render, one_line_substitute; [|done].
    intros m s. destruct m; try done. intros [= <-].
    unfold level_color. repeat case_decide; reflexivity.
Qed.

Lemma format_marks_continuation_lines_witness :
  ColorFormatter_format ERROR
    ("$LEVELCOLORfailed:" +:+ newline +:+ "line 2" +:+ newline +:+ "line 3")
  = ANSI_COLOR 31 +:+ "failed:" +:+ CONT_MARK
    +:+ CONT_PROMPT +:+ "line 2" +:+ CONT_PROMPT +:+ "line 3".
Proof.
  apply (format_marks_continuation_lines ERROR
           [[Mark MLevelColor; Text "failed:"]; [Text "line 2"];
            [Text "line 3"]]).
  - repeat constructor; apply plain_texts_forallb; reflexivity.
  - repeat constructor; intros s Hs;
      repeat (apply elem_of_cons in Hs as [Hs|Hs];
              [try discriminate; by injection Hs as -> |]);
      by apply elem_of_nil in Hs.
Defined.

(** * Paths under the directory of a node *)

Section more_paths.

Implicit Types (a b c f s p q : string) (cs : list string).

Lemma split_slash_no_slash s : Forall (fun c => has_slash c = false) (split_slash s).
Proof.
  induction s as [|x s IH]; cbn [split_slash].
  - by repeat constructor.
  - destruct (decide (x = slash)) as [->|Hx].
    + by constructor.
    + destruct (split_slash s) as [|y ys].
      * repeat constructor. cbn. by rewrite bool_decide_false.
      * apply Forall_cons in IH as [Hy Hys]. constructor; [|done].
        cbn. by rewrite bool_decide_false, Hy.
Qed.

Lemma Forall_removelast {X} (P : X → Prop) (l : list X) :
  Forall P l → Forall P (removelast l).
Proof.
  induction 1 as [|x l Hx Hl IH]; [constructor|].
  cbn. destruct l; [constructor|]. by constructor.
Qed.

Lemma removelast_snoc {X} (l : list X) (x : X) : removelast (l ++ [x]) = l.
Proof. apply removelast_last. Qed.

Lemma norm_step_keeps acc comp :
  Forall plain acc → has_slash comp = false → Forall plain (norm_step acc comp).
Proof.
  intros Ha Hc. unfold norm_step. repeat case_decide; try done.
  - by apply Forall_removelast.
  - rewrite Forall_app, Forall_singleton. done.
Qed.

Lemma foldl_norm_step_keeps l : ∀ acc,
  Forall plain acc → Forall (fun c => has_slash c = false) l →
  Forall plain (foldl norm_step acc l).
Proof.
  induction l as [|c l IH]; intros acc Ha Hl; [done|].
  apply Forall_cons in Hl as [Hc Hl]. cbn.
  apply IH; [|done]. by apply norm_step_keeps.
Qed.

(** The components of a path are plain names. *)
Lemma components_plain q : Forall plain (components q).
Proof.
  unfold components. apply foldl_norm_step_keeps; [constructor|].
  apply split_slash_no_slash.
Qed.

Lemma foldl_norm_step_plain cs : ∀ acc,
  Forall plain cs → foldl norm_step acc cs = acc ++ cs.
Proof.
  induction cs as [|c cs IH]; intros acc H; [by rewrite app_nil_r|].
  apply Forall_cons in H as [Hc H]. cbn.
  rewrite norm_step_plain by done. rewrite IH by done.
  by rewrite <- app_assoc.
Qed.

Lemma split_slash_join_slash cs :
  cs ≠ [] → Forall (fun c => has_slash c = false) cs →
  split_slash (join_slash cs) = cs.
Proof.
  induction cs as [|c cs IH]; intros Hne H; [done|].
  apply Forall_cons in H as [Hc H].
  destruct cs as [|c' cs].
  - cbn. by apply split_slash_plain.
  - change (join_slash (c :: c' :: cs))
      with (c +:+ "/" +:+ join_slash (c' :: cs)).
    rewrite split_slash_app, (split_slash_plain c) by done.
    by rewrite IH.
Qed.

Lemma components_of_plain l cs :
  l = "/" ∨ l = "//" → Forall plain cs →
  components (l +:+ join_slash cs) = cs.
Proof.
  intros Hl Hcs. unfold components.
  assert (Hsl : Forall (fun c => has_slash c = false) cs).
  { eapply Forall_impl; [exact Hcs|]. by intros c [? _]. }
  destruct cs as [|c cs].
  - destruct Hl as [-> | ->]; reflexivity.
  - assert (Hs : split_slash (l +:+ join_slash (c :: cs))
                 = (if decide (l = "/") then [""] else [""; ""]) ++ c :: cs).
    { rewrite <- (split_slash_join_slash (c :: cs)) at 2 by done.
      destruct Hl as [-> | ->]; cbn; reflexivity. }
    rewrite Hs, foldl_app.
    replace (foldl norm_step [] (if decide (l = "/") then [""] else [""; ""]))
      with (@nil string) by (by destruct (decide (l = "/"))).
    by rewrite foldl_norm_step_plain.
Qed.

Lemma leading_cases q : leading q = "/" ∨ leading q = "//".
Proof.
  unfold leading. destruct q as [|a [|b [|c q]]]; try (by left);
    destruct (_ && _); auto.
Qed.

Lemma isabs_leading q s : isabs (leading q +:+ s) = true.
Proof. by destruct (leading_cases q) as [-> | ->]. Qed.

(** [realpath] leads where the path leads. *)
Lemma path_key_realpath cwd p : path_key cwd (realpath cwd p) = path_key cwd p.
Proof.
  unfold realpath, abspath, path_key at 1. rewrite isabs_leading.
  rewrite components_of_plain; [done | apply leading_cases |].
  apply components_plain.
Qed.

Lemma drop_common_app (a names : list string) :
  drop_common a (a ++ names) = ([], names).
Proof.
  induction a as [|x a IH]; [by destruct names|].
  cbn. by rewrite decide_True.
Qed.

Lemma ends_with_slash_app a b :
  b ≠ "" → ends_with_slash (a +:+ b) = ends_with_slash b.
Proof.
  intros Hb. induction a as [|x a IH]; [done|].
  rewrite string_app_cons. cbn [ends_with_slash].
  destruct (a +:+ b) eqn:E; [|done].
  destruct a; [by destruct b|done].
Qed.

Lemma no_slash_no_final_slash c : has_slash c = false → ends_with_slash c = false.
Proof.
  intros Hs. induction c as [|x c IH]; [done|].
  cbn in Hs. apply orb_false_iff in Hs as [Hx Hs].
  cbn [ends_with_slash]. destruct c; [done|]. by apply IH.
Qed.

Lemma join_slash_snoc l b :
  l ≠ [] → join_slash (l ++ [b]) = join_slash l +:+ "/" +:+ b.
Proof.
  induction l as [|c l IH]; intros Hne; [done|].
  destruct l as [|c' l]; [done|].
  change (join_slash ((c :: c' :: l) ++ [b]))
    with (c +:+ "/" +:+ join_slash ((c' :: l) ++ [b])).
  rewrite IH by done.
  change (join_slash (c :: c' :: l)) with (c +:+ "/" +:+ join_slash (c' :: l)).
  by rewrite !string_app_assoc.
Qed.

Lemma join_slash_ok l :
  l ≠ [] → Forall (fun c => has_slash c = false ∧ c ≠ "") l →
  join_slash l ≠ "" ∧ ends_with_slash (join_slash l) = false.
Proof.
  intros Hne Hl. destruct (exists_last Hne) as (l' & b & ->).
  rewrite Forall_app in Hl. destruct Hl as [_ Hb].
  rewrite Forall_singleton in Hb. destruct Hb as [Hbs Hbne].
  destruct l' as [|c l'].
  - cbn. split; [done|]. by apply no_slash_no_final_slash.
  - rewrite join_slash_snoc by done. split.
    + intros E. destruct (join_slash (c :: l')); discriminate E.
    + rewrite <- string_app_assoc, ends_with_slash_app by done.
      by apply no_slash_no_final_slash.
Qed.

(** [os.path.join] of names is the names with slashes between. *)
Lemma foldl_join_names cs : ∀ l,
  l ≠ [] →
  Forall (fun c => has_slash c = false ∧ c ≠ "") l →
  Forall (fun c => has_slash c = false ∧ c ≠ "") cs →
  foldl join (join_slash l) cs = join_slash (l ++ cs).
Proof.
  induction cs as [|c cs IH]; intros l Hne Hl Hcs; [by rewrite app_nil_r|].
  apply Forall_cons in Hcs as [Hc Hcs]. cbn [foldl].
  destruct (join_slash_ok l Hne Hl) as [H1 H2].
  assert (Hj : join (join_slash l) c = join_slash (l ++ [c])).
  { unfold join. rewrite (plain_not_abs c) by apply Hc.
    rewrite bool_decide_false by done. rewrite H2. cbn [orb].
    by rewrite join_slash_snoc. }
  rewrite Hj, IH; [by rewrite <- app_assoc | by destruct l | | done].
  rewrite Forall_app, Forall_singleton. done.
Qed.

Lemma plain_names l :
  Forall plain l → Forall (fun c => has_slash c = false ∧ c ≠ "") l.
Proof. intros H. eapply Forall_impl; [exact H|]. intros c (? & ? & _). done. Qed.

(** A path that leads below the directory of a node comes back from
    [to_log_path] as the names that lead from the directory to it. *)
Lemma to_log_path_names (w : World) (x : nat) (n : EthenoLogger)
    (p d : string) (names : list string) :
  nodes w !! x = Some n → _directory n = Some d →
  path_key (cwd w) p = path_key (cwd w) d ++ names →
  to_log_path x p w
  = (Return (match names with [] => "." | _ => join_slash names end), w).
Proof.
  intros Hn Hd Hp. unfold to_log_path. rewrite (get_node_step x n) by done.
  rewrite Hd. unfold bind, get_world, ret. f_equal. f_equal.
  unfold relpath. rewrite !path_key_realpath, Hp, drop_common_app.
  cbn [fmap list_fmap app].
  assert (Hpl : Forall plain names).
  { pose proof (components_plain (if isabs p then p else join (cwd w) p)) as H.
    unfold path_key in Hp. rewrite Hp in H.
    by apply Forall_app in H as [_ H]. }
  apply plain_names in Hpl.
  destruct names as [|c cs]; [done|].
  apply Forall_cons in Hpl as [Hc Hcs].
  apply (foldl_join_names cs [c]); [done | | done].
  by rewrite Forall_singleton.
Qed.

End more_paths.

(** X12.  [to_log_path] gives a path back as the log directory sees it.  A node
    without a directory returns the path as it is.  For a node with a
    directory, a path that leads below that directory comes back as the
    names that lead from the directory to it, with slashes between, and a
    path that leads to the directory itself as a dot: in whatever way
    the path was written. *)
Theorem to_log_path_below (w : World) (x : nat) (n : EthenoLogger)
    (p : string) :
  nodes w !! x = Some n →
  (_directory n = None → to_log_path x p w = (Return p, w))
  ∧ (∀ d names,
       _directory n = Some d →
       path_key (cwd w) p = path_key (cwd w) d ++ names →
       to_log_path x p w
       = (Return (match names with [] => "." | _ => join_slash names end), w)).
Proof.
  intros Hn. split.
  - intros Hd. unfold to_log_path. rewrite (get_node_step x n) by done.
    by rewrite Hd.
  - intros d names Hd Hp. by apply (to_log_path_names w x n p d names).
Qed.

Lemma to_log_path_below_witness :
  (to_log_path 0 "/logs/./sub//../sub/out.txt" world_node_logs).1
  = Return "sub/out.txt".
Proof.
  destruct (nodes world_node_logs !! 0%nat) as [n|] eqn:Hn;
    [|vm_compute in Hn; discriminate].
  destruct (to_log_path_below world_node_logs 0 n
              "/logs/./sub//../sub/out.txt" Hn) as [_ H].
  rewrite (H "/logs" ["sub"; "out.txt"]).
  - reflexivity.
  - vm_compute in Hn. by injection Hn as <-.
  - vm_compute. reflexivity.
Defined.
(** * Logged files in a directory of choice *)

Section given_directory.

Implicit Types (a b c d f s p q : string) (cs : list string).

Lemma drop_common_spec (a b : list string) :
  ∃ common, a = common ++ (drop_common a b).1
          ∧ b = common ++ (drop_common a b).2.
Proof.
  revert b. induction a as [|x a IH]; intros b.
  - exists []. by destruct b.
  - destruct b as [|y b]; [by exists []|].
    cbn. destruct (decide (x = y)) as [->|].
    + destruct (IH b) as (c & Ha & Hb). exists (y :: c).
      cbn. by rewrite <- Ha, <- Hb.
    + by exists [].
Qed.

Lemma fmap_const_snoc {X} (l : list X) (x : X) c :
  (fun _ => c) <$> (l ++ [x]) = c :: ((fun _ => c) <$> l).
Proof. induction l as [|y l IH]; [done|]. cbn. by rewrite IH. Qed.

(** As many [".."] as there are names take these names away. *)
Lemma foldl_norm_step_up (l : list string) : ∀ acc,
  foldl norm_step (acc ++ l) ((fun _ => "..") <$> l) = acc.
Proof.
  induction l as [|x l IH] using rev_ind; intros acc.
  - by rewrite app_nil_r.
  - rewrite fmap_const_snoc. cbn [foldl].
    replace (norm_step (acc ++ l ++ [x]) "..") with (acc ++ l); [apply IH|].
    unfold norm_step. rewrite !decide_False by done. rewrite decide_True by done.
    by rewrite app_assoc, removelast_last.
Qed.

Lemma isabs_join_slash c cs :
  has_slash c = false → c ≠ "" → isabs (join_slash (c :: cs)) = false.
Proof.
  intros Hs Hne. destruct c as [|x c]; [done|].
  cbn in Hs. apply orb_false_iff in Hs as [Hx _].
  destruct cs as [|c' cs]; [done|].
  change (join_slash (String x c :: c' :: cs))
    with (String x c +:+ "/" +:+ join_slash (c' :: cs)).
  by rewrite string_app_cons.
Qed.

(** The directory of the node, followed by the way from there to another
    directory, leads to that other directory. *)
Lemma relpath_base cwd D d :
  isabs d = true →
  let rel := relpath cwd (realpath cwd D) (realpath cwd d) in
  isabs rel = false ∧ path_key cwd (join d rel) = path_key cwd D.
Proof.
  intros Hd rel. unfold rel, relpath. rewrite !path_key_realpath.
  destruct (drop_common_spec (path_key cwd d) (path_key cwd D))
    as (common & Ha & Hb).
  destruct (drop_common (path_key cwd d) (path_key cwd D)) as [s p].
  cbn [fst snd] in Ha, Hb.
  assert (Hp : Forall plain p).
  { pose proof (components_plain (if isabs D then D else join cwd D)) as H.
    fold (path_key cwd D) in H. rewrite Hb in H.
    by apply Forall_app in H as [_ H]. }
  assert (Hkey : ∀ r, isabs r = false →
            path_key cwd (join d r)
            = foldl norm_step (path_key cwd d) (split_slash r)).
  { intros r Hr. unfold path_key. rewrite (isabs_join d r), Hd by done.
    by apply components_join. }
  assert (Hl : Forall (fun c => has_slash c = false ∧ c ≠ "")
                 (((fun _ => "..") <$> s) ++ p)).
  { rewrite Forall_app. split; [|by apply plain_names].
    apply Forall_fmap, Forall_true. done. }
  destruct (((fun _ => "..") <$> s) ++ p) as [|c cs] eqn:El.
  - split; [done|]. rewrite Hkey by done. cbn.
    apply app_eq_nil in El as [Es ->]. apply fmap_nil_inv in Es as ->.
    by rewrite Ha, Hb.
  - apply Forall_cons in Hl as [[Hc Hcne] Hcs].
    assert (Hrel : foldl join c cs = join_slash (c :: cs)).
    { apply (foldl_join_names cs [c]); [done | | done].
      by rewrite Forall_singleton. }
    rewrite Hrel. split; [by apply isabs_join_slash|].
    rewrite Hkey by by apply isabs_join_slash.
    rewrite split_slash_join_slash; [|done|].
    + rewrite <- El, foldl_app. rewrite Ha at 1.
      rewrite foldl_norm_step_up, Hb.
      by apply foldl_norm_step_plain.
    + constructor; [done|]. eapply Forall_impl; [exact Hcs|]. by intros ? [? _].
Qed.

(** A plain name under an absolute path: one more component. *)
Lemma path_key_under cwd base f :
  isabs base = true → plain f →
  path_key cwd (join base f) = path_key cwd base ++ [f].
Proof.
  intros Hb Hf. pose proof Hf as (Hs & _). unfold path_key.
  rewrite (isabs_join _ f) by by apply plain_not_abs. rewrite Hb.
  rewrite components_join by by apply plain_not_abs.
  rewrite (split_slash_plain f) by done. cbn.
  by apply norm_step_plain.
Qed.

End given_directory.

(** The loop of [make_logged_file] in an absolute directory that exists:
    it stops at the first turn whose path is not in use. *)
Lemma logged_file_at (w : World) (base prefix suffix : string) :
  isabs base = true →
  has_slash prefix = false → has_slash suffix = false →
  is_Some (fs w !! path_key (cwd w) base) →
  let path i := join base (logged_name prefix suffix i) in
  let key i := path_key (cwd w) (path i) in
  ∃ i, (1 ≤ i)%nat
     ∧ make_logged_file_loop (S (size (fs w))) 1 base (PStr prefix) (PStr suffix) w
       = (Return (path i), with_fs (fun _ => <[key i := File 0]> (fs w)) w)
     ∧ fs w !! key i = None
     ∧ (∀ j, (1 ≤ j < i)%nat → is_Some (fs w !! key j))
     ∧ ((2 ≤ i)%nat ∨ plain (prefix +:+ suffix) →
        key i = path_key (cwd w) base ++ [logged_name prefix suffix i]).
Proof.
  intros Hb Hp Hs Htop path key.
  assert (Hkey : ∀ j, (2 ≤ j)%nat →
            key j = path_key (cwd w) base ++ [logged_name prefix suffix j]).
  { intros j Hj. unfold key, path.
    apply path_key_under; [done|]. apply logged_name_plain; [done..|lia]. }
  destruct (make_logged_file_loop_first base prefix suffix
              (S (size (fs w))) 1 w) as (i & Hi & Hnone & Hused & Hrun).
  { destruct (some_name_free (fs w) (path_key (cwd w) base)
                (logged_name prefix suffix)) as (j & Hj & Hfree).
    - done.
    - intros i j Hi Hj. apply logged_name_inj; lia.
    - exists j. split; [lia|].
      fold (path j). fold (key j). by rewrite Hkey by lia. }
  exists i. split; [lia|]. split; [exact Hrun|]. split; [done|]. split.
  - intros j Hj. apply Hused. lia.
  - intros [Hi2|Hplain]; [by apply Hkey|].
    destruct (decide (i = 1%nat)) as [->|]; [|apply Hkey; lia].
    unfold key, path, logged_name. cbn.
    by apply path_key_under.
Qed.

Lemma make_logged_file_in (w : World) (self : nat) (n : EthenoLogger)
    (d prefix suffix : string) (dir : option string) :
  nodes w !! self = Some n → _directory n = Some d → isabs d = true →
  has_slash prefix = false → has_slash suffix = false →
  let top := path_key (cwd w) (default d dir) in
  let fs0 := makedirs top (fs w) in
  ∃ i path,
    (1 ≤ i)%nat
    ∧ make_logged_file self (PStr prefix) (PStr suffix) dir w
      = (Return path,
         with_fs (fun _ => <[path_key (cwd w) path := File 0]> fs0) w)
    ∧ fs0 !! path_key (cwd w) path = None
    ∧ ((2 ≤ i)%nat ∨ plain (prefix +:+ suffix) →
       path_key (cwd w) path = top ++ [logged_name prefix suffix i]
       ∧ ∀ j, (2 ≤ j < i)%nat →
           is_Some (fs0 !! (top ++ [logged_name prefix suffix j]))).
Proof.
  intros Hn Hd Habs Hp Hs top fs0.
  set (rel := match dir with
              | None => ""
              | Some D => relpath (cwd w) (realpath (cwd w) D)
                                  (realpath (cwd w) d)
              end).
  assert (isabs rel = false ∧ path_key (cwd w) (join d rel) = top)
    as [Hrel Hbase].
  { unfold rel, top. destruct dir as [D|]; [by apply relpath_base|].
    split; [done|]. by apply path_key_join_empty. }
  set (w' := with_fs (makedirs (path_key (cwd w) (join d rel))) w).
  assert (Hfs' : fs w' = fs0).
  { unfold w', fs0. cbn [fs with_fs]. by rewrite Hbase. }
  assert (Hbabs : isabs (join d rel) = true) by by rewrite isabs_join.
  destruct (logged_file_at w' (join d rel) prefix suffix Hbabs Hp Hs)
    as (i & Hi & Hrun & Hnone & Hused & Hkey).
  { change (cwd w') with (cwd w). rewrite Hfs', Hbase. apply makedirs_self. }
  change (cwd w') with (cwd w) in *. rewrite Hfs', Hbase in *.
  exists i, (join (join d rel) (logged_name prefix suffix i)).
  split; [done|]. split; [|split; [done|]].
  - unfold make_logged_file.
    erewrite bind_step; [|unfold get_node; by rewrite Hn].
    erewrite bind_step; [|reflexivity]. rewrite Hd.
    erewrite bind_step; [|reflexivity].
    erewrite bind_step; [|reflexivity].
    fold rel. fold w'. rewrite Hfs'. exact Hrun.
  - intros Hor. split; [by apply Hkey|].
    intros j Hj. destruct (Hused j) as [e He]; [lia|].
    exists e. rewrite <- He. f_equal.
    rewrite path_key_under, Hbase; [done | done |].
    apply logged_name_plain; [done..|lia].
Qed.



Lemma constant_logged_file (w : World) (self : nat)
    (n : EthenoLogger) (d prefix suffix : string) (dir : option string) :
  nodes w !! self = Some n → _directory n = Some d → isabs d = true →
  has_slash prefix = false → has_slash suffix = false →
  let top := path_key (cwd w) (default d dir) in
  let fs0 := makedirs top (fs w) in
  (∀ s, UTF8.encode s = None →
     make_constant_logged_file self (inl s) (PStr prefix) (PStr suffix) dir w
     = (Raise ValueError, w))
  ∧ (∀ contents b,
       contents = inr b ∨ (∃ s, contents = inl s ∧ UTF8.encode s = Some b) →
       ∃ i p w',
         (1 ≤ i)%nat
         ∧ make_constant_logged_file self contents (PStr prefix) (PStr suffix)
             dir w = (Return p, w')
         ∧ w' = with_fs (fun _ => <[path_key (cwd w) p
                                     := File (N.of_nat (length b))]> fs0) w
         ∧ fs0 !! path_key (cwd w) p = None
         ∧ isabs p = true
         ∧ ((2 ≤ i)%nat ∨ plain (prefix +:+ suffix) →
            path_key (cwd w) p = top ++ [logged_name prefix suffix i]
            ∧ ∀ sub, top = path_key (cwd w) d ++ sub →
                to_log_path self p w'
                = (Return (join_slash (sub ++ [logged_name prefix suffix i])),
                   w'))).
Proof.
  intros Hn Hd Habs Hp Hs top fs0. split.
  - intros s Hs'. unfold make_constant_logged_file. by rewrite Hs'.
  - intros contents b Hc.
    destruct (make_logged_file_in w self n d prefix suffix dir Hn Hd Habs Hp Hs)
      as (i & path & Hi & Hrun & Hnone & Hkey).
    fold top fs0 in Hrun, Hnone, Hkey.
    exists i, (realpath (cwd w) path). eexists.
    split; [done|]. split; [|split; [reflexivity|]].
    + unfold make_constant_logged_file.
      erewrite bind_step; [|destruct Hc as [->|(s & -> & ->)]; reflexivity].
      erewrite bind_step; [|exact Hrun].
      erewrite bind_step; [|reflexivity].
      erewrite bind_step; [|reflexivity].
      unfold ret. f_equal. cbn [cwd with_fs fs].
      rewrite path_key_realpath. unfold with_fs. cbn. f_equal.
      apply insert_insert_eq.
    + rewrite path_key_realpath. split; [done|]. split.
      { unfold realpath, abspath. apply isabs_leading. }
      intros Hor. destruct (Hkey Hor) as [Hk _]. split; [done|].
      intros sub Hsub.
      rewrite (to_log_path_names _ self n _ d (sub ++ [logged_name prefix suffix i]));
        [by destruct sub | done | done |].
      cbn [cwd with_fs]. by rewrite path_key_realpath, Hk, Hsub, <- app_assoc.
Qed.


(** * The level setter *)

Lemma foldl_alter_lookup {X} (f : X → X) (l : list nat) : ∀ (xs : list X) i,
  (∀ x, f (f x) = f x) →
  foldl (fun xs h => alter f h xs) xs l !! i
  = (fun x => if decide (i ∈ l) then f x else x) <$> xs !! i.
Proof.
  induction l as [|h l IH]; intros xs i Hf; cbn [foldl].
  - destruct (xs !! i); [|done]. cbn. by rewrite decide_False by apply not_elem_of_nil.
  - rewrite IH by done. destruct (decide (h = i)) as [->|Hne].
    + rewrite list_lookup_alter_eq. destruct (xs !! i) as [x|]; [|done]. cbn.
      rewrite (decide_True (P := i ∈ i :: l)) by by left.
      by destruct (decide (i ∈ l)); rewrite ?Hf.
    + rewrite list_lookup_alter_ne by done.
      destruct (xs !! i) as [x|]; [|done]. cbn. f_equal.
      destruct (decide (i ∈ l)) as [Hi|Hi].
      * by rewrite decide_True by by right.
      * rewrite decide_False; [done|].
        intros [?|?]%elem_of_cons; congruence.
Qed.

Lemma for_each_setLevel_handlers z (l : list nat) : ∀ w,
  for_each l (fun h => Handler_setLevel h (PInt z)) w
  = (Return tt,
     with_handlers (fun hs =>
       foldl (fun hs h => alter (fun hd => mkHandler (h_file hd) z (h_open hd)) h hs)
             hs l) w).
Proof.
  induction l as [|h l IH]; intros w; cbn [for_each foldl].
  - by destruct w.
  - erewrite bind_step; [|reflexivity]. by rewrite IH.
Qed.

Lemma set_log_level_effect (w : World) (x : nat) (n : EthenoLogger) :
  nodes w !! x = Some n →
  (∀ z, recognized z = false →
     set_log_level x (PInt z) w = (Raise ValueError, w))
  ∧ (∀ level, (∀ z, level ≠ PInt z) →
       logging_getattr (upper (py_str level)) = None →
       set_log_level x level w = (Raise ValueError, w))
  ∧ (∀ level v, (∀ z, level ≠ PInt z) → (∀ z, v ≠ PInt z) →
       logging_getattr (upper (py_str level)) = Some v →
       ∃ e, set_log_level x level w
            = (Raise e, with_nodes (alter (set_level v) x) w))
  ∧ (∀ level z,
       (level = PInt z ∧ recognized z = true)
       ∨ ((∀ i, level ≠ PInt i)
          ∧ logging_getattr (upper (py_str level)) = Some (PInt z)) →
       ∃ w', set_log_level x level w = (Return tt, w')
         ∧ nodes w' = alter (set_level (PInt z)) x (nodes w)
         ∧ loggers w' = alter (fun l => mkLogger z (lg_handlers l))
                          (_logger n) (loggers w)
         ∧ (∀ h, handlers w' !! h
                 = (fun hd => if decide (h ∈ _handlers n)
                              then mkHandler (h_file hd) z (h_open hd)
                              else hd) <$> handlers w !! h)
         ∧ fs w' = fs w
         ∧ log_level x w' = (Return (PInt z), w')).
Proof.
  intros Hn. split_and!.
  - intros z Hz. unfold set_log_level. by rewrite Hz.
  - intros level Hl Hnone. unfold set_log_level.
    destruct level as [|z| |]; try (by rewrite Hnone). by destruct (Hl z).
  - intros level v Hl Hv Hsome. unfold set_log_level.
    assert (∃ e, checkLevel v = inl e) as [e He].
    { unfold logging_getattr in Hsome.
      repeat case_decide; simplify_eq; try (by eexists);
        by (exfalso; eapply Hv; reflexivity). }
    exists e.
    assert (Hres : (match level with
                    | PInt z => if recognized z then ret (PInt z) else raise ValueError
                    | _ => match logging_getattr (upper (py_str level)) with
                           | Some v => ret v
                           | None => raise ValueError
                           end
                    end) w = (Return v, w)).
    { destruct level as [|z| |]; try (by rewrite Hsome). by destruct (Hl z). }
    erewrite bind_step; [|exact Hres].
    erewrite bind_step; [|reflexivity].
    erewrite get_node_step; [|cbn; by rewrite list_lookup_alter_eq, Hn].
    unfold bind, Logger_setLevel. by rewrite He.
  - intros level z Hlevel.
    assert (Hres : (match level with
                    | PInt z => if recognized z then ret (PInt z) else raise ValueError
                    | _ => match logging_getattr (upper (py_str level)) with
                           | Some v => ret v
                           | None => raise ValueError
                           end
                    end) w = (Return (PInt z), w)).
    { destruct Hlevel as [[-> Hz]|[Hl Hsome]]; [by rewrite Hz|].
      destruct level as [|i| |]; try (by rewrite Hsome). by destruct (Hl i). }
    eexists. split; [|split_and!].
    + unfold set_log_level.
      erewrite bind_step; [|exact Hres].
      erewrite bind_step; [|reflexivity].
      erewrite get_node_step; [|cbn; by rewrite list_lookup_alter_eq, Hn].
      erewrite bind_step; [|reflexivity].
      apply for_each_setLevel_handlers.
    + reflexivity.
    + reflexivity.
    + intros h. cbn. apply foldl_alter_lookup. by intros [].
    + reflexivity.
    + eapply log_level_number; [cbn; by rewrite list_lookup_alter_eq, Hn|done].
Qed.


(** * The constructor of a child, field by field *)

Local Abbreviation setlv z := (fun hd => mkHandler (h_file hd) z (h_open hd)).
Local Abbreviation addh h :=
  (fun l => if decide (h ∈ lg_handlers l) then l
            else mkLogger (lg_level l) (lg_handlers l ++ [h])).
Local Abbreviation more_handlers l n :=
  (set_descendant_handlers (_descendant_handlers n ++ l)
     (set_handlers (_handlers n ++ l) n)).

Lemma alter_insert_eq {X} (f : X → X) (l : list X) i x :
  l !! i = Some x → alter f i l = <[i := f x]> l.
Proof.
  revert i. induction l as [|y l IH]; intros [|i] H; try done.
  - cbn in H. by injection H as ->.
  - cbn in *. f_equal. by apply IH.
Qed.

Lemma alter_alter_insert {X} (f g : X → X) (l : list X) i x :
  l !! i = Some x → alter f i (alter g i l) = <[i := f (g x)]> l.
Proof.
  intros H. rewrite (alter_insert_eq g _ _ x H).
  rewrite (alter_insert_eq f _ _ (g x)).
  - by rewrite list_insert_insert_eq.
  - apply list_lookup_insert_eq. by eapply lookup_lt_Some.
Qed.

Lemma addHandler_alone_exact x n h w :
  nodes w !! x = Some n →
  addHandler x h false false w
  = (Return tt,
     mkWorld (<[x := set_handlers (_handlers n ++ [h]) n]> (nodes w))
       (handlers w) (alter (addh h) (_logger n) (loggers w))
       (fs w) (cwd w) (tmp_count w)).
Proof.
  intros Hn. unfold addHandler. pose proof (lookup_lt_Some _ _ _ Hn).
  destruct (length (nodes w)) as [|fuel]; [lia|].
  cbn [addHandler_rec].
  erewrite bind_step; [|reflexivity].
  rewrite (get_node_step x n) by done.
  erewrite bind_step; [|reflexivity].
  erewrite bind_step; [|reflexivity].
  unfold ret, with_nodes, with_loggers. cbn. f_equal. f_equal.
  by rewrite (alter_insert_eq _ _ _ n Hn).
Qed.

Lemma save_to_file_exact x n path z w :
  nodes w !! x = Some n →
  let h := length (handlers w) in
  let base := abspath (cwd w) path in
  save_to_file x path false (PInt z) w
  = (Return tt,
     mkWorld (<[x := set_handlers (_handlers n ++ [h]) n]> (nodes w))
       (handlers w ++ [mkHandler (Some base) z true])
       (alter (addh h) (_logger n) (loggers w))
       (open_append (path_key (cwd w) base) (fs w)) (cwd w) (tmp_count w)).
Proof.
  intros Hn h base. unfold save_to_file.
  erewrite bind_step; [|reflexivity].
  erewrite bind_step; [|reflexivity].
  erewrite bind_step; [|reflexivity].
  rewrite (addHandler_alone_exact x n) by done.
  cbn. by rewrite alter_last.
Qed.

(** [save_to_directory] for a node that has no directory and no children
    yet. *)
Lemma save_to_directory_first x n path w :
  nodes w !! x = Some n → _directory n = None → children n = [] →
  let h := length (handlers w) in
  let file := abspath (cwd w) (join path (_logger n +:+ ".log")) in
  save_to_directory x (PathStr path) w
  = (Return tt,
     mkWorld (<[x := set_handlers (_handlers n ++ [h])
                       (set_directory (Some (realpath (cwd w) path)) n)]>
                (nodes w))
       (handlers w ++ [mkHandler (Some file) DEBUG true])
       (alter (addh h) (_logger n) (loggers w))
       (open_append (path_key (cwd w) file)
          (makedirs (path_key (cwd w) path) (fs w)))
       (cwd w) (tmp_count w)).
Proof.
  intros Hn Hd Hc h file.
  unfold save_to_directory. pose proof (lookup_lt_Some _ _ _ Hn).
  destruct (length (nodes w)) as [|fuel]; [lia|].
  cbn [save_to_directory_rec].
  rewrite (get_node_step x n) by done. rewrite Hd.
  cbn [fmap option_fmap option_map].
  destruct (decide (Some (PathStr path) = None)) as [|_]; [done|].
  destruct (decide (None ≠ None)) as [|_]; [done|].
  unfold bind at 1. cbn [get_world].
  erewrite bind_step; [|reflexivity].
  erewrite bind_step; [|reflexivity].
  erewrite bind_step;
    [|apply (save_to_file_exact x
               (set_directory (Some (realpath (cwd w) path)) n));
      cbn; by rewrite list_lookup_alter_eq, Hn].
  erewrite get_node_step;
    [|cbn; apply list_lookup_insert_eq; rewrite length_alter;
      by eapply lookup_lt_Some].
  cbn [children set_handlers set_directory]. rewrite Hc. cbn [for_each].
  unfold ret. cbn. f_equal. f_equal.
  rewrite (alter_insert_eq _ _ _ n) by done.
  by rewrite list_insert_insert_eq.
Qed.

Lemma more_handlers_nil n : more_handlers [] n = n.
Proof. destruct n. unfold set_descendant_handlers, set_handlers. cbn. by rewrite !app_nil_r. Qed.

Lemma more_handlers_app l1 l2 n :
  more_handlers l2 (more_handlers l1 n) = more_handlers (l1 ++ l2) n.
Proof.
  destruct n. unfold set_descendant_handlers, set_handlers. cbn.
  by rewrite !app_assoc.
Qed.

(** [addHandler] with both flags set, at a node without children. *)
Lemma addHandler_leaf c nc h z w :
  nodes w !! c = Some nc → children nc = [] → _log_level nc = PInt z →
  addHandler c h true true w
  = (Return tt,
     mkWorld (<[c := more_handlers [h] nc]> (nodes w))
       (alter (setlv z) h (handlers w))
       (alter (addh h) (_logger nc) (loggers w))
       (fs w) (cwd w) (tmp_count w)).
Proof.
  intros Hn Hc Hz. unfold addHandler. pose proof (lookup_lt_Some _ _ _ Hn) as Hlt.
  destruct (length (nodes w)) as [|fuel] eqn:Hlen; [lia|].
  cbn [addHandler_rec].
  erewrite bind_step;
    [|rewrite (bind_step _ _ _ _ _ (log_level_number _ _ _ _ Hn Hz));
      reflexivity].
  rewrite (get_node_step c nc) by done.
  erewrite bind_step; [|reflexivity].
  erewrite bind_step; [|reflexivity].
  erewrite bind_step; [|reflexivity].
  erewrite get_node_step;
    [|cbn; rewrite !list_lookup_alter_eq, Hn; reflexivity].
  cbn [children set_descendant_handlers set_handlers]. rewrite Hc.
  cbn [for_each]. unfold ret. cbn. f_equal. f_equal.
  unfold with_nodes, with_loggers, with_handlers. cbn.
  by rewrite (alter_alter_insert _ _ _ _ nc Hn).
Qed.

Lemma for_each_addHandler_leaf c z (l : list nat) : ∀ w nc,
  nodes w !! c = Some nc → children nc = [] → _log_level nc = PInt z →
  for_each l (fun h => addHandler c h true true) w
  = (Return tt,
     mkWorld (<[c := more_handlers l nc]> (nodes w))
       (foldl (fun hs h => alter (setlv z) h hs) (handlers w) l)
       (foldl (fun lgs h => alter (addh h) (_logger nc) lgs) (loggers w) l)
       (fs w) (cwd w) (tmp_count w)).
Proof.
  induction l as [|h l IH]; intros w nc Hn Hc Hz; cbn [for_each foldl].
  - rewrite more_handlers_nil, list_insert_id by done. by destruct w.
  - erewrite bind_step; [|by apply (addHandler_leaf c nc h z)].
    erewrite (IH _ (more_handlers [h] nc)); [|cbn|done|done].
    + cbn [nodes handlers loggers fs cwd tmp_count].
      rewrite list_insert_insert_eq, more_handlers_app. reflexivity.
    + apply list_lookup_insert_eq. by eapply lookup_lt_Some.
Qed.

Lemma chain_rec_agree w w' :
  (∀ y n q, nodes w !! y = Some n → parent n = Some q → (q < y)%nat) →
  ∀ fuel x,
    (∀ y, (y ≤ x)%nat → parent <$> nodes w' !! y = parent <$> nodes w !! y) →
    chain_rec fuel w' x = chain_rec fuel w x.
Proof.
  intros Hpar. induction fuel as [|fuel IH]; intros x H; [done|].
  cbn [chain_rec]. pose proof (H x (le_n _)) as Hx.
  destruct (nodes w !! x) as [n|] eqn:Hn, (nodes w' !! x) as [n'|];
    try done.
  cbn in Hx. injection Hx as ->.
  destruct (parent n) as [q|] eqn:Hq; [|done].
  rewrite IH; [done|]. intros y Hy. apply H.
  specialize (Hpar x n q Hn Hq). lia.
Qed.

(** The loop of lines 147-151 for a child without children: one turn for
    every node from the parent up to the root, each adding the same
    handlers, those that the parent has for its descendants. *)
Lemma add_child_loop_exact p c z dh : (p < c)%nat →
  ∀ fuel q w nc np,
    (q ≤ p)%nat → (q < fuel)%nat → is_Some (nodes w !! q) →
    (∀ y n q, nodes w !! y = Some n → parent n = Some q → (q < y)%nat) →
    nodes w !! p = Some np → _descendant_handlers np = dh →
    nodes w !! c = Some nc → children nc = [] → _log_level nc = PInt z →
    let hs := mjoin (replicate (length (chain_rec fuel w q)) dh) in
    add_child_loop fuel p c (Some q) w
    = (Return tt,
       mkWorld (<[c := more_handlers hs nc]> (nodes w))
         (foldl (fun hs h => alter (setlv z) h hs) (handlers w) hs)
         (foldl (fun lgs h => alter (addh h) (_logger nc) lgs) (loggers w) hs)
         (fs w) (cwd w) (tmp_count w)).
Proof.
  intros Hpc. induction fuel as [|fuel IH];
    intros q w nc np Hq Hfuel [nq Hnq] Hpar Hnp Hdh Hnc Hc Hz hs; [lia|].
  cbn [add_child_loop].
  rewrite (get_node_step p np) by done. rewrite Hdh.
  erewrite bind_step; [|by apply (for_each_addHandler_leaf c z dh w nc)].
  set (w1 := mkWorld _ _ _ _ _ _).
  assert (Hother : ∀ y, y ≠ c → nodes w1 !! y = nodes w !! y).
  { intros y Hy. unfold w1. cbn. by rewrite list_lookup_insert_ne. }
  rewrite (get_node_step q nq) by (rewrite Hother by lia; done).
  unfold hs. cbn [chain_rec]. rewrite Hnq.
  destruct (parent nq) as [q'|] eqn:Hq'.
  - pose proof (Hpar q nq q' Hnq Hq') as Hlt.
    assert (Hc1 : nodes w1 !! c = Some (more_handlers dh nc)).
    { unfold w1. cbn. apply list_lookup_insert_eq. by eapply lookup_lt_Some. }
    assert (Hpar1 : ∀ y n r, nodes w1 !! y = Some n → parent n = Some r →
                      (r < y)%nat).
    { intros y n r Hn Hr. destruct (decide (y = c)) as [->|Hy].
      - rewrite Hc1 in Hn. injection Hn as <-. by apply (Hpar c nc).
      - rewrite Hother in Hn by done. by apply (Hpar y n). }
    rewrite (IH q' w1 (more_handlers dh nc) np); try done; try lia.
    + assert (Hch : chain_rec fuel w1 q' = chain_rec fuel w q').
      { apply chain_rec_agree; [done|]. intros y Hy.
        rewrite Hother by lia. done. }
      rewrite Hch, length_app. cbn [length].
      rewrite Nat.add_1_r. cbn [replicate mjoin list_join].
      unfold w1. cbn [nodes handlers loggers fs cwd tmp_count].
      rewrite list_insert_insert_eq, more_handlers_app.
      by rewrite !foldl_app.
    + rewrite Hother by lia.
      assert (q' < length (nodes w))%nat as Hex
        by (apply lookup_lt_Some in Hnq; lia).
      by apply lookup_lt_is_Some_2.
    + rewrite Hother by lia. done.
  - cbn. rewrite app_nil_r. by destruct fuel.
Qed.

Lemma set_log_level_exact x n z w :
  nodes w !! x = Some n → recognized z = true →
  set_log_level x (PInt z) w
  = (Return tt,
     mkWorld (<[x := set_level (PInt z) n]> (nodes w))
       (foldl (fun hs h => alter (setlv z) h hs) (handlers w) (_handlers n))
       (alter (fun l => mkLogger z (lg_handlers l)) (_logger n) (loggers w))
       (fs w) (cwd w) (tmp_count w)).
Proof.
  intros Hn Hz. unfold set_log_level. rewrite Hz.
  erewrite bind_step; [|reflexivity].
  erewrite bind_step; [|reflexivity].
  erewrite get_node_step; [|cbn; by rewrite list_lookup_alter_eq, Hn].
  erewrite bind_step; [|reflexivity].
  rewrite for_each_setLevel_handlers.
  unfold with_handlers, with_loggers, with_nodes. cbn.
  by rewrite (alter_insert_eq _ _ _ n Hn).
Qed.

Lemma init_child_exact name lvl p np d ce z w :
  sound w → nodes w !! p = Some np → _directory np = Some d →
  (lvl = PInt z ∧ recognized z = true)
  ∨ (lvl = PNone ∧ _log_level np = PInt z) →
  let c := length (nodes w) in
  let lg := if decide (name = "") then "root" else name in
  let h0 := length (handlers w) in
  let hs := mjoin (replicate (length (chain w p)) (_descendant_handlers np)) in
  let dir := join d lg in
  let file := abspath (cwd w) (join dir (lg +:+ ".log")) in
  ∃ w', EthenoLogger_init name lvl (Some p) ce w = (Return c, w')
    ∧ nodes w'
      = <[p := set_children (children np ++ [c]) np]> (nodes w)
        ++ [mkEthenoLogger (Some (realpath (cwd w) dir)) (Some p) ce [] hs
              (PInt z) lg ([h0; S h0] ++ hs) None]
    ∧ handlers w'
      = foldl (fun hs h => alter (setlv z) h hs)
          (handlers w ++ [mkHandler None z true;
                          mkHandler (Some file) DEBUG true]) hs
    ∧ fs w' = open_append (path_key (cwd w) file)
                (makedirs (path_key (cwd w) dir) (fs w))
    ∧ cwd w' = cwd w ∧ tmp_count w' = tmp_count w.
Proof.
  intros Hs Hnp Hd Hlvl c lg h0 hs dir file.
  destruct (Hs p np Hnp) as (Hkids & Hpar & zp & Hzp & Hrp).
  pose proof (lookup_lt_Some _ _ _ Hnp) as Hplt. fold c in Hplt.
  assert (Hz : recognized z = true).
  { destruct Hlvl as [[_ ?]|[_ Hl]]; [done|]. congruence. }
  unfold EthenoLogger_init.
  unfold bind at 1. cbn [get_world]. fold c.
  erewrite bind_step; [|reflexivity].
  match goal with
  | |- ∃ _, bind _ _ ?w0 = _ ∧ _ => set (w1 := w0)
  end.
  assert (Hl : match lvl with
               | PNone => log_level p
               | v => ret v
               end w1 = (Return (PInt z), w1)).
  { destruct Hlvl as [[-> _]|[-> Hl]]; [reflexivity|].
    apply (log_level_number p np); [|done].
    unfold w1. cbn. by apply lookup_app_l_Some. }
  rewrite (bind_step _ _ _ _ _ Hl). clear Hl. unfold w1. clear w1.
  erewrite bind_step; [|reflexivity].
  set (blank := mkEthenoLogger None (Some p) ce [] [] PNone "" [] None).
  set (lgs := match loggers w !! lg with
              | Some _ => loggers w
              | None => <[lg := mkLogger NOTSET []]> (loggers w)
              end).
  erewrite (bind_step (getLogger name) _ _ lg
              (mkWorld (alter (set_level (PInt z)) c (nodes w ++ [blank]))
                 (handlers w) lgs (fs w) (cwd w) (tmp_count w)));
    [|unfold getLogger; cbn; fold lg; unfold lgs;
      by destruct (loggers w !! lg)].
  erewrite bind_step; [|reflexivity].
  erewrite bind_step; [|reflexivity].
  erewrite bind_step; [|reflexivity].
  set (fresh := mkEthenoLogger None (Some p) ce [] [] (PInt z) lg [h0] None).
  match goal with
  | |- ∃ _, bind _ _ ?w0 = _ ∧ _ =>
    assert (E6 : w0 = mkWorld (nodes w ++ [fresh])
                        (handlers w ++ [mkHandler None NOTSET true])
                        lgs (fs w) (cwd w) (tmp_count w));
      [|rewrite E6; clear E6]
  end.
  { unfold with_nodes, with_handlers. cbn. f_equal. unfold c.
    by rewrite !alter_last. }
  destruct (decide (PInt z ≠ PNone)) as [_|Hne]; [|by destruct Hne].
  (* the level setter, line 103 *)
  assert (Hc6 : (nodes w ++ [fresh]) !! c = Some fresh).
  { unfold c. by rewrite lookup_app_r, Nat.sub_diag. }
  erewrite bind_step;
    [|by apply (set_log_level_exact c fresh z)].
  cbn [nodes handlers loggers fs cwd tmp_count _handlers _logger fresh foldl].
  change (set_level (PInt z) fresh) with fresh.
  rewrite list_insert_id by done.
  unfold h0 at 1. rewrite alter_last. cbn [h_file h_open].
  set (lgs7 := alter _ lg lgs).
  (* [_add_child], lines 138-146 *)
  set (np' := set_children (children np ++ [c]) np).
  set (fresh1 := set_handlers ([h0] ++ [S h0])
                   (set_directory (Some (realpath (cwd w) dir)) fresh)).
  set (nodes8 := <[p := np']> (nodes w) ++ [fresh]).
  assert (Hlen8 : length nodes8 = S c).
  { unfold nodes8. rewrite length_app, length_insert. cbn. unfold c. lia. }
  assert (Hp8 : nodes8 !! p = Some np').
  { unfold nodes8. rewrite lookup_app_l by (rewrite length_insert; lia).
    by apply list_lookup_insert_eq. }
  assert (Hc8 : nodes8 !! c = Some fresh).
  { unfold nodes8. rewrite lookup_app_r by (rewrite length_insert; unfold c; lia).
    rewrite length_insert. fold c. by rewrite Nat.sub_diag. }
  assert (Hold8 : ∀ y, y ≠ p → (y < c)%nat → nodes8 !! y = nodes w !! y).
  { intros y Hy Hyc. unfold nodes8.
    rewrite lookup_app_l by (rewrite length_insert; lia).
    by rewrite list_lookup_insert_ne. }
  set (hdl9 := (handlers w ++ [mkHandler None z true])
               ++ [mkHandler (Some file) DEBUG true]).
  set (fs9 := open_append (path_key (cwd w) file)
                (makedirs (path_key (cwd w) dir) (fs w))).
  assert (Hadd : ∃ lgs9,
    _add_child p c (mkWorld (nodes w ++ [fresh])
                      (handlers w ++ [mkHandler None z true]) lgs7
                      (fs w) (cwd w) (tmp_count w))
    = (Return tt,
       mkWorld (<[c := more_handlers hs fresh1]> nodes8)
         (foldl (fun hs h => alter (setlv z) h hs) hdl9 hs)
         lgs9 fs9 (cwd w) (tmp_count w))).
  { unfold _add_child.
    rewrite (get_node_step p np) by (cbn; by apply lookup_app_l_Some).
    destruct (decide (c ∈ children np)) as [Hin|_].
    { rewrite Forall_forall in Hkids. specialize (Hkids _ Hin). lia. }
    erewrite bind_step; [|reflexivity].
    assert (E8 : alter (fun n => set_children (children n ++ [c]) n) p
                   (nodes w ++ [fresh]) = nodes8).
    { unfold nodes8. rewrite alter_app_l by done.
      by rewrite (alter_insert_eq _ _ _ np Hnp). }
    unfold with_nodes. cbn [nodes handlers loggers fs cwd tmp_count].
    rewrite E8.
    rewrite (get_node_step c fresh) by done.
    rewrite Hd.
    erewrite bind_step;
      [|by apply (save_to_directory_first c fresh)].
    cbn [nodes handlers loggers fs cwd tmp_count _handlers _logger fresh].
    rewrite length_app. cbn [length]. rewrite Nat.add_1_r. fold h0.
    fold dir file fs9 hdl9 fresh fresh1.
    unfold bind at 1. cbn [get_world nodes].
    rewrite length_insert, Hlen8.
    set (lgs8 := alter _ lg lgs7).
    erewrite (add_child_loop_exact p c z (_descendant_handlers np) Hplt
                (S c) p _ fresh1 np'); try done; try lia.
    - eexists. cbn [nodes handlers loggers fs cwd tmp_count].
      rewrite list_insert_insert_eq.
      assert (Hch : chain_rec (S c)
                 (mkWorld (<[c := fresh1]> nodes8) hdl9 lgs8 fs9 (cwd w)
                    (tmp_count w)) p = chain w p).
      { unfold chain. fold c.
        rewrite (chain_rec_enough w Hs c (S c) p) by lia.
        apply chain_rec_agree.
        - intros y n q Hn Hq. destruct (Hs y n Hn) as (_ & Hb & _). by apply Hb.
        - intros y Hy. cbn [nodes].
          rewrite list_lookup_insert_ne by lia.
          destruct (decide (y = p)) as [->|Hne].
          + by rewrite Hp8, Hnp.
          + by rewrite Hold8 by lia. }
      rewrite Hch. fold hs. reflexivity.
    - cbn [nodes]. rewrite list_lookup_insert_ne by lia. by rewrite Hp8.
    - intros y n q. cbn [nodes].
      destruct (decide (y = c)) as [->|Hyc].
      + rewrite list_lookup_insert_eq by lia. intros [= <-] [= <-]. lia.
      + rewrite list_lookup_insert_ne by done.
        destruct (decide (y = p)) as [->|Hyp].
        * rewrite Hp8. intros [= <-]. cbn. apply Hpar.
        * intros Hn Hq. assert (y < c)%nat as Hlt.
          { apply lookup_lt_Some in Hn. lia. }
          rewrite Hold8 in Hn by done.
          destruct (Hs y n Hn) as (_ & Hb & _). by apply Hb.
    - cbn [nodes]. rewrite list_lookup_insert_ne by lia. done.
    - cbn [nodes]. apply list_lookup_insert_eq. lia. }
  destruct Hadd as [lgs9 Hadd].
  rewrite (bind_step _ _ _ _ _ Hadd). clear Hadd.
  erewrite get_node_step;
    [|cbn [nodes]; apply list_lookup_insert_eq; lia].
  cbn [_handlers set_descendant_handlers set_handlers fresh1 app].
  erewrite bind_step; [|reflexivity].
  erewrite bind_step; [|reflexivity].
  eexists. split; [reflexivity|].
  cbn [nodes handlers loggers fs cwd tmp_count with_nodes with_loggers].
  split_and!; try reflexivity.
  - rewrite (alter_insert_eq _ _ _ (more_handlers hs fresh1))
      by (apply list_lookup_insert_eq; lia).
    rewrite list_insert_insert_eq. unfold nodes8.
    replace c with (length (<[p := np']> (nodes w)) + 0)%nat at 1
      by (rewrite length_insert; unfold c; lia).
    rewrite insert_app_r. reflexivity.
  - unfold hdl9. by rewrite <- app_assoc.
Qed.

Lemma save_to_directory_again x n real w :
  nodes w !! x = Some n → _directory n = Some real →
  ∀ path, save_to_directory x (PathStr path) w
          = if decide (path = real) then (Return tt, w)
            else (Raise ValueError, w).
Proof.
  intros Hn Hd path. unfold save_to_directory.
  pose proof (lookup_lt_Some _ _ _ Hn).
  destruct (length (nodes w)) as [|fuel]; [lia|].
  cbn [save_to_directory_rec].
  rewrite (get_node_step x n) by done. rewrite Hd.
  cbn [fmap option_fmap option_map].
  destruct (decide (path = real)) as [->|Hne].
  - by rewrite decide_True.
  - rewrite decide_False by congruence. by rewrite decide_True.
Qed.





Lemma child_takes_over_levels name lvl p np d ce z w h hd :
  sound w → nodes w !! p = Some np → _directory np = Some d →
  (lvl = PInt z ∧ recognized z = true)
  ∨ (lvl = PNone ∧ _log_level np = PInt z) →
  h ∈ _descendant_handlers np → handlers w !! h = Some hd →
  ∃ c w', EthenoLogger_init name lvl (Some p) ce w = (Return c, w')
    ∧ handlers w' !! h = Some (mkHandler (h_file hd) z (h_open hd))
    ∧ ∀ y n, nodes w !! y = Some n → h ∈ _handlers n →
        ∃ n', nodes w' !! y = Some n' ∧ h ∈ _handlers n'.
Proof.
  intros Hs Hnp Hd Hlvl Hh Hhd.
  destruct (init_child_exact name lvl p np d ce z w Hs Hnp Hd Hlvl)
    as (w' & Hrun & Hnodes & Hhandlers & _).
  eexists _, w'. split; [exact Hrun|]. split.
  - rewrite Hhandlers, foldl_alter_lookup by (by intros []).
    rewrite lookup_app_l by (by eapply lookup_lt_Some). rewrite Hhd. cbn.
    rewrite decide_True; [done|].
    apply list_elem_of_join. exists (_descendant_handlers np). split; [done|].
    pose proof (lookup_lt_Some _ _ _ Hnp) as Hlt.
    unfold chain. destruct (length (nodes w)) as [|fuel] eqn:E; [lia|].
    pose proof (chain_rec_last fuel w p np Hnp) as Hne.
    destruct (chain_rec (S fuel) w p); [done|]. cbn. by left.
  - intros y n Hn Hin. rewrite Hnodes.
    pose proof (lookup_lt_Some _ _ _ Hn) as Hlt.
    rewrite lookup_app_l by (by rewrite length_insert).
    destruct (decide (y = p)) as [->|Hne].
    + rewrite list_lookup_insert_eq by done. eexists. split; [done|].
      cbn. congruence.
    + rewrite list_lookup_insert_ne by done. by exists n.
Qed.



(** * The constructor of a root *)

Lemma init_root name lvl ce w :
  let c := length (nodes w) in
  let lg := if decide (name = "") then "root" else name in
  let h0 := length (handlers w) in
  (lvl = PNone →
   (EthenoLogger_init name lvl None ce w).1 = Raise ValueError)
  ∧ (∀ z, lvl = PInt z → recognized z = false →
       (EthenoLogger_init name lvl None ce w).1 = Raise ValueError)
  ∧ (∀ z, lvl = PInt z → recognized z = true →
       ∃ w', EthenoLogger_init name lvl None ce w = (Return c, w')
         ∧ nodes w' = nodes w ++ [mkEthenoLogger None None ce [] [] (PInt z)
                                    lg [h0] None]
         ∧ handlers w' = handlers w ++ [mkHandler None z true]
         ∧ (∃ l, loggers w' !! lg = Some l ∧ lg_level l = z
                 ∧ h0 ∈ lg_handlers l)
         ∧ (∀ k, k ≠ lg → loggers w' !! k = loggers w !! k)
         ∧ fs w' = fs w ∧ cwd w' = cwd w ∧ tmp_count w' = tmp_count w).
Proof.
  intros c lg h0. split_and!.
  - intros ->. reflexivity.
  - intros z -> Hz. unfold EthenoLogger_init.
    unfold bind at 1. cbn [get_world]. fold c.
    erewrite bind_step; [|reflexivity].
    erewrite bind_step; [|reflexivity].
    erewrite bind_step; [|reflexivity].
    set (blank := mkEthenoLogger None None ce [] [] PNone "" [] None).
    set (lgs := match loggers w !! lg with
                | Some _ => loggers w
                | None => <[lg := mkLogger NOTSET []]> (loggers w)
                end).
    erewrite (bind_step (getLogger name) _ _ lg
                (mkWorld (alter (set_level (PInt z)) c (nodes w ++ [blank]))
                   (handlers w) lgs (fs w) (cwd w) (tmp_count w)));
      [|unfold getLogger; cbn; fold lg; unfold lgs;
        by destruct (loggers w !! lg)].
    erewrite bind_step; [|reflexivity].
    erewrite bind_step; [|reflexivity].
    erewrite bind_step; [|reflexivity].
    destruct (decide (PInt z ≠ PNone)) as [_|Hne]; [|by destruct Hne].
    unfold bind at 1. unfold set_log_level. by rewrite Hz.
  - intros z -> Hz. unfold EthenoLogger_init.
    unfold bind at 1. cbn [get_world]. fold c.
    erewrite bind_step; [|reflexivity].
    erewrite bind_step; [|reflexivity].
    erewrite bind_step; [|reflexivity].
    set (blank := mkEthenoLogger None None ce [] [] PNone "" [] None).
    set (lgs := match loggers w !! lg with
                | Some _ => loggers w
                | None => <[lg := mkLogger NOTSET []]> (loggers w)
                end).
    assert (Hlgs : is_Some (lgs !! lg)).
    { unfold lgs. destruct (loggers w !! lg) eqn:E; [by rewrite E|].
      by rewrite lookup_insert_eq. }
    assert (Hother : ∀ k, k ≠ lg → lgs !! k = loggers w !! k).
    { intros k Hk. unfold lgs. destruct (loggers w !! lg); [done|].
      by rewrite lookup_insert_ne. }
    erewrite (bind_step (getLogger name) _ _ lg
                (mkWorld (alter (set_level (PInt z)) c (nodes w ++ [blank]))
                   (handlers w) lgs (fs w) (cwd w) (tmp_count w)));
      [|unfold getLogger; cbn; fold lg; unfold lgs;
        by destruct (loggers w !! lg)].
    erewrite bind_step; [|reflexivity].
    erewrite bind_step; [|reflexivity].
    erewrite bind_step; [|reflexivity].
    set (fresh := mkEthenoLogger None None ce [] [] (PInt z) lg [h0] None).
    match goal with
    | |- ∃ _, bind _ _ ?w0 = _ ∧ _ =>
      assert (E6 : w0 = mkWorld (nodes w ++ [fresh])
                          (handlers w ++ [mkHandler None NOTSET true])
                          lgs (fs w) (cwd w) (tmp_count w));
        [|rewrite E6; clear E6]
    end.
    { unfold with_nodes, with_handlers. cbn. f_equal. unfold c.
      by rewrite !alter_last. }
    destruct (decide (PInt z ≠ PNone)) as [_|Hne]; [|by destruct Hne].
    assert (Hc6 : (nodes w ++ [fresh]) !! c = Some fresh).
    { unfold c. by rewrite lookup_app_r, Nat.sub_diag. }
    erewrite bind_step; [|by apply (set_log_level_exact c fresh z)].
    cbn [nodes handlers loggers fs cwd tmp_count _handlers _logger fresh foldl].
    change (set_level (PInt z) fresh) with fresh.
    rewrite list_insert_id by done.
    unfold h0 at 1. rewrite alter_last. cbn [h_file h_open].
    erewrite bind_step; [|reflexivity].
    rewrite (get_node_step c fresh) by done.
    cbn [_handlers _logger fresh].
    erewrite bind_step; [|reflexivity].
    erewrite bind_step; [|reflexivity].
    eexists. split; [reflexivity|].
    cbn [nodes handlers loggers fs cwd tmp_count with_nodes with_loggers].
    split_and!; try reflexivity.
    + unfold c. by rewrite alter_last.
    + destruct Hlgs as [l Hl]. rewrite !lookup_alter_eq, Hl. cbn.
      eexists. split; [reflexivity|].
      destruct (decide (h0 ∈ lg_handlers l)); cbn; [done|].
      split; [done|]. apply elem_of_app. right. by apply list_elem_of_singleton.
    + intros k Hk. rewrite !lookup_alter_ne by done. by apply Hother.
Qed.

(** X19.  The constructor without a parent.  Without a level it raises
    [ValueError], and so it does for a number that is not one of the five
    levels.  With one of the five, the new object is the last node: it has
    no parent, no children, no directory and one handler, a new stream
    handler at this level; the logger of this name has the level and the
    handler, no other logger changes, and no file. *)
Theorem root_constructed (name : string) (lvl : pyval) (ce : bool) (w : World) :
  let c := length (nodes w) in
  let lg := if decide (name = "") then "root" else name in
  let h0 := length (handlers w) in
  (lvl = PNone →
   (EthenoLogger_init name lvl None ce w).1 = Raise ValueError)
  ∧ (∀ z, lvl = PInt z → recognized z = false →
       (EthenoLogger_init name lvl None ce w).1 = Raise ValueError)
  ∧ (∀ z, lvl = PInt z → recognized z = true →
       ∃ w', EthenoLogger_init name lvl None ce w = (Return c, w')
         ∧ nodes w' = nodes w ++ [mkEthenoLogger None None ce [] [] (PInt z)
                                    lg [h0] None]
         ∧ handlers w' = handlers w ++ [mkHandler None z true]
         ∧ (∃ l, loggers w' !! lg = Some l ∧ lg_level l = z
                 ∧ h0 ∈ lg_handlers l)
         ∧ (∀ k, k ≠ lg → loggers w' !! k = loggers w !! k)
         ∧ fs w' = fs w ∧ cwd w' = cwd w ∧ tmp_count w' = tmp_count w).
Proof. apply init_root. Qed.

Lemma root_constructed_witness :
  (EthenoLogger_init "" PNone None false start).1 = Raise ValueError
  ∧ (EthenoLogger_init "" (PInt 0) None false start).1 = Raise ValueError
  ∧ ∃ w', EthenoLogger_init "" (PInt INFO) None false start = (Return 0%nat, w')
        ∧ _logger <$> nodes w' !! 0%nat = Some "root".
Proof.
  destruct (root_constructed "" PNone false start) as (H1 & _).
  destruct (root_constructed "" (PInt 0) false start) as (_ & H2 & _).
  destruct (root_constructed "" (PInt INFO) false start) as (_ & _ & H3).
  split; [by apply H1|]. split; [by apply (H2 0)|].
  destruct (H3 INFO) as (w' & Hrun & Hnodes & _); [done..|].
  exists w'. split; [exact Hrun|]. by rewrite Hnodes.
Defined.
